(** * harp.gl: tile geometry loading and style technique resolution

    A shallow embedding of
      - [TileGeometryLoader.ts] (SimpleTileGeometryLoader, PhasedTileGeometryLoader),
      - [TileGeometryManager.ts] (PhasedTileGeometryManager),
      - [StyleSetEvaluator] and the interpolated property conversion,
    together with the properties the specification states about them. *)

From Stdlib Require Import ZArith Lia List Bool QArith Ascii String.
From stdpp Require Import base decidable countable gmap sets list strings option sorting.

Open Scope Z_scope.
Open Scope nat_scope.

(** ** Tiles and what the loaders see of them *)

Module Tiles.

(** [enum TileGeometryKind], with the numeric values of the source. *)
Inductive TileGeometryKind :=
| Background | Ground | Areas | Lines | Roads | Buildings | Labels | Pois | Details.

Definition kindValue (k : TileGeometryKind) : nat :=
  match k with
  | Background => 0 | Ground => 1 | Areas => 2 | Lines => 3 | Roads => 4
  | Buildings => 5 | Labels => 6 | Pois => 7 | Details => 8
  end.

Definition kindOfValue (n : nat) : option TileGeometryKind :=
  match n with
  | 0 => Some Background | 1 => Some Ground | 2 => Some Areas | 3 => Some Lines
  | 4 => Some Roads | 5 => Some Buildings | 6 => Some Labels | 7 => Some Pois
  | 8 => Some Details | _ => None
  end.

#[global] Instance TileGeometryKind_eq_dec : EqDecision TileGeometryKind.
Proof. solve_decision. Defined.

#[global] Instance TileGeometryKind_countable : Countable TileGeometryKind.
Proof. apply (inj_countable kindValue kindOfValue). intros []; reflexivity. Defined.

(** [type PhaseList = TileGeometryKind[]] *)
Abbreviation PhaseList := (list TileGeometryKind).

(** The technique predicates a loader hands to the geometry creator as a
    filter; a filter is the disjunction of the listed predicates. *)
Inductive TechniquePredicate :=
| IsFillTechnique | IsLineTechnique | IsDashedLineTechnique | IsSolidLineTechnique
| IsSegmentsTechnique | IsExtrudedLineTechnique | IsExtrudedPolygonTechnique
| IsPoiTechnique | IsLineMarkerTechnique | IsTextTechnique.

Definition TechniqueFilter := list TechniquePredicate.

Section Tiles.

(** The decoded payload of a tile is produced outside of this code and only
    passed through. *)
Context {DecodedTile : Type}.

(** Calls into [TileGeometryCreator]; a tile records the calls made for it. *)
Inductive BackendCall :=
| CreateBackground
| CreateObjects (decodedTile : DecodedTile) (filter : TechniqueFilter)
| CreateTextElements (decodedTile : DecodedTile) (textFilter : TechniqueFilter)
| PreparePois (decodedTile : DecodedTile)
| CreateAllGeometries (decodedTile : DecodedTile).

(** The part of [Tile] the loaders read and write. *)
Record Tile := mkTile {
  decodedTile : option DecodedTile;
  disposed : bool;
  isVisible : bool;
  cacheable : bool;            (* tile.dataSource.cacheable *)
  objects : list BackendCall   (* geometry creator calls issued for the tile *)
}.

(** Modelled from the spec: [Tile.removeDecodedTile()] is not part of the
    sources at hand. The DecodedTile is "owned by the Tile; consumed exactly
    once by a loader, then released": the tile drops its reference. *)
Definition removeDecodedTile (t : Tile) : Tile :=
  mkTile None (disposed t) (isVisible t) (cacheable t) (objects t).

Definition setTileDecodedTile (d : option DecodedTile) (t : Tile) : Tile :=
  mkTile d (disposed t) (isVisible t) (cacheable t) (objects t).

Definition setDisposed (b : bool) (t : Tile) : Tile :=
  mkTile (decodedTile t) b (isVisible t) (cacheable t) (objects t).

Definition setVisible (b : bool) (t : Tile) : Tile :=
  mkTile (decodedTile t) (disposed t) b (cacheable t) (objects t).

Definition backend (c : BackendCall) (t : Tile) : Tile :=
  mkTile (decodedTile t) (disposed t) (isVisible t) (cacheable t) (objects t ++ [c]).

End Tiles.

End Tiles.

(** ** PhasedTileGeometryLoader *)

Module PhasedTileGeometryLoader.
Import Tiles.

Section Phased.

Context {DecodedTile : Type}.

(** [tile.hasGeometry] is a getter of [Tile]; its value is determined by what
    has been created for the tile so far. *)
Variable hasGeometry : list (@BackendCall DecodedTile) -> bool.

Record PhasedLoader := mkPhased {
  m_decodedTile : option DecodedTile;
  m_isFinished : bool;
  m_geometryKindsLoaded : gset TileGeometryKind;
  m_loadPhaseDefinitions : list PhaseList;
  m_currentPhaseIndex : nat;
  m_basicGeometryKinds : gset TileGeometryKind
}.

(** A loader keeps a reference to its tile ([m_tile]) and the tile one to its
    loader; a method of the loader acts on the pair. *)
Definition Phased : Type := @Tile DecodedTile * PhasedLoader.

Definition newPhasedTileGeometryLoader
    (loadPhaseDefinitions : list PhaseList) (basicGeometryKinds : gset TileGeometryKind)
    : PhasedLoader :=
  mkPhased None false ∅ loadPhaseDefinitions 0 basicGeometryKinds.

Definition currentPhase (l : PhasedLoader) : nat := m_currentPhaseIndex l.

Definition numberOfPhases (l : PhasedLoader) : nat := length (m_loadPhaseDefinitions l).

Definition loadedKinds (l : PhasedLoader) : gset TileGeometryKind := m_geometryKindsLoaded l.

Definition withPhase (n : nat) (l : PhasedLoader) : PhasedLoader :=
  mkPhased (m_decodedTile l) (m_isFinished l) (m_geometryKindsLoaded l)
           (m_loadPhaseDefinitions l) n (m_basicGeometryKinds l).

Definition withKinds (ks : gset TileGeometryKind) (l : PhasedLoader) : PhasedLoader :=
  mkPhased (m_decodedTile l) (m_isFinished l) ks
           (m_loadPhaseDefinitions l) (m_currentPhaseIndex l) (m_basicGeometryKinds l).

Definition withDecoded (d : option DecodedTile) (l : PhasedLoader) : PhasedLoader :=
  mkPhased d (m_isFinished l) (m_geometryKindsLoaded l)
           (m_loadPhaseDefinitions l) (m_currentPhaseIndex l) (m_basicGeometryKinds l).

Definition withFinished (b : bool) (l : PhasedLoader) : PhasedLoader :=
  mkPhased (m_decodedTile l) b (m_geometryKindsLoaded l)
           (m_loadPhaseDefinitions l) (m_currentPhaseIndex l) (m_basicGeometryKinds l).

(** [nextPhase()]: advance the cursor unless it is past the last phase; the
    result is [undefined] once the cursor is past the last phase. *)
Definition nextPhase (l : PhasedLoader) : option nat * PhasedLoader :=
  let l' := if m_currentPhaseIndex l <? numberOfPhases l
            then withPhase (S (m_currentPhaseIndex l)) l else l in
  (if m_currentPhaseIndex l' <? numberOfPhases l'
   then Some (m_currentPhaseIndex l') else None, l').

(** [get basicGeometryLoaded]: every basic kind is in the loaded set. *)
Definition basicGeometryLoaded (l : PhasedLoader) : bool :=
  forallb (fun k => bool_decide (k ∈ m_geometryKindsLoaded l))
          (elements (m_basicGeometryKinds l)).

(** [get allGeometryLoaded] *)
Definition allGeometryLoaded (l : PhasedLoader) : bool :=
  numberOfPhases l <=? currentPhase l.

Definition isFinished (l : PhasedLoader) : bool := m_isFinished l.

(** [setDecodedTile(decodedTile)]: the argument is not used, the loader reads
    the tile's payload; the cursor and the loaded kinds are reset. *)
Definition setDecodedTile (s : Phased) : Phased :=
  let '(t, l) := s in
  (t, withKinds ∅ (withPhase 0 (withDecoded (decodedTile t) l))).

(** [dispose()] *)
Definition dispose (s : Phased) : Phased :=
  let '(t, l) := s in (t, withDecoded None l).

(** [finish()] *)
Definition finish (s : Phased) : Phased :=
  let '(t, l) := s in (removeDecodedTile t, withFinished true (withDecoded None l)).

(** [createKind(kind)] *)
Definition createKind (s : Phased) (kind : TileGeometryKind) : Phased :=
  let '(t, l) := s in
  if bool_decide (kind ∈ m_geometryKindsLoaded l) then s
  else
    let l := withKinds ({[kind]} ∪ m_geometryKindsLoaded l) l in
    match kind with
    | Background => (t, l)
    | _ =>
      match m_decodedTile l with
      | None => (t, l)
      | Some d =>
        let t := if negb (hasGeometry (objects t)) then backend CreateBackground t else t in
        match kind with
        | Areas => (backend (CreateObjects d [IsFillTechnique]) t, l)
        | Lines =>
          (backend (CreateObjects d [IsLineTechnique; IsDashedLineTechnique;
                                     IsSolidLineTechnique; IsSegmentsTechnique;
                                     IsExtrudedLineTechnique]) t, l)
        | Buildings => (backend (CreateObjects d [IsExtrudedPolygonTechnique]) t, l)
        | Labels =>
          (backend (CreateTextElements d [IsPoiTechnique; IsLineMarkerTechnique;
                                          IsTextTechnique]) t, l)
        | Pois => (backend (PreparePois d) t, l)
        | _ => (t, l)
        end
      end
    end.

(** [update()]; the performance statistics are not modelled. *)
Definition update (s : Phased) : bool * Phased :=
  let s :=
    match m_decodedTile (snd s), decodedTile (fst s) with
    | None, Some _ => setDecodedTile s
    | _, _ => s
    end in
  let '(t, l) := s in
  if negb (cacheable t) then (false, (t, withPhase (numberOfPhases l) l))
  else
    match m_decodedTile l with
    | None => (false, s)
    | Some _ =>
      if numberOfPhases l <=? currentPhase l then (false, s)
      else
        (* the index is in range here *)
        let currentPhaseDefinition := default [] (m_loadPhaseDefinitions l !! currentPhase l) in
        let '(t, l) := fold_left createKind currentPhaseDefinition s in
        let '(next, l) := nextPhase l in
        match next with
        | None => (true, finish (t, l))
        | Some _ => (true, (t, l))
        end
    end.

(** [updateToPhase(toPhase)]: the [while] loop, bounded by [fuel] iterations;
    [None] when the bound is hit before the loop exits. *)
Fixpoint updateToPhaseLoop (fuel : nat) (toPhase : nat) (didUpdate : bool) (s : Phased)
    : option (bool * Phased) :=
  if currentPhase (snd s) <? toPhase then
    match fuel with
    | 0 => None
    | S fuel =>
      let '(didUpdate, s) := update s in
      if negb didUpdate then Some (didUpdate, s)
      else updateToPhaseLoop fuel toPhase didUpdate s
    end
  else Some (didUpdate, s).

(** The first iteration may reset the cursor, every later one that reports an
    update moves it forward, and one more reports none: the loop exits within
    [numberOfPhases + 2] iterations ([updateToPhase_total] below). *)
Definition updateToPhaseFuel (s : Phased) : nat := numberOfPhases (snd s) + 2.

Definition updateToPhase (toPhase : nat) (s : Phased) : bool * Phased :=
  match updateToPhaseLoop (updateToPhaseFuel s) toPhase false s with
  | Some r => r
  | None => (false, s)
  end.

End Phased.

End PhasedTileGeometryLoader.

(** ** SimpleTileGeometryLoader *)

Module SimpleTileGeometryLoader.
Import Tiles.

Section Simple.

Context {DecodedTile : Type}.

Record SimpleLoader := mkSimple {
  m_decodedTile : option DecodedTile;
  m_isFinished : bool
}.

(** The loader, its tile and what the loader reaches through the tile:
    the callbacks handed to [setTimeout(..., 0)] that have not run yet (oldest
    first; a callback closes over the [decodedTile] it was created with, and
    over the tile and the loader by reference), the calls of
    [tile.mapView.visibleTileSet.disposeTile(tile)] and of
    [tile.dataSource.requestUpdate()]. *)
Record World := mkWorld {
  tile : @Tile DecodedTile;
  loader : SimpleLoader;
  timers : list DecodedTile;
  disposeTileCalls : nat;
  requestUpdateCalls : nat
}.

Definition withTile (t : Tile) (w : World) : World :=
  mkWorld t (loader w) (timers w) (disposeTileCalls w) (requestUpdateCalls w).

Definition withLoader (l : SimpleLoader) (w : World) : World :=
  mkWorld (tile w) l (timers w) (disposeTileCalls w) (requestUpdateCalls w).

Definition newSimpleTileGeometryLoader : SimpleLoader := mkSimple None false.

Definition basicGeometryLoaded (l : SimpleLoader) : bool := m_isFinished l.
Definition allGeometryLoaded (l : SimpleLoader) : bool := m_isFinished l.
Definition isFinished (l : SimpleLoader) : bool := m_isFinished l.

(** [setDecodedTile(decodedTile)]: the argument is not used. *)
Definition setDecodedTile (w : World) : World :=
  withLoader (mkSimple (decodedTile (tile w)) (m_isFinished (loader w))) w.

(** [dispose()] *)
Definition dispose (w : World) : World :=
  withLoader (mkSimple None (m_isFinished (loader w))) w.

(** [finish()] *)
Definition finish (w : World) : World :=
  withLoader (mkSimple (m_decodedTile (loader w)) true)
             (withTile (removeDecodedTile (tile w)) w).

(** [prepareForRender()], up to the call of [setTimeout]. *)
Definition prepareForRender (w : World) : World :=
  let decoded := m_decodedTile (loader w) in
  let w := withLoader (mkSimple None (m_isFinished (loader w))) w in
  match decoded with
  | None => w
  | Some d =>
    if disposed (tile w) || negb (isVisible (tile w)) then w
    else mkWorld (tile w) (loader w) (timers w ++ [d])
                 (disposeTileCalls w) (requestUpdateCalls w)
  end.

(** The callback [prepareForRender] schedules; [d] is the [decodedTile] of its
    closure. The performance statistics are not modelled. *)
Definition deferredBuild (d : DecodedTile) (w : World) : World :=
  if negb (isVisible (tile w)) then
    mkWorld (tile w) (loader w) (timers w) (S (disposeTileCalls w)) (requestUpdateCalls w)
  else
    let w := withTile (backend (CreateAllGeometries d) (tile w)) w in
    let w := finish w in
    mkWorld (tile w) (loader w) (timers w) (disposeTileCalls w) (S (requestUpdateCalls w)).

(** One turn of the event loop: the oldest pending callback runs. *)
Definition runTimer (w : World) : World :=
  match timers w with
  | [] => w
  | d :: rest =>
    deferredBuild d (mkWorld (tile w) (loader w) rest
                             (disposeTileCalls w) (requestUpdateCalls w))
  end.

(** [update()] *)
Definition update (w : World) : World :=
  match m_decodedTile (loader w), decodedTile (tile w) with
  | None, Some _ => finish (prepareForRender (setDecodedTile w))
  | _, _ => w
  end.

End Simple.

End SimpleTileGeometryLoader.

(** ** PhasedTileGeometryManager *)

Module PhasedTileGeometryManager.
Import Tiles PhasedTileGeometryLoader.

(** [DefaultPhases] and [DefaultBasicGeometryKinds] *)
Definition DefaultPhases : list PhaseList :=
  [ [Background; Ground; Areas]; [Lines; Roads]; [Buildings]; [Labels; Pois]; [Details] ].

Definition DefaultBasicGeometryKinds : gset TileGeometryKind :=
  list_to_set [Background; Ground; Areas; Lines].

Section Manager.

Context {DecodedTile : Type}.
Variable hasGeometry : list (@BackendCall DecodedTile) -> bool.

(** What the manager uses of the map view: [isDynamicFrame], and the calls of
    [update()] that ask for another frame. *)
Record MapView := mkMapView {
  isDynamicFrame : bool;
  updateCalls : nat
}.

Record Manager := mkManager {
  m_maximumUpdatesPerFrame : nat;
  m_loadPhaseDefinitions : list PhaseList;
  m_basicGeometryKinds : gset TileGeometryKind
}.

Definition newPhasedTileGeometryManager : Manager :=
  mkManager 5 DefaultPhases DefaultBasicGeometryKinds.

(** A tile with its [tileGeometryLoader], which may be [undefined]. *)
Definition ManagedTile : Type := @Tile DecodedTile * option (@PhasedLoader DecodedTile).

(** [initTile(tile)] *)
Definition initTile (m : Manager) (t : @Tile DecodedTile) : ManagedTile :=
  (t, Some (newPhasedTileGeometryLoader (m_loadPhaseDefinitions m) (m_basicGeometryKinds m))).

(** [checkTilesFinished(tiles)] *)
Fixpoint checkTilesFinished (tiles : list ManagedTile) : bool :=
  match tiles with
  | [] => true
  | (_, Some l) :: rest => if negb (allGeometryLoaded l) then false else checkTilesFinished rest
  | (_, None) :: rest => checkTilesFinished rest
  end.

(** The loop of [updateAllTiles(tiles)]; [numTilesUpdated] is the counter. *)
Fixpoint updateAllTilesLoop (m : Manager) (mv : MapView) (numTilesUpdated : nat)
    (tiles : list ManagedTile) : list ManagedTile :=
  match tiles with
  | [] => []
  | (t, None) :: rest => (t, None) :: updateAllTilesLoop m mv numTilesUpdated rest
  | (t, Some l) :: rest =>
    let '(didUpdate, (t, l)) := update hasGeometry (t, l) in
    if didUpdate then
      let numTilesUpdated := S numTilesUpdated in
      if (0 <? m_maximumUpdatesPerFrame m)
           && (m_maximumUpdatesPerFrame m <=? numTilesUpdated)
           && isDynamicFrame mv
      then (t, Some l) :: rest
      else (t, Some l) :: updateAllTilesLoop m mv numTilesUpdated rest
    else (t, Some l) :: updateAllTilesLoop m mv numTilesUpdated rest
  end.

Definition updateAllTiles (m : Manager) (mv : MapView) (tiles : list ManagedTile)
    : list ManagedTile :=
  updateAllTilesLoop m mv 0 tiles.

(** The loop of [updateTilesIfNeeded(tiles, toPhase)]. *)
Fixpoint updateTilesIfNeededLoop (m : Manager) (mv : MapView) (toPhase : nat)
    (numTilesUpdated : nat) (tiles : list ManagedTile) : list ManagedTile :=
  match tiles with
  | [] => []
  | (t, None) :: rest => (t, None) :: updateTilesIfNeededLoop m mv toPhase numTilesUpdated rest
  | (t, Some l) :: rest =>
    let '(didUpdate, (t, l)) := updateToPhase hasGeometry toPhase (t, l) in
    if didUpdate then
      let numTilesUpdated := S numTilesUpdated in
      if isDynamicFrame mv
           && (0 <? m_maximumUpdatesPerFrame m)
           && (m_maximumUpdatesPerFrame m <=? numTilesUpdated)
      then (t, Some l) :: rest
      else (t, Some l) :: updateTilesIfNeededLoop m mv toPhase numTilesUpdated rest
    else (t, Some l) :: updateTilesIfNeededLoop m mv toPhase numTilesUpdated rest
  end.

Definition updateTilesIfNeeded (m : Manager) (mv : MapView) (tiles : list ManagedTile)
    (toPhase : nat) : list ManagedTile :=
  updateTilesIfNeededLoop m mv toPhase 0 tiles.

(** The first loop of [updateTilesTogether]: the lowest [currentPhase] of the
    tiles that have a loader, [undefined] when there is none. *)
Fixpoint lowestPhaseLoop (lowestPhase : option nat) (tiles : list ManagedTile) : option nat :=
  match tiles with
  | [] => lowestPhase
  | (_, None) :: rest => lowestPhaseLoop lowestPhase rest
  | (_, Some l) :: rest =>
    match lowestPhase with
    | None => lowestPhaseLoop (Some (currentPhase l)) rest
    | Some low =>
      if currentPhase l <? low then lowestPhaseLoop (Some (currentPhase l)) rest
      else lowestPhaseLoop lowestPhase rest
    end
  end.

(** [updateTilesTogether(tiles)] *)
Definition updateTilesTogether (m : Manager) (mv : MapView) (tiles : list ManagedTile)
    : list ManagedTile :=
  match lowestPhaseLoop None tiles with
  | Some lowestPhase =>
    if lowestPhase <? length (m_loadPhaseDefinitions m)
    then updateTilesIfNeeded m mv tiles (S lowestPhase)
    else tiles
  | None => tiles
  end.

(** [updateTiles(tiles)]: the tiles of the frame are the visible ones; the
    map view and the tiles it hands over are one object ([tile.mapView] is
    [m_mapView]). *)
Definition updateTiles (m : Manager) (mv : MapView) (tiles : list ManagedTile)
    : list ManagedTile * MapView :=
  let tiles := if isDynamicFrame mv then updateAllTiles m mv tiles
               else updateTilesTogether m mv tiles in
  if negb (checkTilesFinished tiles)
  then (tiles, mkMapView (isDynamicFrame mv) (S (updateCalls mv)))
  else (tiles, mv).

End Manager.

End PhasedTileGeometryManager.

(** ** Interpolated properties (InternalTechnique.ts) *)

Module InterpolatedProperties.

(** [enum InterpolationMode] *)
Inductive InterpolationMode := Discrete | Linear | Cubic.

(** The values of an [InterpolatedPropertyDefinition<T>]: an array of numbers,
    of booleans or of strings. Numbers are the integers among the doubles. *)
Inductive PropertyValues :=
| NumberValues (l : list Z)
| BooleanValues (l : list bool)
| StringValues (l : list string).

(** [InterpolatedPropertyDefinition<T>]; [interpolation] names a member of
    [InterpolationMode], and the zoom levels are integers. *)
Record InterpolatedPropertyDefinition := mkDefinition {
  interpolation : option InterpolationMode;
  zoomLevels : list Z;
  values : PropertyValues
}.

(** An element of a [Float32Array]; the rounding to single precision is not
    modelled. *)
Inductive Float32 :=
| F32 (q : Q)
| F32NaN.

(** [InterpolatedProperty<T>], the sampled structure. *)
Record InterpolatedProperty := mkInterpolated {
  interpolationMode : InterpolationMode;
  zoomLevelKeys : list Z;        (* zoomLevels: Float32Array *)
  sampledValues : list Float32   (* values: Float32Array *)
}.

Definition valuesLength (v : PropertyValues) : nat :=
  match v with
  | NumberValues l => length l
  | BooleanValues l => length l
  | StringValues l => length l
  end.

(** [array.splice(start, 1)]: a negative [start] counts from the end, and
    nothing is removed at or past the end. *)
Definition spliceOne {A : Type} (start : Z) (l : list A) : list A :=
  let len := Z.of_nat (length l) in
  let actualStart := if (start <? 0)%Z then Z.max (len + start) 0 else Z.min start len in
  take (Z.to_nat actualStart) l ++ drop (S (Z.to_nat actualStart)) l.

Definition valuesSpliceOne (start : Z) (v : PropertyValues) : PropertyValues :=
  match v with
  | NumberValues l => NumberValues (spliceOne start l)
  | BooleanValues l => BooleanValues (spliceOne start l)
  | StringValues l => StringValues (spliceOne start l)
  end.

(** [array[i]], [undefined] out of range. *)
Definition at_ {A : Type} (l : list A) (i : Z) : option A :=
  if (i <? 0)%Z then None else l !! Z.to_nat i.

(** [array.findIndex(a => a === x)] for a list of numbers, from position
    [from] on; [-1] when there is none, also when [x] is [undefined]. *)
Fixpoint findIndexFrom (from : Z) (x : option Z) (l : list Z) : Z :=
  match l with
  | [] => (-1)%Z
  | a :: rest =>
    match x with
    | Some v => if (a =? v)%Z then from else findIndexFrom (from + 1)%Z x rest
    | None => findIndexFrom (from + 1)%Z x rest
    end
  end.

Definition findIndex (x : option Z) (l : list Z) : Z := findIndexFrom 0%Z x l.

(** The [for] loop of [removeDuplicatePropertyValues], at most [fuel]
    iterations; [None] when the bound is hit. *)
Fixpoint removeDuplicatesLoop (fuel : nat) (i : Z) (p : InterpolatedPropertyDefinition)
    : option InterpolatedPropertyDefinition :=
  if (i <? Z.of_nat (valuesLength (values p)))%Z then
    match fuel with
    | 0 => None
    | S fuel =>
      let firstIdx := findIndex (at_ (zoomLevels p) i) (zoomLevels p) in
      if (firstIdx =? i)%Z then removeDuplicatesLoop fuel (i + 1)%Z p
      else
        (* p.zoomLevels.splice(--i, 1); p.values.splice(--i, 1); *)
        let i := (i - 1)%Z in
        let p := mkDefinition (interpolation p) (spliceOne i (zoomLevels p)) (values p) in
        let i := (i - 1)%Z in
        let p := mkDefinition (interpolation p) (zoomLevels p) (valuesSpliceOne i (values p)) in
        removeDuplicatesLoop fuel (i + 1)%Z p
    end
  else Some p.

(** Every iteration either moves [i] forward or removes a value and moves [i]
    back by one: [2 * values.length + 2] iterations are never exceeded
    ([removeDuplicates_total] below). *)
Definition removeDuplicatesFuel (p : InterpolatedPropertyDefinition) : nat :=
  2 * valuesLength (values p) + 2.

(** [removeDuplicatePropertyValues(p)]; the result is [p] after the call. *)
Definition removeDuplicatePropertyValues (p : InterpolatedPropertyDefinition)
    : InterpolatedPropertyDefinition :=
  match removeDuplicatesLoop (removeDuplicatesFuel p) 0%Z p with
  | Some p' => p'
  | None => p
  end.

(** [s.replace("#", "0x")]: the first ["#"] is replaced. *)
Fixpoint replaceHash (s : string) : string :=
  match s with
  | EmptyString => EmptyString
  | String c rest =>
    if Ascii.eqb c "#"%char then String "0"%char (String "x"%char rest)
    else String c (replaceHash rest)
  end.

Section Conversion.

(** The 32-bit integer the bit operators see of [+s], the ECMAScript Number
    value of the string [s] ([ToInt32] of [ToNumber]); a hexadecimal literal
    reads as its value. *)
Variable numberInt32 : string -> Z.

(** The three channels of a color string. *)
Definition channels (color : string) : list Float32 :=
  let value := numberInt32 (replaceHash color) in
  [ F32 (Qmake (Z.land (Z.shiftr value 16) 255) 255);
    F32 (Qmake (Z.land (Z.shiftr value 8) 255) 255);
    F32 (Qmake (Z.land (Z.shiftr value 0) 255) 255) ].

(** [channels[j]] stored into a [Float32Array]: [undefined] is stored as NaN. *)
Definition channelAt (cs : list Float32) (j : nat) : Float32 :=
  match cs !! j with Some c => c | None => F32NaN end.

(** The inner loop [for (let j = 0; j < prop.values.length * 3; ++j)]; a
    write past the end of a typed array is ignored. *)
Definition writeChannels (n i : nat) (cs : list Float32) (propValues : list Float32)
    : list Float32 :=
  fold_left (fun pv j => <[i * 3 + j := channelAt cs j]> pv) (seq 0 (n * 3)) propValues.

(** The outer loop over the colors, from position [i]. *)
Fixpoint writeColors (n i : nat) (colors : list string) (propValues : list Float32)
    : list Float32 :=
  match colors with
  | [] => propValues
  | color :: rest => writeColors n (S i) rest (writeChannels n i (channels color) propValues)
  end.

Definition modeOf (p : InterpolatedPropertyDefinition) : InterpolationMode :=
  match interpolation p with
  | Some mode => mode
  | None => Discrete
  end.

(** [createInterpolatedProperty(prop)]: the sampled structure, and [prop]
    after the call (its duplicates removed in place). The [switch] is on
    [typeof prop.values[0]], which is ["undefined"] for an empty array. *)
Definition createInterpolatedProperty (prop : InterpolatedPropertyDefinition)
    : InterpolatedProperty * InterpolatedPropertyDefinition :=
  let prop := removeDuplicatePropertyValues prop in
  let propKeys := zoomLevels prop in
  let numbers (l : list Z) :=
    mkInterpolated (modeOf prop) propKeys (map (fun n => F32 (inject_Z n)) l) in
  (match values prop with
   | NumberValues l => numbers l
   | BooleanValues [] => numbers []
   | StringValues [] => numbers []
   | BooleanValues l =>
     mkInterpolated Discrete propKeys
       (map (fun b : bool => if b then F32 (inject_Z 1) else F32 (inject_Z 0)) l)
   | StringValues l =>
     mkInterpolated (modeOf prop) propKeys
       (writeColors (length l) 0 l (repeat (F32 (inject_Z 0)) (length l * 3)))
   end, prop).

End Conversion.

End InterpolatedProperties.

(** ** StyleSetEvaluator (InternalTechnique.ts) *)

Module StyleSetEvaluator.
Import InterpolatedProperties.

(** Plain attribute values of a theme: numbers (the integers among them),
    strings, booleans and arrays of numbers. *)
Inductive JsValue :=
| JsNumber (n : Z)
| JsString (s : string)
| JsBoolean (b : bool)
| JsNumbers (l : list Z).

(** A value of [style.attr]: [isInterpolatedPropertyDefinition] tells the two
    apart. *)
Inductive AttrValue :=
| Plain (v : JsValue)
| Interpolated (def : InterpolatedPropertyDefinition).

(** A property of an assembled [Technique]. *)
Inductive TechniqueValue :=
| Value (v : JsValue)
| Sampled (p : InterpolatedProperty).

(** A [Technique] is an object assembled property by property. *)
Abbreviation Technique := (gmap string TechniqueValue).

(** Techniques are objects: they live in a heap and are shared by reference. *)
Abbreviation TechniqueRef := nat.

Section Evaluator.

(** Expressions and environments come from [Expr.ts]: [Expr.parse], taken to
    succeed, and [expr.evaluate(env)], of which the truth value is used. *)
Context {Expr MapEnv : Type}.
Variable parse : string -> Expr.
Variable evaluate : Expr -> MapEnv -> bool.
Variable numberInt32 : string -> Z.

(** The fields of a [Style & Partial<StylePrivate>] other than [styles]. *)
Record StyleData := mkStyleData {
  when : option string;
  _whenExpr : option Expr;
  technique : option string;
  attr : option (gmap string AttrValue);
  renderOrder : option Z;
  renderOrderBiasProperty : option string;
  renderOrderBiasRange : option (Z * Z);
  renderOrderBiasGroup : option string;
  labelProperty : option string;
  transient : option bool;
  final : option bool;
  debug : option bool;
  _index : option nat
}.

(** A style with its child styles ([styles], which may be [undefined]). *)
Inductive Style :=
| mkStyle (data : StyleData) (styles : option (list Style)).

Definition dataOf (s : Style) : StyleData := let '(mkStyle data _) := s in data.
Definition stylesOf (s : Style) : option (list Style) := let '(mkStyle _ styles) := s in styles.

Definition withWhenExpr (e : Expr) (d : StyleData) : StyleData :=
  mkStyleData (when d) (Some e) (technique d) (attr d) (renderOrder d)
    (renderOrderBiasProperty d) (renderOrderBiasRange d) (renderOrderBiasGroup d)
    (labelProperty d) (transient d) (final d) (debug d) (_index d).

Definition withAttr (a : option (gmap string AttrValue)) (d : StyleData) : StyleData :=
  mkStyleData (when d) (_whenExpr d) (technique d) a (renderOrder d)
    (renderOrderBiasProperty d) (renderOrderBiasRange d) (renderOrderBiasGroup d)
    (labelProperty d) (transient d) (final d) (debug d) (_index d).

Definition withRenderOrder (r : Z) (d : StyleData) : StyleData :=
  mkStyleData (when d) (_whenExpr d) (technique d) (attr d) (Some r)
    (renderOrderBiasProperty d) (renderOrderBiasRange d) (renderOrderBiasGroup d)
    (labelProperty d) (transient d) (final d) (debug d) (_index d).

Definition withIndex (i : nat) (d : StyleData) : StyleData :=
  mkStyleData (when d) (_whenExpr d) (technique d) (attr d) (renderOrder d)
    (renderOrderBiasProperty d) (renderOrderBiasRange d) (renderOrderBiasGroup d)
    (labelProperty d) (transient d) (final d) (debug d) (Some i).

(** *** The constructor *)

(** What [computeDefaultRenderOrder] threads through the tree:
    [techniqueRenderOrder] and [m_renderOrderBiasGroups]. *)
Record RenderOrderState := mkRenderOrderState {
  techniqueRenderOrder : Z;
  renderOrderBiasGroups : gmap string Z
}.

(** The first part of [computeDefaultRenderOrder]: the render order of a
    style that names a [renderOrderBiasGroup]. A non-empty string and a
    non-zero number are the truthy ones. The warnings are not modelled. *)
Definition biasGroupRenderOrder (d : StyleData) (st : RenderOrderState)
    : StyleData * RenderOrderState :=
  match renderOrderBiasGroup d with
  | None => (d, st)
  | Some group =>
    let renderOrderBiasGroupOrder :=
      if bool_decide (group = ""%string) then None
      else renderOrderBiasGroups st !! group in
    match renderOrderBiasRange d, renderOrderBiasGroupOrder with
    | Some (minRange, maxRange), None =>
      let order := if (minRange <? 0)%Z
                   then (techniqueRenderOrder st + Z.abs minRange)%Z
                   else techniqueRenderOrder st in
      let tro := (techniqueRenderOrder st + (Z.abs minRange + maxRange))%Z in
      let groups := if bool_decide (group = ""%string) then renderOrderBiasGroups st
                    else <[group := order]> (renderOrderBiasGroups st) in
      (withRenderOrder order d, mkRenderOrderState (tro + 1)%Z groups)
    | _, Some order =>
      if (order =? 0)%Z then (d, st) else (withRenderOrder order d, st)
    | None, None => (d, st)
    end
  end.

(** The last part of [computeDefaultRenderOrder], for a style without child
    styles: the automatic render order of a technique. *)
Definition autoRenderOrder (d : StyleData) (st : RenderOrderState)
    : StyleData * RenderOrderState :=
  match technique d, attr d with
  | Some _, Some a =>
    match a !! "renderOrder"%string with
    | None =>
      (withAttr (Some (<["_renderOrderAuto"%string :=
                          Plain (JsNumber (techniqueRenderOrder st))]> a)) d,
       mkRenderOrderState (techniqueRenderOrder st + 1)%Z (renderOrderBiasGroups st))
    | Some _ => (d, st)
    end
  | _, _ => (d, st)
  end.

(** [computeDefaultRenderOrder(style)]; [style.styles] is an array or
    [undefined], so that the [Array.isArray] validation never fires. *)
Fixpoint computeDefaultRenderOrder (style : Style) (st : RenderOrderState)
    : Style * RenderOrderState :=
  let '(mkStyle d styles) := style in
  let '(d, st) := biasGroupRenderOrder d st in
  match styles with
  | Some children =>
    let fix eachStyle (children : list Style) (st : RenderOrderState)
        : list Style * RenderOrderState :=
      match children with
      | [] => ([], st)
      | currStyle :: rest =>
        let '(currStyle, st) := computeDefaultRenderOrder currStyle st in
        let '(rest, st) := eachStyle rest st in
        (currStyle :: rest, st)
      end in
    let '(children, st) := eachStyle children st in
    (mkStyle d (Some children), st)
  | None =>
    let '(d, st) := autoRenderOrder d st in
    (mkStyle d None, st)
  end.

(** The loop [for (const style of styleSet)] of the constructor. *)
Fixpoint computeDefaultRenderOrders (styleSet : list Style) (st : RenderOrderState)
    : list Style * RenderOrderState :=
  match styleSet with
  | [] => ([], st)
  | style :: rest =>
    let '(style, st) := computeDefaultRenderOrder style st in
    let '(rest, st) := computeDefaultRenderOrders rest st in
    (style :: rest, st)
  end.

(** A [StyleSetEvaluator]: its style set (the evaluator writes into the
    styles it was given), [validate], [m_renderOrderBiasGroups],
    [m_techniques], and the heap of the technique objects it has assembled. *)
Record Evaluator := mkEvaluator {
  styleSet : list Style;
  validate : bool;
  m_renderOrderBiasGroups : gmap string Z;
  m_techniques : list TechniqueRef;
  heap : list Technique
}.

(** [new StyleSetEvaluator(styleSet, validate)] *)
Definition newStyleSetEvaluator (styleSet : list Style) (validate : bool) : Evaluator :=
  let '(styleSet, st) :=
    computeDefaultRenderOrders styleSet (mkRenderOrderState 0%Z ∅) in
  mkEvaluator styleSet validate (renderOrderBiasGroups st) [] [].

(** *** Matching *)

(** The evaluation of [style.when], with the expression parsed on first use. *)
Definition evaluateWhen (env : MapEnv) (d : StyleData) : bool * StyleData :=
  match when d with
  | None => (true, d)
  | Some source =>
    let e := match _whenExpr d with Some e => e | None => parse source end in
    (evaluate e env, withWhenExpr e d)
  end.

Definition setIf {A : Type} (key : string) (f : A -> JsValue) (field : option A)
    (t : Technique) : Technique :=
  match field with
  | Some x => <[key := Value (f x)]> t
  | None => t
  end.

Definition convertAttr (v : AttrValue) : TechniqueValue :=
  match v with
  | Plain p => Value p
  | Interpolated def => Sampled (fst (createInterpolatedProperty numberInt32 def))
  end.

Definition afterConversion (v : AttrValue) : AttrValue :=
  match v with
  | Plain p => Plain p
  | Interpolated def => Interpolated (snd (createInterpolatedProperty numberInt32 def))
  end.

(** [addAttributes(currStyle)]: the technique with the attributes of
    [currStyle] added, and [currStyle] after the call. Every own property of
    [currStyle.attr] is written to the technique under its name, converted
    when it is an interpolated definition (which the conversion rewrites in
    place). The validation warnings are not modelled. *)
Definition addAttributes (currStyle : StyleData) (t : Technique) : Technique * StyleData :=
  let t := setIf "renderOrder" JsNumber (renderOrder currStyle) t in
  let t := setIf "transient" JsBoolean (transient currStyle) t in
  let t := setIf "renderOrderBiasProperty" JsString (renderOrderBiasProperty currStyle) t in
  let t := setIf "label" JsString (labelProperty currStyle) t in
  let t := setIf "renderOrderBiasRange" (fun r : Z * Z => JsNumbers [fst r; snd r])
                 (renderOrderBiasRange currStyle) t in
  let t := setIf "renderOrderBiasGroup" JsString (renderOrderBiasGroup currStyle) t in
  match attr currStyle with
  | Some a => ((convertAttr <$> a) ∪ t, withAttr (Some (afterConversion <$> a)) currStyle)
  | None => (t, currStyle)
  end.

(** [for (const currStyle of styleStack) addAttributes(currStyle)], from the
    bottom of the stack. *)
Fixpoint addStackAttributes (styleStack : list StyleData) (t : Technique)
    : Technique * list StyleData :=
  match styleStack with
  | [] => (t, [])
  | currStyle :: rest =>
    let '(t, currStyle) := addAttributes currStyle t in
    let '(t, rest) := addStackAttributes rest t in
    (t, currStyle :: rest)
  end.

(** What [processStyle] reads and writes besides the style itself: the
    stack of the enclosing styles (its top is the last element),
    [m_techniques] with the heap, and the result array, whose elements are
    technique references or [undefined]. *)
Record Walk := mkWalk {
  styleStack : list StyleData;
  techniques : list TechniqueRef;
  objects : list Technique;
  result : list (option TechniqueRef)
}.

(** The branch of [processStyle] for a style with a technique and no child
    styles. The technique object is created, filled, registered by
    [checkAddTechnique] (which also sets its [_index]) and pushed; here it is
    built first and allocated once. *)
Definition processTechnique (name : string) (d : StyleData) (w : Walk)
    : bool * (StyleData * Walk) :=
  match _index d with
  | None =>
    let t : Technique := {[ "name"%string := Value (JsString name) ]} in
    let '(t, stack) := addStackAttributes (styleStack w) t in
    let '(t, d) := addAttributes d t in
    (* checkAddTechnique(style, technique) *)
    let index := length (techniques w) in
    let t := <["_index"%string := Value (JsNumber (Z.of_nat index))]> t in
    let ref := length (objects w) in
    let d := withIndex index d in
    (bool_decide (final d = Some true),
     (d, mkWalk stack (techniques w ++ [ref]) (objects w ++ [t]) (result w ++ [Some ref])))
  | Some index =>
    (bool_decide (final d = Some true),
     (d, mkWalk (styleStack w) (techniques w) (objects w)
                (result w ++ [techniques w !! index])))
  end.

(** [processStyle(env, styleStack, style, result)]; the debug log is not
    modelled, and [style.styles] is an array or [undefined]. *)
Fixpoint processStyle (env : MapEnv) (style : Style) (w : Walk) : bool * (Style * Walk) :=
  let '(mkStyle d styles) := style in
  let '(pass, d) := evaluateWhen env d in
  if negb pass then (false, (mkStyle d styles, w))
  else
    match styles with
    | Some children =>
      (* styleStack.push(style) *)
      let w := mkWalk (styleStack w ++ [d]) (techniques w) (objects w) (result w) in
      let fix eachStyle (children : list Style) (w : Walk) : bool * (list Style * Walk) :=
        match children with
        | [] => (false, ([], w))
        | currStyle :: rest =>
          let '(found, (currStyle, w)) := processStyle env currStyle w in
          if found then (true, (currStyle :: rest, w))
          else
            let '(found, (rest, w)) := eachStyle rest w in
            (found, (currStyle :: rest, w))
        end in
      let '(found, (children, w)) := eachStyle children w in
      (* styleStack.pop(); the style is the object that was on top *)
      let d := List.last (styleStack w) d in
      (found, (mkStyle d (Some children),
               mkWalk (List.removelast (styleStack w)) (techniques w) (objects w) (result w)))
    | None =>
      match technique d with
      | Some name =>
        let '(found, (d, w)) := processTechnique name d w in
        (found, (mkStyle d None, w))
      | None => (false, (mkStyle d None, w))
      end
    end.

(** The loop of [getMatchingTechniques]; [None] is the internal error thrown
    under [validate] when the style stack is not empty. *)
Fixpoint matchStyles (env : MapEnv) (validate : bool) (styles : list Style) (w : Walk)
    : option (list Style * Walk) :=
  match styles with
  | [] => Some ([], w)
  | currStyle :: rest =>
    if validate && negb (bool_decide (styleStack w = [])) then None
    else
      let '(found, (currStyle, w)) := processStyle env currStyle w in
      if found then Some (currStyle :: rest, w)
      else
        match matchStyles env validate rest w with
        | Some (rest, w) => Some (currStyle :: rest, w)
        | None => None
        end
  end.

(** [getMatchingTechniques(env)]: the result array and the evaluator after
    the call; [None] when the call throws. *)
Definition getMatchingTechniques (ev : Evaluator) (env : MapEnv)
    : option (list (option TechniqueRef) * Evaluator) :=
  match matchStyles env (validate ev) (styleSet ev)
          (mkWalk [] (m_techniques ev) (heap ev) []) with
  | Some (styles, w) =>
    Some (result w,
          mkEvaluator styles (validate ev) (m_renderOrderBiasGroups ev)
                      (techniques w) (objects w))
  | None => None
  end.

End Evaluator.

End StyleSetEvaluator.

(** ** PhasedTileGeometryLoader.getTextElementPriorities *)

Module TextElementPriorities.
Import Tiles PhasedTileGeometryLoader.

(** What the method reads of a technique. Priorities are taken to be
    integers. *)
Record TechniqueEntry := mkTechniqueEntry {
  name : string;
  priority : option Z
}.

(** [Set.prototype.add]: a [Set] keeps its elements in insertion order. *)
Definition setAdd (s : list Z) (x : Z) : list Z :=
  if bool_decide (x ∈ s) then s else s ++ [x].

(** The order [sort((a, b) => b - a)] sorts by. *)
Definition descending (a b : Z) : Prop := (b <= a)%Z.

#[global] Instance descending_dec : RelDecision descending.
Proof. intros a b. unfold descending. apply _. Defined.

Section TextElementPriorities.

Context {DecodedTile : Type}.

(** [decodedTile.techniques] *)
Variable techniques : DecodedTile -> list TechniqueEntry.

(** [getTextElementPriorities()] *)
Definition getTextElementPriorities (l : @PhasedLoader DecodedTile) : option (list Z) :=
  match m_decodedTile l with
  | None => None
  | Some d =>
    let priorities :=
      fold_left (fun priorities technique =>
                   if bool_decide (name technique <> "text"%string) then priorities
                   else setAdd priorities (default 0%Z (priority technique)))
                (techniques d) [] in
    Some (merge_sort descending priorities)
  end.

End TextElementPriorities.

End TextElementPriorities.

(** ** TileGeometryCreator.initDecodedTile *)

Module TileGeometryCreator.

(** The values [technique.kind] is tested for. *)
Inductive TechniqueKind :=
| KindString (kind : string)           (* typeof kind === "string" *)
| KindArray (kinds : list string)      (* Array.isArray(kind) *)
| KindSet (kinds : gset string)        (* a GeometryKindSet *)
| KindOther.                           (* any other value *)

(** The part of a technique, of a group and of a decoded tile that
    [initDecodedTile] reads and writes. *)
Record Technique := mkTechnique {
  kind : option TechniqueKind;
  enabled : option bool
}.

Record Group := mkGroup {
  createdOffsets : option (list nat)
}.

Record Geometry := mkGeometry {
  groups : list Group
}.

Record DecodedTile := mkDecodedTile {
  techniques : list Technique;
  geometries : list Geometry
}.

Section Creator.

(** [GeometryKindSet.hasOrIntersects], which is not part of the sources at
    hand. *)
Variable hasOrIntersects : gset string -> TechniqueKind -> bool.

(** The body of the loop over the techniques. *)
Definition initTechnique (enabledKinds disabledKinds : option (gset string))
    (technique : Technique) : Technique :=
  match enabled technique with
  | Some _ => technique
  | None =>
    let kind :=
      match kind technique with
      | Some (KindArray kinds) => Some (KindSet (list_to_set kinds))
      | Some (KindString k) => Some (KindString k)
      | Some _ => None
      | None => None
      end in
    match kind with
    | None => mkTechnique kind (Some true)
    | Some k =>
      if match k with KindSet kinds => bool_decide (size kinds = 0) | _ => false end
      then mkTechnique kind (Some true)
      else
        mkTechnique kind
          (Some (negb (match disabledKinds with
                       | Some ks => hasOrIntersects ks k
                       | None => false
                       end)
                 || match enabledKinds with
                    | Some ks => hasOrIntersects ks k
                    | None => false
                    end))
    end
  end.

(** [initDecodedTile(decodedTile, enabledKinds, disabledKinds)] *)
Definition initDecodedTile (decodedTile : DecodedTile)
    (enabledKinds disabledKinds : option (gset string)) : DecodedTile :=
  mkDecodedTile
    (map (initTechnique enabledKinds disabledKinds) (techniques decodedTile))
    (map (fun srcGeometry => mkGeometry (map (fun _ => mkGroup (Some [])) (groups srcGeometry)))
         (geometries decodedTile)).

(** The [filter] of [createAllGeometries]. *)
Definition filter (technique : Technique) : bool :=
  negb (bool_decide (enabled technique = Some false)).

End Creator.

End TileGeometryCreator.

(** ** Vocabulary for the statements about loaders and manager *)

Module PhasedSpec.
Import Tiles PhasedTileGeometryLoader.

Section PhasedSpec.

Context {DecodedTile : Type}.
Variable hasGeometry : list (@BackendCall DecodedTile) -> bool.

Local Abbreviation Phased := (@Phased DecodedTile).

(** What a geometry build leaves alone: everything but the tile's objects and
    the set of loaded kinds. *)
Definition builds_only (s s' : Phased) : Prop :=
  decodedTile (fst s') = decodedTile (fst s) /\
  disposed (fst s') = disposed (fst s) /\
  isVisible (fst s') = isVisible (fst s) /\
  cacheable (fst s') = cacheable (fst s) /\
  m_decodedTile (snd s') = m_decodedTile (snd s) /\
  m_isFinished (snd s') = m_isFinished (snd s) /\
  m_loadPhaseDefinitions (snd s') = m_loadPhaseDefinitions (snd s) /\
  m_currentPhaseIndex (snd s') = m_currentPhaseIndex (snd s) /\
  m_basicGeometryKinds (snd s') = m_basicGeometryKinds (snd s).

(** The state after [n] calls of [update()]. *)
Definition updates (n : nat) (s : Phased) : Phased :=
  Nat.iter n (fun s => snd (update hasGeometry s)) s.

(** A call did no work: nothing was built, no kind recorded, the cursor and
    the finished flag are where they were. *)
Definition no_work (s s' : Phased) : Prop :=
  objects (fst s') = objects (fst s) /\
  loadedKinds (snd s') = loadedKinds (snd s) /\
  currentPhase (snd s') = currentPhase (snd s) /\
  isFinished (snd s') = isFinished (snd s).

(** Where a loader over [N] phases stands after [k] updates, when it was
    created for a cacheable tile that holds a payload. *)
Definition afterUpdates (N k : nat) (s : Phased) : Prop :=
  cacheable (fst s) = true /\
  numberOfPhases (snd s) = N /\
  currentPhase (snd s) = Nat.min k N /\
  ((k = 0 /\ m_decodedTile (snd s) = None /\ decodedTile (fst s) <> None /\
    m_geometryKindsLoaded (snd s) = ∅) \/
   (m_decodedTile (snd s) <> None /\ (k < N \/ N = 0)) \/
   (m_decodedTile (snd s) = None /\ decodedTile (fst s) = None /\ N <= k /\ 1 <= N)).

(** The operations on a loader, and the arrival of a payload at its tile. *)
Inductive LoaderOp :=
| OpSetDecodedTile
| OpUpdate
| OpUpdateToPhase (toPhase : nat)
| OpDispose
| TileReceives (d : DecodedTile).

Definition runOp (s : Phased) (op : LoaderOp) : Phased :=
  match op with
  | OpSetDecodedTile => setDecodedTile s
  | OpUpdate => snd (update hasGeometry s)
  | OpUpdateToPhase toPhase => snd (updateToPhase hasGeometry toPhase s)
  | OpDispose => dispose s
  | TileReceives d => (setTileDecodedTile (Some d) (fst s), snd s)
  end.

Definition runOps (ops : list LoaderOp) (s : Phased) : Phased := fold_left runOp ops s.

(** Every basic kind is built by some phase of the plan. *)
Definition phasesCoverBasicKinds (phases : list PhaseList) (basic : gset TileGeometryKind)
    : bool :=
  forallb (fun k => existsb (fun phase => bool_decide (k ∈ phase)) phases) (elements basic).

(** The kinds of the phases before the cursor have all been recorded. *)
Definition passedPhasesLoaded (l : @PhasedLoader DecodedTile) : Prop :=
  forall i phase k, i < currentPhase l -> m_loadPhaseDefinitions l !! i = Some phase ->
    k ∈ phase -> k ∈ m_geometryKindsLoaded l.

(** The loader [update] starts from once a waiting payload is captured. *)
Definition effective (s : Phased) : Phased :=
  match m_decodedTile (snd s), decodedTile (fst s) with
  | None, Some _ => setDecodedTile s
  | _, _ => s
  end.

(** Cacheable tiles: the kinds of the phases the cursor has passed are
    recorded, whatever is done to the loader. *)
Definition phasesRecorded (phases : list PhaseList) (basic : gset TileGeometryKind)
    (s : Phased) : Prop :=
  cacheable (fst s) = true /\
  m_loadPhaseDefinitions (snd s) = phases /\
  m_basicGeometryKinds (snd s) = basic /\
  passedPhasesLoaded (snd s).

(** Non-cacheable tiles: nothing is ever built or recorded. *)
Definition nothingBuilt (t0 : @Tile DecodedTile) (s : Phased) : Prop :=
  cacheable (fst s) = false /\
  m_geometryKindsLoaded (snd s) = ∅ /\
  objects (fst s) = objects t0.

End PhasedSpec.

End PhasedSpec.

Module ManagerSpec.
Import Tiles PhasedTileGeometryLoader PhasedTileGeometryManager.

Section ManagerSpec.

Context {DecodedTile : Type}.
Variable hasGeometry : list (@BackendCall DecodedTile) -> bool.

Local Abbreviation ManagedTile := (@ManagedTile DecodedTile).

(** The phase cursors of the tiles that have a loader are within one of each
    other: the highest minus the lowest is at most 1. *)
Definition phasesWithinOne (tiles : list ManagedTile) : Prop :=
  forall t1 l1 t2 l2,
    (t1, Some l1) ∈ tiles -> (t2, Some l2) ∈ tiles ->
    currentPhase l1 <= currentPhase l2 + 1.

(** A tile of a cacheable data source whose loader, if it has one, works on
    the manager's phases (as the loaders of [initTile] do). *)
Definition managedBy (m : Manager) (mt : ManagedTile) : Prop :=
  cacheable (fst mt) = true /\
  forall l, snd mt = Some l ->
    PhasedTileGeometryLoader.m_loadPhaseDefinitions l = m_loadPhaseDefinitions m.

(** What may happen to a tile between two frames: anything that leaves the
    data source cacheable and the loader's plan and cursor alone (a payload
    arrives, the tile is drawn or hidden, the loader is disposed of). *)
Definition betweenFrames (mt mt' : ManagedTile) : Prop :=
  cacheable (fst mt') = cacheable (fst mt) /\
  match snd mt, snd mt' with
  | Some l, Some l' =>
    PhasedTileGeometryLoader.m_loadPhaseDefinitions l'
      = PhasedTileGeometryLoader.m_loadPhaseDefinitions l /\
    currentPhase l' = currentPhase l
  | None, None => True
  | _, _ => False
  end.

(** The visible tiles after any number of frames in static mode. *)
Inductive staticFrames (m : Manager) (tiles : list ManagedTile) : list ManagedTile -> Prop :=
| staticFrames_start : staticFrames m tiles tiles
| staticFrames_frame tiles' mv :
    staticFrames m tiles tiles' -> isDynamicFrame mv = false ->
    staticFrames m tiles (fst (updateTiles hasGeometry m mv tiles'))
| staticFrames_between tiles' tiles'' :
    staticFrames m tiles tiles' -> Forall2 betweenFrames tiles' tiles'' ->
    staticFrames m tiles tiles''.

(** What one static frame with lowest phase [low] does to a tile. *)
Definition advanced (low : nat) (mt mt' : ManagedTile) : Prop :=
  cacheable (fst mt') = true /\
  match snd mt, snd mt' with
  | Some l, Some l' =>
    PhasedTileGeometryLoader.m_loadPhaseDefinitions l'
      = PhasedTileGeometryLoader.m_loadPhaseDefinitions l /\
    (currentPhase l' = currentPhase l \/
     (currentPhase l < S low /\ currentPhase l' = S low))
  | None, None => True
  | _, _ => False
  end.

End ManagerSpec.

End ManagerSpec.

(** ** Vocabulary for the statements about the style set evaluator *)

Module InterpolatedSpec.
Import InterpolatedProperties.

(** A channel of a sampled color: a number between 0 and 1. *)
Definition unitInterval (x : Float32) : Prop :=
  match x with
  | F32 q => (0 <= q)%Q /\ (q <= 1)%Q
  | F32NaN => False
  end.

(** The channel of a boolean. *)
Definition booleanChannel (b : bool) : Float32 :=
  if b then F32 (inject_Z 1) else F32 (inject_Z 0).

(** The red, green and blue components of a color, as the conversion reads
    them off the number [value]. *)
Definition red (value : Z) : Z := Z.land (Z.shiftr value 16) 255.
Definition green (value : Z) : Z := Z.land (Z.shiftr value 8) 255.
Definition blue (value : Z) : Z := Z.land (Z.shiftr value 0) 255.

(** A reading of strings as 32-bit integers that covers the hexadecimal
    literals: ["0x"] followed by hexadecimal digits is read as its value,
    wrapped to 32 bits; every other string is read as 0 here. *)
Definition hexDigit (c : ascii) : option Z :=
  let n := Z.of_nat (nat_of_ascii c) in
  if ((48 <=? n) && (n <=? 57))%Z then Some (n - 48)%Z
  else if ((97 <=? n) && (n <=? 102))%Z then Some (n - 87)%Z
  else if ((65 <=? n) && (n <=? 70))%Z then Some (n - 55)%Z
  else None.

Fixpoint hexValue (acc : Z) (s : string) : option Z :=
  match s with
  | EmptyString => Some acc
  | String c rest =>
    match hexDigit c with
    | Some d => hexValue (16 * acc + d)%Z rest
    | None => None
    end
  end.

Definition toInt32 (v : Z) : Z := ((v + 2 ^ 31) mod 2 ^ 32 - 2 ^ 31)%Z.

Definition hexInt32 (s : string) : Z :=
  match s with
  | String "0"%char (String "x"%char (String c rest)) =>
    match hexValue 0%Z (String c rest) with
    | Some v => toInt32 v
    | None => 0%Z
    end
  | _ => 0%Z
  end.

End InterpolatedSpec.

Module StyleSetSpec.
Import InterpolatedProperties StyleSetEvaluator.

Section StyleSetSpec.

Context {Expr : Type}.

Local Abbreviation Style := (@Style Expr).
Local Abbreviation StyleData := (@StyleData Expr).

(** A style without child styles that is given an automatic render order:
    it names a technique and has an [attr] without [renderOrder]. *)
Definition takesAutoOrder (d : StyleData) : bool :=
  match technique d, attr d with
  | Some _, Some a => bool_decide (a !! "renderOrder"%string = None)
  | _, _ => false
  end.

(** [style.attr._renderOrderAuto], when it is a number. *)
Definition renderOrderAuto (d : StyleData) : option Z :=
  match attr d with
  | Some a =>
    match a !! "_renderOrderAuto"%string with
    | Some (Plain (JsNumber z)) => Some z
    | _ => None
    end
  | None => None
  end.

(** The automatic render orders of the leaves that take one, in document
    order. *)
Fixpoint leafAutoOrders (s : Style) : list (option Z) :=
  match s with
  | mkStyle d (Some children) => flat_map leafAutoOrders children
  | mkStyle d None => if takesAutoOrder d then [renderOrderAuto d] else []
  end.

(** All styles of a tree, in document order. *)
Fixpoint allStyles (s : Style) : list StyleData :=
  match s with
  | mkStyle d (Some children) => d :: flat_map allStyles children
  | mkStyle d None => [d]
  end.

(** The leaves (styles without child styles) of a tree, in document order. *)
Fixpoint leaves (s : Style) : list StyleData :=
  match s with
  | mkStyle d (Some children) => flat_map leaves children
  | mkStyle d None => [d]
  end.

(** Every bias range of the tree has its bounds in order. *)
Definition rangeOrdered (d : StyleData) : bool :=
  match renderOrderBiasRange d with
  | Some (minRange, maxRange) => (minRange <=? maxRange)%Z
  | None => true
  end.

Definition rangesOrdered (styleSet : list Style) : bool :=
  forallb rangeOrdered (flat_map allStyles styleSet).









(** No style of the tree carries an [_index] yet: the style set has not
    been matched against by an evaluator. *)
Definition unindexed (styleSet : list Style) : bool :=
  forallb (fun d => bool_decide (_index d = None)) (flat_map allStyles styleSet).

(** Every [_index] of the tree points into [m_techniques]. *)
Definition indexesBelow (n : nat) (styleSet : list Style) : Prop :=
  Forall (fun d => forall i, _index d = Some i -> i < n) (flat_map allStyles styleSet).

(** [d'] is [d] at a later time of the evaluator's life: matching writes
    [_whenExpr] and [_index] once and rewrites [attr]; nothing else changes. *)
Definition laterData (d d' : StyleData) : Prop :=
  when d' = when d /\ technique d' = technique d /\ final d' = final d /\
  (forall e, _whenExpr d = Some e -> _whenExpr d' = Some e) /\
  (forall i, _index d = Some i -> _index d' = Some i).

Inductive later : Style -> Style -> Prop :=
| later_leaf d d' : laterData d d' -> later (mkStyle d None) (mkStyle d' None)
| later_node d d' children children' :
    laterData d d' -> Forall2 later children children' ->
    later (mkStyle d (Some children)) (mkStyle d' (Some children')).

End StyleSetSpec.

Section Matching.

Context {Expr MapEnv : Type}.
Variable parse : string -> Expr.
Variable evaluate : Expr -> MapEnv -> bool.
Variable numberInt32 : string -> Z.

Local Abbreviation Style := (@Style Expr).
Local Abbreviation StyleData := (@StyleData Expr).
Local Abbreviation Walk := (@Walk Expr).
Local Abbreviation Evaluator := (@Evaluator Expr).

(** The loop of [processStyle] over the child styles. *)
Fixpoint processStyles (env : MapEnv) (children : list Style) (w : Walk)
    : bool * (list Style * Walk) :=
  match children with
  | [] => (false, ([], w))
  | currStyle :: rest =>
    let '(found, (currStyle, w)) :=
      processStyle parse evaluate numberInt32 env currStyle w in
    if found then (true, (currStyle :: rest, w))
    else
      let '(found, (rest, w)) := processStyles env rest w in
      (found, (currStyle :: rest, w))
  end.

(** The evaluator after it has been asked for the techniques of each of
    [envs] in turn; [None] if one of the calls throws. *)
Fixpoint afterMatching (ev : Evaluator) (envs : list MapEnv) : option Evaluator :=
  match envs with
  | [] => Some ev
  | env :: envs =>
    match getMatchingTechniques parse evaluate numberInt32 ev env with
    | Some (_, ev) => afterMatching ev envs
    | None => None
    end
  end.

(** A walk with [added] pushed to the result array and nothing else changed. *)
Definition pushResults (added : list (option TechniqueRef)) (w : Walk) : Walk :=
  mkWalk (styleStack w) (techniques w) (objects w) (result w ++ added).

(** [d'] is [d] up to its [attr]. *)
Definition sameButAttr (d d' : StyleData) : Prop := exists a, d' = withAttr a d.

(** What a walk from [w] to [w1] that leaves the styles [ss1] guarantees:
    [m_techniques] only grows, the style stack keeps its styles up to their
    [attr], every [_index] points into [m_techniques], and the result array
    grows by references [added] that satisfy [replay]. *)
Definition walkFacts (w w1 : Walk) (ss1 : list Style)
    (replay : list (option TechniqueRef) -> Prop) : Prop :=
  (exists more, techniques w1 = techniques w ++ more) /\
  Forall2 sameButAttr (styleStack w) (styleStack w1) /\
  indexesBelow (length (techniques w1)) ss1 /\
  exists added,
    result w1 = result w ++ added /\ Forall is_Some added /\ replay added.

(** A walk over one style, and what a further walk does with the same
    environment over the style as it is then or at any later time, from any
    walk [w2] whose [m_techniques] extend those reached: it pushes the same
    references and changes nothing else. *)
Definition walkedStyle (env : MapEnv) (s : Style) (w : Walk) : Prop :=
  let '(found, (s1, w1)) := processStyle parse evaluate numberInt32 env s w in
  later s s1 /\
  walkFacts w w1 [s1] (fun added =>
    forall s2 w2 rest, later s1 s2 -> techniques w2 = techniques w1 ++ rest ->
      processStyle parse evaluate numberInt32 env s2 w2
      = (found, (s2, pushResults added w2))).

Definition walkedStyles (env : MapEnv) (ss : list Style) (w : Walk) : Prop :=
  let '(found, (ss1, w1)) := processStyles env ss w in
  Forall2 later ss ss1 /\
  walkFacts w w1 ss1 (fun added =>
    forall ss2 w2 rest, Forall2 later ss1 ss2 -> techniques w2 = techniques w1 ++ rest ->
      processStyles env ss2 w2 = (found, (ss2, pushResults added w2))).

(** Every [_index] of the evaluator's style set points into [m_techniques]. *)
Definition indexed (ev : Evaluator) : Prop :=
  indexesBelow (length (m_techniques ev)) (styleSet ev).

End Matching.

End StyleSetSpec.

(** ** Further vocabulary for the StyleSetEvaluator *)

Module StyleExtrasSpec.
Import InterpolatedProperties StyleSetEvaluator StyleSetSpec.

Section StyleExtrasSpec.

Context {Expr : Type}.
Variable numberInt32 : string -> Z.

Local Abbreviation Style := (@Style Expr).
Local Abbreviation StyleData := (@StyleData Expr).
Local Abbreviation Walk := (@Walk Expr).
Local Abbreviation Evaluator := (@Evaluator Expr).

(** No style of the tree names a [renderOrderBiasGroup]. *)
Definition noBiasGroups (styleSet : list Style) : bool :=
  forallb (fun d => bool_decide (renderOrderBiasGroup d = None)) (flat_map allStyles styleSet).

(** The number of leaves that take an automatic render order. *)
Definition autoOrderCount (styleSet : list Style) : nat :=
  length (List.filter takesAutoOrder (flat_map leaves styleSet)).

(** The orders [from], [from + 1], ..., [n] of them. *)
Definition consecutiveOrders (from : Z) (n : nat) : list (option Z) :=
  map (fun i => Some (from + Z.of_nat i)%Z) (seq 0 n).

(** What the constructor does to one style of a tree without bias groups. *)
Definition ordersInSequence (s : Style) : Prop :=
  forall st, noBiasGroups [s] = true ->
    let r := computeDefaultRenderOrder s st in
    renderOrderBiasGroups (snd r) = renderOrderBiasGroups st /\
    techniqueRenderOrder (snd r)
      = (techniqueRenderOrder st + Z.of_nat (autoOrderCount [s]))%Z /\
    leafAutoOrders (fst r) = consecutiveOrders (techniqueRenderOrder st) (autoOrderCount [s]).

(** The technique objects [ts] were registered between the walks [w] and
    [w1]: appended to the heap, with their references appended to
    [m_techniques], each carrying its position in [m_techniques] as
    [_index]. *)
Definition registered (w w1 : Walk) : Prop :=
  exists ts : list Technique,
    objects w1 = objects w ++ ts /\
    techniques w1 = techniques w ++ seq (length (objects w)) (length ts) /\
    forall j t, ts !! j = Some t ->
      t !! "_index"%string = Some (Value (JsNumber (Z.of_nat (length (techniques w) + j)))).

(** What every walk keeps, whatever the styles and the evaluator: the style
    stack up to the [attr] of its styles, the registration discipline of
    [m_techniques], and a result array that grows by references held in
    [m_techniques] (or by [undefined]). *)
Definition walkKeeps (w w1 : Walk) : Prop :=
  Forall2 sameButAttr (styleStack w) (styleStack w1) /\
  registered w w1 /\
  exists added, result w1 = result w ++ added /\
    Forall (fun o => forall ref, o = Some ref -> ref ∈ techniques w1) added.

(** [m_techniques] and the heap in step: the i-th entry of [m_techniques]
    is the i-th technique object, and that object's [_index] is i. *)
Definition tableInStep (table : list TechniqueRef) (heap : list Technique) : Prop :=
  table = seq 0 (length heap) /\
  forall i t, heap !! i = Some t ->
    t !! "_index"%string = Some (Value (JsNumber (Z.of_nat i))).

(** What [addAttributes(currStyle)] writes under the key [k], if anything:
    the attribute of that name, else the field of the style kept under that
    name. *)
Definition fieldValue (d : StyleData) (k : string) : option TechniqueValue :=
  if bool_decide (k = "renderOrderBiasGroup"%string)
  then (fun g => Value (JsString g)) <$> renderOrderBiasGroup d
  else if bool_decide (k = "renderOrderBiasRange"%string)
  then (fun r : Z * Z => Value (JsNumbers [fst r; snd r])) <$> renderOrderBiasRange d
  else if bool_decide (k = "label"%string)
  then (fun l => Value (JsString l)) <$> labelProperty d
  else if bool_decide (k = "renderOrderBiasProperty"%string)
  then (fun p => Value (JsString p)) <$> renderOrderBiasProperty d
  else if bool_decide (k = "transient"%string)
  then (fun b => Value (JsBoolean b)) <$> transient d
  else if bool_decide (k = "renderOrder"%string)
  then (fun z => Value (JsNumber z)) <$> renderOrder d
  else None.

Definition ownValue (d : StyleData) (k : string) : option TechniqueValue :=
  match attr d with
  | Some a =>
    match a !! k with
    | Some v => Some (convertAttr numberInt32 v)
    | None => fieldValue d k
    end
  | None => fieldValue d k
  end.

(** The value of [k] along a chain of styles, innermost first: the first
    style that writes [k] decides, [fallback] otherwise. *)
Fixpoint nearestValue (k : string) (chain : list StyleData) (fallback : option TechniqueValue)
    : option TechniqueValue :=
  match chain with
  | [] => fallback
  | d :: outer =>
    match ownValue d k with
    | Some v => Some v
    | None => nearestValue k outer fallback
    end
  end.

End StyleExtrasSpec.

End StyleExtrasSpec.

(** ** Further vocabulary for the interpolated properties *)

Module InterpolatedExtrasSpec.
Import InterpolatedProperties.

(** The number of channels per zoom level in the sampled values of a
    definition: three for a non-empty array of colors, one otherwise. *)
Definition channelCount (p : InterpolatedPropertyDefinition) : nat :=
  match values p with
  | StringValues (_ :: _) => 3
  | _ => 1
  end.

End InterpolatedExtrasSpec.

(** ** Further vocabulary for loaders and manager *)

Module TileExtrasSpec.
Import Tiles PhasedTileGeometryLoader PhasedTileGeometryManager PhasedSpec.

Section TileExtrasSpec.

Context {DecodedTile : Type}.
Variable hasGeometry : list (@BackendCall DecodedTile) -> bool.

Local Abbreviation Phased := (@Phased DecodedTile).
Local Abbreviation ManagedTile := (@ManagedTile DecodedTile).

(** The kinds of the first [k] phases of a plan. *)
Definition kindsOfFirst (k : nat) (phases : list PhaseList) : gset TileGeometryKind :=
  list_to_set (concat (take k phases)).

(** The call of the geometry creator that [createKind] makes for a kind, on
    the payload [d], besides the background; [Background], [Ground], [Roads]
    and [Details] have none. *)
Definition kindCall (d : DecodedTile) (kind : TileGeometryKind) : option BackendCall :=
  match kind with
  | Areas => Some (CreateObjects d [IsFillTechnique])
  | Lines =>
    Some (CreateObjects d [IsLineTechnique; IsDashedLineTechnique; IsSolidLineTechnique;
                           IsSegmentsTechnique; IsExtrudedLineTechnique])
  | Buildings => Some (CreateObjects d [IsExtrudedPolygonTechnique])
  | Labels => Some (CreateTextElements d [IsPoiTechnique; IsLineMarkerTechnique;
                                          IsTextTechnique])
  | Pois => Some (PreparePois d)
  | _ => None
  end.

Definition isBackground (c : @BackendCall DecodedTile) : bool :=
  match c with CreateBackground => true | _ => false end.

(** The calls other than those for the background. *)
Definition kindCalls (calls : list (@BackendCall DecodedTile)) : list BackendCall :=
  List.filter (fun c => negb (isBackground c)) calls.

(** What has been created so far, [calls], was created once: no call for a
    kind occurs twice, and each one is the call on the payload [d] of a kind
    recorded as loaded. *)
Definition builtOnce (d : DecodedTile) (loaded : gset TileGeometryKind)
    (calls : list (@BackendCall DecodedTile)) : Prop :=
  NoDup (kindCalls calls) /\
  forall c, c ∈ kindCalls calls -> exists kind, kind ∈ loaded /\ kindCall d kind = Some c.

(** A loader at work on the payload [d], with [calls] created so far. *)
Definition atWork (d : DecodedTile) (base calls : list (@BackendCall DecodedTile))
    (s : Phased) : Prop :=
  cacheable (fst s) = true /\
  objects (fst s) = base ++ calls /\
  ((m_decodedTile (snd s) = None /\ decodedTile (fst s) = Some d /\ calls = []) \/
   ((m_decodedTile (snd s) = Some d \/
     (m_decodedTile (snd s) = None /\ decodedTile (fst s) = None)) /\
    builtOnce d (m_geometryKindsLoaded (snd s)) calls)).

(** A loader that [update()] can work with: it holds a payload, or it is at
    the start and a payload waits at its tile. *)
Definition supplied (s : Phased) : Prop :=
  m_decodedTile (snd s) <> None \/
  (currentPhase (snd s) = 0 /\ m_decodedTile (snd s) = None /\ decodedTile (fst s) <> None).

(** A tile of the manager after [n] static frames that could all do their
    work. *)
Definition inStep (N n : nat) (mt : ManagedTile) : Prop :=
  exists l, snd mt = Some l /\
    cacheable (fst mt) = true /\ numberOfPhases l = N /\
    currentPhase l = Nat.min n N /\
    (n < N -> supplied (fst mt, l)).

(** What [update()] and [updateToPhase(toPhase)] do to a tile of the manager. *)
Definition updated (mt : ManagedTile) : ManagedTile :=
  match snd mt with
  | Some l => let s := snd (update hasGeometry (fst mt, l)) in (fst s, Some (snd s))
  | None => mt
  end.

Definition updatedToPhase (toPhase : nat) (mt : ManagedTile) : ManagedTile :=
  match snd mt with
  | Some l =>
    let s := snd (updateToPhase hasGeometry toPhase (fst mt, l)) in (fst s, Some (snd s))
  | None => mt
  end.

(** [update()] reports work for the tile. *)
Definition reportsUpdate (mt : ManagedTile) : bool :=
  match snd mt with
  | Some l => fst (update hasGeometry (fst mt, l))
  | None => false
  end.

(** How many of the tiles would report work from [update()]. *)
Definition updatesReported (tiles : list ManagedTile) : nat :=
  length (List.filter reportsUpdate tiles).

(** A tile of the manager whose loader works through [N] phases on a payload:
    it holds the payload, or waits at the start for the one at its tile,
    until the last phase is done and the payload is dropped. *)
Definition loading (N : nat) (mt : ManagedTile) : Prop :=
  exists l, snd mt = Some l /\
    cacheable (fst mt) = true /\ numberOfPhases l = N /\
    currentPhase l <= N /\
    (currentPhase l < N -> supplied (fst mt, l)) /\
    (currentPhase l = N -> m_decodedTile l = None /\ decodedTile (fst mt) = None).

(** The phases the tiles have left to do. *)
Definition remaining (N : nat) (mt : ManagedTile) : nat :=
  match snd mt with
  | Some l => N - currentPhase l
  | None => 0
  end.

Definition remainingPhases (N : nat) (tiles : list ManagedTile) : nat :=
  foldr (fun mt rest => remaining N mt + rest) 0 tiles.

(** The tiles after [n] frames with the map view [mv]. *)
Definition frames (m : Manager) (mv : MapView) (n : nat) (tiles : list ManagedTile)
    : list ManagedTile :=
  Nat.iter n (fun tiles => fst (updateTiles hasGeometry m mv tiles)) tiles.

End TileExtrasSpec.

End TileExtrasSpec.

(** ** Concrete tiles *)

Module TileSamples.
Import Tiles PhasedTileGeometryLoader PhasedTileGeometryManager.

(** Payloads are told apart by a number; a tile has geometry once something
    has been created for it. *)
Definition hasGeometry (calls : list (@BackendCall nat)) : bool :=
  match calls with [] => false | _ => true end.

(** A visible tile of a cacheable data source that holds payload [7]. *)
Definition cacheableTile : @Tile nat := mkTile (Some 7) false true true [].

(** A visible tile of a non-cacheable data source that holds payload [3]. *)
Definition nonCacheableTile : @Tile nat := mkTile (Some 3) false true false [].

Definition manager : Manager := newPhasedTileGeometryManager.

(** A map view in static mode. *)
Definition staticView : MapView := mkMapView false 0.

Definition mixedTiles : list (@ManagedTile nat) :=
  map (initTile manager) [nonCacheableTile; cacheableTile].

Definition cacheableTiles : list (@ManagedTile nat) :=
  map (initTile manager) [cacheableTile; mkTile None false true true []].

End TileSamples.

(** ** A concrete style set *)

Module StyleSamples.
Import InterpolatedProperties InterpolatedSpec StyleSetEvaluator StyleSetSpec.

(** Expressions are kept as their source text, an environment is the list of
    the class names that hold for a feature, and an expression holds when it
    names one of them. *)
Definition parse (source : string) : string := source.
Definition evaluate (e : string) (env : list string) : bool := bool_decide (e ∈ env).

Definition style (when_ : option string) (technique_ : option string)
    (attr_ : option (gmap string AttrValue)) (biasGroup : option string)
    (biasRange : option (Z * Z)) (final_ : option bool) : @StyleData string :=
  mkStyleData when_ None technique_ attr_ None None biasRange biasGroup None None
              final_ None None.

Definition lineWidth : InterpolatedPropertyDefinition :=
  mkDefinition (Some Linear) [12; 14; 14; 16]%Z (NumberValues [1; 2; 3; 4]%Z).

Definition roadColor : InterpolatedPropertyDefinition :=
  mkDefinition (Some Linear) [14; 16]%Z (StringValues ["#ff8000"; "#102030"]%string).

Definition duplicatedColor : InterpolatedPropertyDefinition :=
  mkDefinition None [5; 5]%Z (StringValues ["#ff0000"; "#00ff00"]%string).

(** Roads with two kinds of lines, water in a bias group, and labels. *)
Definition styles : list (@Style string) :=
  [ mkStyle (style (Some "road") None None None None None)
      (Some [ mkStyle (style (Some "major") (Some "solid-line")
                         (Some {[ "lineWidth" := Interpolated lineWidth;
                                  "color" := Interpolated roadColor ]})
                         None None (Some true)) None;
              mkStyle (style None (Some "line")
                         (Some {[ "lineWidth" := Plain (JsNumber 1) ]})
                         None None None) None ]);
    mkStyle (style (Some "water") (Some "fill")
               (Some {[ "color" := Plain (JsString "#0000ff") ]})
               (Some "water") (Some (-2, 3)%Z) None) None;
    mkStyle (style (Some "river") (Some "fill")
               (Some {[ "color" := Plain (JsString "#0000aa") ]})
               (Some "water") (Some (-2, 3)%Z) None) None;
    mkStyle (style (Some "label") (Some "text")
               (Some {[ "size" := Plain (JsNumber 12) ]}) None None None) None ]%string.


(** Two rules of one bias group at the top of a style set. *)
Definition groupAtTop : list (@Style string) :=
  [ mkStyle (style None (Some "fill") None (Some "ground") (Some (0, 1)%Z) None) None;
    mkStyle (style None (Some "fill") None (Some "ground") (Some (0, 1)%Z) None) None
  ]%string.

(** Two rules that hold for every feature; the first carries the [_index]
    another evaluator has left on it. *)
Definition sharedStyles : list (@Style string) :=
  [ mkStyle (mkStyleData None None (Some "fill") None None None None None None None
                         None None (Some 0)) None;
    mkStyle (style None (Some "line") None None None None) None ]%string.

(** Three rules of one bias group behind a plain rule; only the second rule
    of the group declares a bias range. *)
Definition groupWithFollowers : list (@Style string) :=
  [ mkStyle (style None (Some "line")
               (Some {[ "lineWidth" := Plain (JsNumber 1) ]}) None None None) None;
    mkStyle (style (Some "lake") (Some "fill") None (Some "water") None None) None;
    mkStyle (style (Some "water") (Some "fill") None (Some "water") (Some (-2, 3)%Z) None) None;
    mkStyle (style (Some "river") (Some "fill") None (Some "water") None None) None
  ]%string.

(** A rule of a bias group whose range has its bounds the wrong way round,
    between two plain rules. *)
Definition invertedRange : list (@Style string) :=
  [ mkStyle (style None (Some "line")
               (Some {[ "lineWidth" := Plain (JsNumber 1) ]}) None None None) None;
    mkStyle (style None (Some "fill") None (Some "ground") (Some (0, -5)%Z) None) None;
    mkStyle (style None (Some "line")
               (Some {[ "lineWidth" := Plain (JsNumber 2) ]}) None None None) None
  ]%string.

End StyleSamples.

(** ** More concrete inputs *)

Module ExtraSamples.
Import Tiles PhasedTileGeometryLoader PhasedTileGeometryManager TextElementPriorities.
Import InterpolatedProperties StyleSetEvaluator StyleSamples.

(** A map view in a dynamic frame. *)
Definition dynamicView : MapView := mkMapView true 0.

(** The techniques of every payload: three text techniques, two of them of
    priority 3 and one without a priority, and a line technique. *)
Definition textTechniques (d : nat) : list TechniqueEntry :=
  [ mkTechniqueEntry "text" (Some 3%Z); mkTechniqueEntry "line" (Some 9%Z);
    mkTechniqueEntry "text" None; mkTechniqueEntry "text" (Some 3%Z) ]%string.

(** A loader at work on payload 7. *)
Definition loaderAtWork : @PhasedLoader nat :=
  mkPhased (Some 7) false ∅ DefaultPhases 1 DefaultBasicGeometryKinds.

(** A rule for lines inside a group of rules for roads that sets a color. *)
Definition roadGroup : @StyleData string :=
  style (Some "road") None (Some {[ "color" := Plain (JsString "#ffffff") ]}) None None None.

Definition lineRule : @StyleData string :=
  style None (Some "line") (Some {[ "lineWidth" := Plain (JsNumber 1) ]}) None None None.

(** The rules for roads of the sample style set, which name no bias group. *)
Definition roadStyles : list (@Style string) := take 1 styles.

(** [hasOrIntersects] on the kinds of a style: a kind that is in the set, or
    a set of kinds that shares one with it. *)
Definition hasOrIntersects (kinds : gset string) (kind : TileGeometryCreator.TechniqueKind)
    : bool :=
  match kind with
  | TileGeometryCreator.KindString k => bool_decide (k ∈ kinds)
  | TileGeometryCreator.KindSet ks => negb (bool_decide (kinds ∩ ks = ∅))
  | _ => false
  end.

(** A decoded tile with a road technique, a technique without kind and one
    geometry of two groups. *)
Definition roadTile : TileGeometryCreator.DecodedTile :=
  TileGeometryCreator.mkDecodedTile
    [ TileGeometryCreator.mkTechnique
        (Some (TileGeometryCreator.KindArray ["road"; "line"]%string)) None;
      TileGeometryCreator.mkTechnique None None ]
    [ TileGeometryCreator.mkGeometry
        [ TileGeometryCreator.mkGroup None; TileGeometryCreator.mkGroup None ] ].

(** The same tile after a first [initDecodedTile] that disables roads and
    after the first group has been created. *)
Definition roadTileInUse : TileGeometryCreator.DecodedTile :=
  TileGeometryCreator.mkDecodedTile
    (TileGeometryCreator.techniques
       (TileGeometryCreator.initDecodedTile hasOrIntersects roadTile None
          (Some {[ "road"%string ]})))
    [ TileGeometryCreator.mkGeometry
        [ TileGeometryCreator.mkGroup (Some [0; 12]);
          TileGeometryCreator.mkGroup (Some []) ] ].

End ExtraSamples.

(** * Properties *)

(** ** PhasedTileGeometryLoader *)

Module PhasedFacts.
Import Tiles PhasedTileGeometryLoader PhasedSpec.

Section PhasedFacts.

Context {DecodedTile : Type}.
Variable hasGeometry : list (@BackendCall DecodedTile) -> bool.

Local Abbreviation Phased := (@Phased DecodedTile).
Local Abbreviation update := (update hasGeometry).
Local Abbreviation updateToPhase := (updateToPhase hasGeometry).
Local Abbreviation updateToPhaseLoop := (updateToPhaseLoop hasGeometry).
Local Abbreviation createKind := (createKind hasGeometry).
Local Abbreviation updates := (updates hasGeometry).
Local Abbreviation runOps := (runOps hasGeometry).
Local Abbreviation runOp := (runOp hasGeometry).

Lemma builds_only_refl (s : Phased) : builds_only s s.
Proof. repeat split. Qed.

Lemma builds_only_trans (s1 s2 s3 : Phased) :
  builds_only s1 s2 -> builds_only s2 s3 -> builds_only s1 s3.
Proof. unfold builds_only. intros; intuition congruence. Qed.

Lemma createKind_builds_only (s : Phased) k : builds_only s (createKind s k).
Proof.
  destruct s as [t l]. unfold createKind.
  case_bool_decide; [apply builds_only_refl|].
  destruct k; simpl; try (repeat split; fail);
    destruct (m_decodedTile l); simpl; try (repeat split; fail);
    destruct (hasGeometry (objects t)); simpl; repeat split.
Qed.

Lemma createKind_kinds (s : Phased) k :
  m_geometryKindsLoaded (snd (createKind s k)) = {[k]} ∪ m_geometryKindsLoaded (snd s).
Proof.
  destruct s as [t l]. unfold createKind.
  case_bool_decide as Hin; simpl; [set_solver|].
  destruct k; simpl; try reflexivity;
    destruct (m_decodedTile l); simpl; reflexivity.
Qed.

Lemma createKinds_builds_only def (s : Phased) : builds_only s (fold_left createKind def s).
Proof.
  revert s. induction def as [|k def IH]; intros s; simpl.
  - apply builds_only_refl.
  - eapply builds_only_trans; [apply createKind_builds_only | apply IH].
Qed.

Lemma createKinds_kinds def (s : Phased) :
  m_geometryKindsLoaded (snd (fold_left createKind def s))
  = list_to_set def ∪ m_geometryKindsLoaded (snd s).
Proof.
  revert s. induction def as [|k def IH]; intros s; simpl.
  - set_solver.
  - rewrite IH, createKind_kinds. set_solver.
Qed.

(** A build only ever appends to the calls recorded for the tile. *)
Lemma createKind_objects (s : Phased) k :
  exists calls, objects (fst (createKind s k)) = objects (fst s) ++ calls.
Proof.
  destruct s as [t l]. unfold createKind.
  case_bool_decide; [exists []; simpl; by rewrite app_nil_r|].
  destruct k; simpl; try (exists []; simpl; by rewrite app_nil_r);
    destruct (m_decodedTile l); simpl; try (exists []; simpl; by rewrite app_nil_r);
    destruct (hasGeometry (objects t)); simpl;
    rewrite <- ?app_assoc; eexists; try reflexivity;
    try (instantiate (1 := []); simpl; by rewrite app_nil_r).
Qed.

(** *** [update()] case by case *)

(** With a payload in hand and phases left, on a cacheable tile, [update]
    builds the kinds of the current phase and moves the cursor by one. *)
Lemma update_builds (t : @Tile DecodedTile) (l : PhasedLoader) d :
  cacheable t = true -> m_decodedTile l = Some d ->
  currentPhase l < numberOfPhases l ->
  exists s', update (t, l) = (true, s') /\
    cacheable (fst s') = true /\
    m_loadPhaseDefinitions (snd s') = m_loadPhaseDefinitions l /\
    m_basicGeometryKinds (snd s') = m_basicGeometryKinds l /\
    currentPhase (snd s') = S (currentPhase l) /\
    m_geometryKindsLoaded (snd s')
      = list_to_set (default [] (m_loadPhaseDefinitions l !! currentPhase l))
        ∪ m_geometryKindsLoaded l /\
    (if S (currentPhase l) <? numberOfPhases l
     then m_decodedTile (snd s') = Some d /\ decodedTile (fst s') = decodedTile t /\
          m_isFinished (snd s') = m_isFinished l
     else m_decodedTile (snd s') = None /\ decodedTile (fst s') = None /\
          m_isFinished (snd s') = true).
Proof.
  intros Hc Hd Hlt. unfold update. simpl. rewrite Hd, Hc. simpl.
  assert (Hle : (numberOfPhases l <=? currentPhase l) = false) by (apply Nat.leb_gt; lia).
  rewrite Hle.
  set (def := default [] (m_loadPhaseDefinitions l !! currentPhase l)).
  pose proof (createKinds_builds_only def (t, l)) as Hb.
  pose proof (createKinds_kinds def (t, l)) as Hk.
  destruct (fold_left createKind def (t, l)) as [t' l'] eqn:E.
  unfold builds_only in Hb. simpl in Hb, Hk.
  destruct Hb as (Hb1 & Hb2 & Hb3 & Hb4 & Hb5 & Hb6 & Hb7 & Hb8 & Hb9).
  unfold nextPhase, numberOfPhases, currentPhase in *.
  rewrite Hb7, Hb8.
  assert (Hlt' : (m_currentPhaseIndex l <? length (m_loadPhaseDefinitions l)) = true)
    by (apply Nat.ltb_lt; lia).
  rewrite Hlt'. simpl. rewrite Hb7.
  destruct (S (m_currentPhaseIndex l) <? length (m_loadPhaseDefinitions l)) eqn:E2.
  - rewrite Hd. eexists; split; [reflexivity|]. simpl. repeat split; congruence.
  - rewrite Hd. eexists; split; [reflexivity|]. simpl. repeat split; congruence.
Qed.

(** Without a payload anywhere, or past the last phase, [update] on a
    cacheable tile changes nothing and reports no update. *)
Lemma update_idle (t : @Tile DecodedTile) (l : PhasedLoader) :
  cacheable t = true ->
  (m_decodedTile l = None /\ decodedTile t = None) \/
  (m_decodedTile l <> None /\ numberOfPhases l <= currentPhase l) ->
  update (t, l) = (false, (t, l)).
Proof.
  intros Hc [[Hd Ht] | [Hd Hn]]; unfold update; simpl.
  - rewrite Hd, Ht, Hc. simpl. rewrite Hd. reflexivity.
  - destruct (m_decodedTile l) eqn:E; [|congruence].
    rewrite Hc. simpl. rewrite E.
    assert (Hle : (numberOfPhases l <=? currentPhase l) = true) by (apply Nat.leb_le; lia).
    rewrite Hle. reflexivity.
Qed.

(** A payload waiting at the tile is captured first: cursor and loaded kinds
    are reset, and [update] goes on from there. *)
Lemma update_captures (t : @Tile DecodedTile) (l : PhasedLoader) d :
  m_decodedTile l = None -> decodedTile t = Some d ->
  update (t, l) = update (t, withKinds ∅ (withPhase 0 (withDecoded (Some d) l))).
Proof.
  intros Hd Ht. unfold update. simpl. rewrite Hd, Ht. reflexivity.
Qed.

(** On a tile of a non-cacheable data source [update] builds nothing and
    puts the cursor past the last phase. *)
Lemma update_noncacheable (t : @Tile DecodedTile) (l : PhasedLoader) :
  cacheable t = false ->
  exists l', update (t, l) = (false, (t, l')) /\
    currentPhase l' = numberOfPhases l' /\
    m_loadPhaseDefinitions l' = m_loadPhaseDefinitions l /\
    m_basicGeometryKinds l' = m_basicGeometryKinds l /\
    m_isFinished l' = m_isFinished l /\
    (m_geometryKindsLoaded l' = m_geometryKindsLoaded l \/ m_geometryKindsLoaded l' = ∅).
Proof.
  intros Hc. unfold update. simpl.
  destruct (m_decodedTile l) eqn:Hd; [|destruct (decodedTile t) eqn:Ht];
    simpl; rewrite Hc; simpl; eexists; (split; [reflexivity|]); simpl; auto 10.
Qed.

(** *** [updateToPhase(toPhase)] *)

(** A property that every [update()] keeps is kept by [updateToPhase]. *)
Lemma updateToPhaseLoop_invariant (P : Phased -> Prop) :
  (forall s, P s -> P (snd (update s))) ->
  forall fuel toPhase b s r,
    P s -> updateToPhaseLoop fuel toPhase b s = Some r -> P (snd r).
Proof.
  intros Hstep fuel toPhase. induction fuel as [|fuel IH]; intros b s r HP; simpl.
  - destruct (currentPhase (snd s) <? toPhase); [discriminate|].
    intros [= <-]. exact HP.
  - destruct (currentPhase (snd s) <? toPhase).
    + pose proof (Hstep s HP) as HP'.
      destruct (update s) as [b1 s1]. simpl in HP'.
      destruct b1; simpl.
      * apply IH. exact HP'.
      * intros [= <-]. exact HP'.
    + intros [= <-]. exact HP.
Qed.

Lemma updateToPhase_invariant (P : Phased -> Prop) :
  (forall s, P s -> P (snd (update s))) ->
  forall toPhase s, P s -> P (snd (updateToPhase toPhase s)).
Proof.
  intros Hstep toPhase s HP. unfold PhasedTileGeometryLoader.updateToPhase.
  destruct (updateToPhaseLoop (updateToPhaseFuel s) toPhase false s) as [r|] eqn:E.
  - eapply updateToPhaseLoop_invariant; eauto.
  - exact HP.
Qed.

(** A payload waiting at the tile is captured by the first iteration. *)
Lemma updateToPhaseLoop_captures fuel toPhase b (t : @Tile DecodedTile) (l : PhasedLoader) d :
  m_decodedTile l = None -> decodedTile t = Some d -> currentPhase l < toPhase ->
  updateToPhaseLoop fuel toPhase b (t, l)
  = updateToPhaseLoop fuel toPhase b (t, withKinds ∅ (withPhase 0 (withDecoded (Some d) l))).
Proof.
  intros Hd Ht Hlt.
  assert (H1 : (currentPhase l <? toPhase) = true) by (apply Nat.ltb_lt; exact Hlt).
  assert (H2 : (0 <? toPhase) = true) by (apply Nat.ltb_lt; lia).
  destruct fuel as [|fuel]; simpl.
  - unfold currentPhase in *. simpl. rewrite H1, H2. reflexivity.
  - unfold currentPhase in *. simpl. rewrite H1, H2.
    rewrite (update_captures t l d Hd Ht). reflexivity.
Qed.

(** From a state with no payload waiting to be captured, on a cacheable
    tile, the loop exits, and where the cursor then is. *)
Lemma updateToPhaseLoop_steady fuel toPhase b (s : Phased) :
  cacheable (fst s) = true ->
  (m_decodedTile (snd s) <> None \/ decodedTile (fst s) = None) ->
  numberOfPhases (snd s) - currentPhase (snd s) < fuel ->
  exists b' s', updateToPhaseLoop fuel toPhase b s = Some (b', s') /\
    cacheable (fst s') = true /\
    m_loadPhaseDefinitions (snd s') = m_loadPhaseDefinitions (snd s) /\
    ((currentPhase (snd s') = currentPhase (snd s) /\
      (toPhase <= currentPhase (snd s) \/ m_decodedTile (snd s) = None \/
       numberOfPhases (snd s) <= currentPhase (snd s))) \/
     (currentPhase (snd s) < currentPhase (snd s') /\
      currentPhase (snd s') <= toPhase /\
      (toPhase <= numberOfPhases (snd s) -> currentPhase (snd s') = toPhase))).
Proof.
  revert b s. induction fuel as [|fuel IH]; intros b s Hc Hst Hfuel; [lia|].
  destruct s as [t l]. cbn [fst snd] in *. simpl.
  destruct (currentPhase l <? toPhase) eqn:Elt.
  2:{ apply Nat.ltb_ge in Elt. exists b, (t, l). cbn [fst snd]. auto 10. }
  apply Nat.ltb_lt in Elt.
  destruct (m_decodedTile l) as [d|] eqn:Ed.
  - destruct (le_lt_dec (numberOfPhases l) (currentPhase l)) as [Hge | Hlt].
    + rewrite (update_idle t l Hc) by (right; split; [congruence | exact Hge]).
      simpl. exists false, (t, l). cbn [fst snd]. auto 10.
    + destruct (update_builds t l d Hc Ed Hlt)
        as (s1 & Hu & Hc1 & Hph1 & _ & Hcp1 & _ & Hfin).
      rewrite Hu. simpl.
      assert (HN1 : numberOfPhases (snd s1) = numberOfPhases l)
        by (unfold numberOfPhases; rewrite Hph1; reflexivity).
      destruct (IH true s1 Hc1) as (b' & s' & Hloop & Hc' & Hph' & Hcur).
      { destruct (S (currentPhase l) <? numberOfPhases l).
        - left. destruct Hfin as (-> & _). discriminate.
        - right. tauto. }
      { rewrite HN1, Hcp1. lia. }
      exists b', s'. split; [exact Hloop|]. split; [exact Hc'|].
      split; [congruence|]. right.
      rewrite HN1, Hcp1 in Hcur.
      destruct Hcur as [(He & Hwhy) | (H1 & H2 & H3)].
      * rewrite He. split; [lia|]. split; [lia|]. intros Hle.
        destruct Hwhy as [Hw | [Hw | Hw]]; [lia | | lia].
        destruct (S (currentPhase l) <? numberOfPhases l) eqn:E1.
        -- destruct Hfin as (Hd1 & _). congruence.
        -- apply Nat.ltb_ge in E1. lia.
      * split; [lia|]. split; [exact H2 | exact H3].
  - destruct Hst as [Hst | Hst]; [congruence|].
    rewrite (update_idle t l Hc) by (left; auto).
    simpl. exists false, (t, l). cbn [fst snd]. auto 10.
Qed.

(** The bound on the iterations is never hit. *)
Lemma updateToPhase_total toPhase (s : Phased) :
  exists r, updateToPhaseLoop (updateToPhaseFuel s) toPhase false s = Some r.
Proof.
  destruct s as [t l]. unfold updateToPhaseFuel. cbn [snd].
  destruct (le_lt_dec toPhase (currentPhase l)) as [Hge | Hlt].
  { exists (false, (t, l)).
    destruct (numberOfPhases l + 2); simpl;
      (replace (currentPhase l <? toPhase) with false
         by (symmetry; apply Nat.ltb_ge; exact Hge)); reflexivity. }
  destruct (cacheable t) eqn:Hc.
  - destruct (m_decodedTile l) as [d|] eqn:Ed.
    + destruct (updateToPhaseLoop_steady (numberOfPhases l + 2) toPhase false (t, l))
        as (b' & s' & Hloop & _);
        [exact Hc | left; cbn [snd]; congruence | cbn [snd]; lia | eauto].
    + destruct (decodedTile t) as [d|] eqn:Et.
      * rewrite (updateToPhaseLoop_captures _ _ _ t l d Ed Et Hlt).
        destruct (updateToPhaseLoop_steady (numberOfPhases l + 2) toPhase false
                    (t, withKinds ∅ (withPhase 0 (withDecoded (Some d) l))))
          as (b' & s' & Hloop & _);
          [exact Hc | left; discriminate
          | unfold numberOfPhases, currentPhase; simpl; lia | eauto].
      * destruct (updateToPhaseLoop_steady (numberOfPhases l + 2) toPhase false (t, l))
          as (b' & s' & Hloop & _);
          [exact Hc | right; exact Et | cbn [snd]; lia | eauto].
  - destruct (update_noncacheable t l Hc) as (l' & Hu & _).
    replace (numberOfPhases l + 2) with (S (numberOfPhases l + 1)) by lia.
    simpl.
    replace (currentPhase l <? toPhase) with true by (symmetry; apply Nat.ltb_lt; exact Hlt).
    rewrite Hu. simpl. eauto.
Qed.

(** On a cacheable tile, with a target within the plan, [updateToPhase]
    leaves the cursor where it is or takes it to the target. *)
Lemma updateToPhase_cursor toPhase (t : @Tile DecodedTile) (l : PhasedLoader) :
  cacheable t = true -> toPhase <= numberOfPhases l ->
  let s' := snd (updateToPhase toPhase (t, l)) in
  cacheable (fst s') = true /\
  m_loadPhaseDefinitions (snd s') = m_loadPhaseDefinitions l /\
  (currentPhase (snd s') = currentPhase l \/
   (currentPhase l < toPhase /\ currentPhase (snd s') = toPhase)).
Proof.
  intros Hc Hle. unfold PhasedTileGeometryLoader.updateToPhase, updateToPhaseFuel.
  cbn [snd].
  destruct (le_lt_dec toPhase (currentPhase l)) as [Hge | Hlt].
  { replace (updateToPhaseLoop (numberOfPhases l + 2) toPhase false (t, l))
      with (Some (false, (t, l))).
    - cbn. auto.
    - destruct (numberOfPhases l + 2); simpl;
        (replace (currentPhase l <? toPhase) with false
           by (symmetry; apply Nat.ltb_ge; exact Hge)); reflexivity. }
  assert (Hsteady : forall l0, m_loadPhaseDefinitions l0 = m_loadPhaseDefinitions l ->
            (m_decodedTile l0 <> None \/ decodedTile t = None) ->
            (currentPhase l0 = currentPhase l \/
             (currentPhase l0 = 0 /\ m_decodedTile l0 <> None)) ->
            exists b' s',
              updateToPhaseLoop (numberOfPhases l + 2) toPhase false (t, l0) = Some (b', s') /\
              cacheable (fst s') = true /\
              m_loadPhaseDefinitions (snd s') = m_loadPhaseDefinitions l /\
              (currentPhase (snd s') = currentPhase l \/
               (currentPhase l < toPhase /\ currentPhase (snd s') = toPhase))).
  { intros l0 Hph0 Hst0 Hcur0.
    assert (HN0 : numberOfPhases l0 = numberOfPhases l)
      by (unfold numberOfPhases; rewrite Hph0; reflexivity).
    destruct (updateToPhaseLoop_steady (numberOfPhases l + 2) toPhase false (t, l0))
      as (b' & s' & Hloop & Hc' & Hph' & Hcur);
      [exact Hc | exact Hst0 | cbn [snd]; rewrite HN0; lia |].
    exists b', s'. cbn [fst snd] in *. split; [exact Hloop|].
    split; [exact Hc'|]. split; [congruence|].
    rewrite HN0 in Hcur.
    destruct Hcur0 as [He0 | (He0 & Hd0)].
    - rewrite He0 in Hcur.
      destruct Hcur as [(He & _) | (H1 & H2 & H3)]; [left; exact He|].
      right. split; [exact Hlt | apply H3; exact Hle].
    - rewrite He0 in Hcur.
      destruct Hcur as [(He & Hwhy) | (H1 & H2 & H3)].
      + exfalso. destruct Hwhy as [Hw | [Hw | Hw]]; [lia | congruence | lia].
      + right. split; [exact Hlt | apply H3; exact Hle]. }
  destruct (m_decodedTile l) as [d|] eqn:Ed.
  - destruct (Hsteady l eq_refl) as (b' & s' & Hloop & Hres);
      [left; congruence | left; reflexivity |].
    rewrite Hloop. exact Hres.
  - destruct (decodedTile t) as [d|] eqn:Et.
    + rewrite (updateToPhaseLoop_captures _ _ _ t l d Ed Et Hlt).
      destruct (Hsteady (withKinds ∅ (withPhase 0 (withDecoded (Some d) l))))
        as (b' & s' & Hloop & Hres).
      * reflexivity.
      * left. discriminate.
      * right. split; [reflexivity | discriminate].
      * rewrite Hloop. exact Hres.
    + destruct (Hsteady l eq_refl) as (b' & s' & Hloop & Hres);
        [right; reflexivity | left; reflexivity |].
      rewrite Hloop. exact Hres.
Qed.

(** *** A fresh loader driven by [update()] alone *)

Lemma afterUpdates_step N k (s : Phased) :
  afterUpdates N k s ->
  afterUpdates N (S k) (snd (update s)) /\
  fst (update s) = (k <? N) /\
  (N <= k -> no_work s (snd (update s))).
Proof.
  destruct s as [t l]. unfold afterUpdates. cbn [fst snd].
  intros (Hc & HN & Hp & Hcase).
  destruct Hcase as [(Hk & Hd & Ht & Hks) | [(Hd & Hk) | (Hd & Ht & Hk & HN1)]].
  - subst k. destruct (decodedTile t) as [d|] eqn:Etd; [|congruence].
    rewrite (update_captures t l d Hd Etd).
    set (l0 := withKinds ∅ (withPhase 0 (withDecoded (Some d) l))).
    assert (Hnl0 : numberOfPhases l0 = N) by exact HN.
    destruct (Nat.eq_dec N 0) as [HN0 | HN0].
    + rewrite (update_idle t l0 Hc).
      2:{ right. split; [discriminate|]. rewrite Hnl0. lia. }
      cbn [fst snd].
      split; [split; [|split; [|split]] | split].
      * exact Hc.
      * exact Hnl0.
      * change (currentPhase l0) with 0. lia.
      * right; left. split; [discriminate | right; exact HN0].
      * symmetry. apply Nat.ltb_ge. lia.
      * intros _. unfold no_work, loadedKinds, currentPhase, isFinished in *.
        cbn. repeat split; auto; lia.
    + destruct (update_builds t l0 d Hc eq_refl) as (s' & Hu & Hc' & Hph & _ & Hcp & _ & Hfin).
      { rewrite Hnl0. change (currentPhase l0) with 0. lia. }
      rewrite Hu. cbn [fst snd].
      assert (HN' : numberOfPhases (snd s') = N)
        by (unfold numberOfPhases in *; rewrite Hph; exact Hnl0).
      rewrite Hnl0 in Hfin. change (currentPhase l0) with 0 in Hfin, Hcp.
      split; [split; [|split; [|split]] | split].
      * exact Hc'.
      * exact HN'.
      * rewrite Hcp. lia.
      * destruct (1 <? N) eqn:E1.
        -- apply Nat.ltb_lt in E1. right; left.
           destruct Hfin as (Hd' & _). split; [congruence | left; lia].
        -- apply Nat.ltb_ge in E1. right; right.
           destruct Hfin as (Hd' & Ht' & _). repeat split; auto; lia.
      * symmetry. apply Nat.ltb_lt. lia.
      * intros; lia.
  - destruct Hk as [Hk | HN0].
    + destruct (m_decodedTile l) as [d|] eqn:Ed; [|congruence].
      assert (Hpk : currentPhase l = k) by lia.
      destruct (update_builds t l d Hc Ed) as (s' & Hu & Hc' & Hph & _ & Hcp & _ & Hfin).
      { lia. }
      rewrite Hu. cbn [fst snd].
      assert (HN' : numberOfPhases (snd s') = N)
        by (unfold numberOfPhases in *; rewrite Hph; exact HN).
      rewrite HN, Hpk in Hfin.
      split; [split; [|split; [|split]] | split].
      * exact Hc'.
      * exact HN'.
      * rewrite Hcp. lia.
      * destruct (S k <? N) eqn:E1.
        -- apply Nat.ltb_lt in E1. right; left.
           destruct Hfin as (Hd' & _). split; [congruence | left; lia].
        -- apply Nat.ltb_ge in E1. right; right.
           destruct Hfin as (Hd' & Ht' & _). repeat split; auto; lia.
      * symmetry. apply Nat.ltb_lt. lia.
      * intros; lia.
    + rewrite (update_idle t l Hc) by (right; split; [exact Hd | lia]).
      cbn [fst snd].
      split; [split; [|split; [|split]] | split].
      * exact Hc.
      * exact HN.
      * lia.
      * right; left. split; [exact Hd | right; exact HN0].
      * symmetry. apply Nat.ltb_ge. lia.
      * intros _. repeat split.
  - rewrite (update_idle t l Hc) by (left; auto).
    cbn [fst snd].
    split; [split; [|split; [|split]] | split].
    + exact Hc.
    + exact HN.
    + lia.
    + right; right. repeat split; auto.
    + symmetry. apply Nat.ltb_ge. lia.
    + intros _. repeat split.
Qed.

Lemma afterUpdates_updates N (s0 : Phased) :
  afterUpdates N 0 s0 -> forall k, afterUpdates N k (updates k s0).
Proof.
  intros H0 k. induction k as [|k IH]; [exact H0|].
  change (updates (S k) s0) with (snd (update (updates k s0))).
  apply afterUpdates_step. exact IH.
Qed.

Lemma afterUpdates_fresh (t : @Tile DecodedTile) phases basic :
  decodedTile t <> None -> cacheable t = true ->
  afterUpdates (length phases) 0 (t, newPhasedTileGeometryLoader phases basic).
Proof.
  intros Ht Hc. unfold afterUpdates. simpl. repeat split; auto.
Qed.

(** C4: a fresh PhasedTileGeometryLoader with N phases, on a cacheable tile
    that holds a DecodedTile: each of the first N calls of update() returns
    true and moves currentPhase from k to k+1; allGeometryLoaded is false
    before the N-th call has run and true from then on; every further call
    returns false and does no work. *)
Theorem update_drives_all_phases (t : @Tile DecodedTile) (d : DecodedTile)
    (phases : list PhaseList) (basic : gset TileGeometryKind) :
  decodedTile t = Some d -> cacheable t = true ->
  let s0 : Phased := (t, newPhasedTileGeometryLoader phases basic) in
  let N := length phases in
  (forall k, k < N ->
     fst (update (updates k s0)) = true /\
     currentPhase (snd (updates k s0)) = k /\
     currentPhase (snd (updates (S k) s0)) = S k /\
     allGeometryLoaded (snd (updates k s0)) = false) /\
  (forall k, N <= k ->
     allGeometryLoaded (snd (updates k s0)) = true /\
     fst (update (updates k s0)) = false /\
     no_work (updates k s0) (updates (S k) s0)).
Proof.
  intros Ht Hc s0 N.
  assert (H0 : afterUpdates N 0 s0)
    by (apply afterUpdates_fresh; [congruence | exact Hc]).
  pose proof (afterUpdates_updates N s0 H0) as Hall.
  split; intros k Hk.
  - pose proof (Hall k) as (_ & HN & Hp & _).
    pose proof (Hall (S k)) as (_ & _ & Hp' & _).
    pose proof (afterUpdates_step N k _ (Hall k)) as (_ & Hb & _).
    repeat split.
    + rewrite Hb. apply Nat.ltb_lt. exact Hk.
    + lia.
    + lia.
    + unfold allGeometryLoaded. rewrite HN. apply Nat.leb_gt. lia.
  - pose proof (Hall k) as (_ & HN & Hp & _).
    pose proof (afterUpdates_step N k _ (Hall k)) as (_ & Hb & Hw).
    split; [|split].
    + unfold allGeometryLoaded. rewrite HN. apply Nat.leb_le. lia.
    + rewrite Hb. apply Nat.ltb_ge. exact Hk.
    + apply Hw. exact Hk.
Qed.

(** *** Sequences of operations *)

(** A property kept by every operation holds after any sequence of them. *)
Lemma runOps_invariant (P : Phased -> Prop) :
  (forall s, P s -> P (setDecodedTile s)) ->
  (forall s, P s -> P (snd (update s))) ->
  (forall s, P s -> P (dispose s)) ->
  (forall s d, P s -> P (setTileDecodedTile (Some d) (fst s), snd s)) ->
  forall ops s, P s -> P (runOps ops s).
Proof.
  intros Hset Hupd Hdis Hrcv ops. unfold PhasedSpec.runOps.
  induction ops as [|op ops IH]; intros s HP; simpl; [exact HP|].
  apply IH. destruct op; simpl; auto.
  apply updateToPhase_invariant; auto.
Qed.

Lemma update_effective (s : Phased) : update s = update (effective s).
Proof.
  destruct s as [t l]. unfold effective. cbn [fst snd].
  destruct (m_decodedTile l) eqn:Ed; [reflexivity|].
  destruct (decodedTile t) eqn:Et; [|reflexivity].
  rewrite (update_captures t l _ Ed Et). unfold setDecodedTile. rewrite Et. reflexivity.
Qed.

Lemma effective_steady (s : Phased) :
  m_decodedTile (snd (effective s)) <> None \/ decodedTile (fst (effective s)) = None.
Proof.
  destruct s as [t l]. unfold effective. cbn [fst snd].
  destruct (m_decodedTile l) eqn:Ed; [left; cbn; congruence|].
  destruct (decodedTile t) eqn:Et; [left; cbn; congruence | right; cbn; exact Et].
Qed.

Lemma phasesRecorded_reset phases basic (s : Phased) :
  phasesRecorded phases basic s -> phasesRecorded phases basic (setDecodedTile s).
Proof.
  destruct s as [t l]. unfold phasesRecorded, passedPhasesLoaded, currentPhase. cbn.
  intros (Hc & Hp & Hb & _). repeat split; auto. intros; lia.
Qed.

Lemma phasesRecorded_update phases basic (s : Phased) :
  phasesRecorded phases basic s -> phasesRecorded phases basic (snd (update s)).
Proof.
  intros H. rewrite update_effective.
  assert (He : phasesRecorded phases basic (effective s)).
  { unfold effective. destruct (m_decodedTile (snd s)); [exact H|].
    destruct (decodedTile (fst s)); [apply phasesRecorded_reset; exact H | exact H]. }
  pose proof (effective_steady s) as Hst.
  destruct (effective s) as [t l].
  destruct He as (Hc & Hp & Hb & Hpassed). unfold phasesRecorded.
  cbn [fst snd] in *.
  destruct (m_decodedTile l) as [d|] eqn:Ed.
  - destruct (le_lt_dec (numberOfPhases l) (currentPhase l)) as [Hge | Hlt].
    + rewrite (update_idle t l Hc) by (right; split; [congruence | exact Hge]).
      repeat split; auto.
    + destruct (update_builds t l d Hc Ed Hlt)
        as (s' & Hu & Hc' & Hph' & Hb' & Hcp' & Hk' & _).
      rewrite Hu. cbn [snd]. repeat split; [exact Hc' | congruence | congruence |].
      unfold passedPhasesLoaded in *. intros i phase k Hi Hlook Hin.
      rewrite Hk'. rewrite Hph' in Hlook. rewrite Hcp' in Hi.
      destruct (Nat.eq_dec i (currentPhase l)) as [-> | Hne].
      * rewrite Hlook. simpl. set_solver.
      * apply elem_of_union_r. eapply Hpassed; eauto. lia.
  - destruct Hst as [Hst | Hst]; [congruence|].
    rewrite (update_idle t l Hc) by (left; auto).
    repeat split; auto.
Qed.

Lemma phasesRecorded_runOps phases basic ops (s : Phased) :
  phasesRecorded phases basic s -> phasesRecorded phases basic (runOps ops s).
Proof.
  apply runOps_invariant.
  - apply phasesRecorded_reset.
  - apply phasesRecorded_update.
  - intros [t l] H. exact H.
  - intros [t l] d H. exact H.
Qed.

Lemma phasesRecorded_all_basic phases basic (s : Phased) :
  phasesCoverBasicKinds phases basic = true ->
  phasesRecorded phases basic s ->
  allGeometryLoaded (snd s) = true -> basicGeometryLoaded (snd s) = true.
Proof.
  intros Hcover (Hc & Hp & Hb & Hpassed) Hall.
  unfold basicGeometryLoaded. apply forallb_forall. intros k Hk.
  apply bool_decide_eq_true.
  unfold phasesCoverBasicKinds in Hcover.
  rewrite forallb_forall in Hcover. rewrite Hb in Hk.
  specialize (Hcover k Hk). apply existsb_exists in Hcover.
  destruct Hcover as (phase & Hin & Hkin). apply bool_decide_eq_true in Hkin.
  apply list_elem_of_In in Hin. apply list_elem_of_lookup in Hin.
  destruct Hin as (i & Hi).
  apply (Hpassed i phase k); [| rewrite Hp; exact Hi | exact Hkin].
  apply lookup_lt_Some in Hi.
  unfold allGeometryLoaded, numberOfPhases in Hall. apply Nat.leb_le in Hall.
  rewrite Hp in Hall. lia.
Qed.

(** C6, as amended: for a loader on a tile of a cacheable data source whose
    phases build every basic kind, after any sequence of setDecodedTile,
    update, updateToPhase and dispose (and of payloads arriving at the tile),
    allGeometryLoaded implies basicGeometryLoaded. *)
Theorem all_loaded_implies_basic_loaded (t : @Tile DecodedTile)
    (phases : list PhaseList) (basic : gset TileGeometryKind) (ops : list LoaderOp) :
  cacheable t = true ->
  phasesCoverBasicKinds phases basic = true ->
  let s := runOps ops (t, newPhasedTileGeometryLoader phases basic) in
  allGeometryLoaded (snd s) = true -> basicGeometryLoaded (snd s) = true.
Proof.
  intros Hc Hcover s. apply (phasesRecorded_all_basic phases basic); [exact Hcover|].
  apply phasesRecorded_runOps.
  unfold phasesRecorded, passedPhasesLoaded, currentPhase. cbn.
  repeat split; auto. intros; lia.
Qed.

Lemma nothingBuilt_update t0 (s : Phased) :
  nothingBuilt t0 s ->
  nothingBuilt t0 (snd (update s)) /\ fst (update s) = false /\
  allGeometryLoaded (snd (snd (update s))) = true /\
  isFinished (snd (snd (update s))) = isFinished (snd s).
Proof.
  destruct s as [t l]. unfold nothingBuilt. cbn [fst snd].
  intros (Hc & Hk & Ho).
  destruct (update_noncacheable t l Hc) as (l' & Hu & Hcp & _ & _ & Hfin & Hks).
  rewrite Hu. cbn [fst snd]. repeat split; auto.
  - destruct Hks as [-> | ->]; auto.
  - unfold allGeometryLoaded. rewrite Hcp. apply Nat.leb_refl.
Qed.

Lemma nothingBuilt_runOps t0 ops (s : Phased) :
  nothingBuilt t0 s -> nothingBuilt t0 (runOps ops s).
Proof.
  apply runOps_invariant.
  - intros [t l] (Hc & Hk & Ho). repeat split; auto.
  - intros s0 H. apply nothingBuilt_update. exact H.
  - intros [t l] H. exact H.
  - intros [t l] d H. exact H.
Qed.

End PhasedFacts.

End PhasedFacts.

(** ** PhasedTileGeometryManager *)

Module ManagerFacts.
Import Tiles PhasedTileGeometryLoader PhasedTileGeometryManager PhasedSpec ManagerSpec PhasedFacts.

Section ManagerFacts.

Context {DecodedTile : Type}.
Variable hasGeometry : list (@BackendCall DecodedTile) -> bool.

Local Abbreviation ManagedTile := (@ManagedTile DecodedTile).
Local Abbreviation update := (update hasGeometry).
Local Abbreviation updateToPhase := (updateToPhase hasGeometry).
Local Abbreviation runOps := (runOps hasGeometry).
Local Abbreviation updateTiles := (updateTiles hasGeometry).
Local Abbreviation updateTilesTogether := (updateTilesTogether hasGeometry).
Local Abbreviation updateTilesIfNeededLoop := (updateTilesIfNeededLoop hasGeometry).
Local Abbreviation staticFrames := (staticFrames hasGeometry).

(** On a tile of a non-cacheable data source [finish()] is never reached:
    the finished flag of a new loader stays unset. *)
Lemma noncacheable_never_finished t0 ops (s : @Phased DecodedTile) :
  nothingBuilt t0 s -> isFinished (snd s) = false ->
  nothingBuilt t0 (runOps ops s) /\ isFinished (snd (runOps ops s)) = false.
Proof.
  intros Hs Hf.
  apply (runOps_invariant hasGeometry
           (fun s => nothingBuilt t0 s /\ isFinished (snd s) = false)); [| | | |auto].
  - intros [t l] ((Hc & Hk & Ho) & Hfin). split; [repeat split; auto | exact Hfin].
  - intros s0 (H & Hfin).
    destruct (nothingBuilt_update hasGeometry t0 s0 H) as (Hn & _ & _ & Hsame).
    split; [exact Hn | congruence].
  - intros [t l] H. exact H.
  - intros [t l] d H. exact H.
Qed.

(** C5, as amended: on a tile of a non-cacheable data source, whatever was
    done to the loader since it was created, a single update() puts the
    cursor past the last phase: the call builds nothing and returns false,
    allGeometryLoaded is true, no geometry kind is recorded as loaded, and
    the manager's completion check counts the tile as finished. The loader's
    own isFinished stays false and the tile keeps its payload: update()
    returns before finish(). *)
Theorem noncacheable_update_skips_all_phases (t : @Tile DecodedTile)
    (phases : list PhaseList) (basic : gset TileGeometryKind) (ops : list LoaderOp) :
  cacheable t = false ->
  let s := runOps ops (t, newPhasedTileGeometryLoader phases basic) in
  let r := update s in
  fst r = false /\
  allGeometryLoaded (snd (snd r)) = true /\
  loadedKinds (snd (snd r)) = ∅ /\
  objects (fst (snd r)) = objects t /\
  checkTilesFinished [(fst (snd r), Some (snd (snd r)))] = true /\
  isFinished (snd (snd r)) = false /\
  decodedTile (fst (snd r)) = decodedTile (fst s).
Proof.
  intros Hc s r.
  assert (H0 : nothingBuilt t (t, newPhasedTileGeometryLoader phases basic))
    by (repeat split; auto).
  destruct (noncacheable_never_finished t ops _ H0 eq_refl) as (Hs & Hunfinished).
  destruct (nothingBuilt_update hasGeometry t _ Hs) as ((_ & Hk & Ho) & Hb & Hall & Hfin).
  fold s in Hk, Ho, Hb, Hall, Hfin, Hunfinished. fold r in Hk, Ho, Hb, Hall, Hfin.
  split; [exact Hb|]. split; [exact Hall|]. split; [exact Hk|]. split; [exact Ho|].
  split; [simpl; rewrite Hall; reflexivity|]. split; [congruence|].
  destruct Hs as (Hcs & _). fold s in Hcs.
  destruct s as [ts ls]. cbn [fst] in *.
  destruct (update_noncacheable hasGeometry ts ls Hcs) as (l' & Hu & _).
  unfold r. rewrite Hu. reflexivity.
Qed.

(** *** Static frames *)

Lemma lowestPhaseLoop_lower (tiles : list ManagedTile) acc low :
  lowestPhaseLoop acc tiles = Some low ->
  (forall a, acc = Some a -> low <= a) /\
  (forall t l, (t, Some l) ∈ tiles -> low <= currentPhase l).
Proof.
  revert acc. induction tiles as [|[t0 [l0|]] tiles IH]; intros acc Hlow; simpl in Hlow.
  - split.
    + intros a ->. injection Hlow as ->. lia.
    + intros t l Hin. inversion Hin.
  - assert (Hnext : exists acc', lowestPhaseLoop acc' tiles = Some low /\
                      (forall a, acc = Some a -> forall b, acc' = Some b -> b <= a) /\
                      (forall b, acc' = Some b -> b <= currentPhase l0) /\ acc' <> None).
    { destruct acc as [a|].
      - destruct (currentPhase l0 <? a) eqn:E.
        + apply Nat.ltb_lt in E. eexists; split; [exact Hlow|].
          repeat split; [intros ? [= <-] ? [= <-]; lia | intros ? [= <-]; lia | discriminate].
        + apply Nat.ltb_ge in E. eexists; split; [exact Hlow|].
          repeat split; [intros ? [= <-] ? [= <-]; lia | intros ? [= <-]; lia | discriminate].
      - eexists; split; [exact Hlow|].
        repeat split; [discriminate | intros ? [= <-]; lia | discriminate]. }
    destruct Hnext as (acc' & Hl & Hle & Hle0 & Hne).
    destruct (IH acc' Hl) as (Hacc & Hall).
    destruct acc' as [b|]; [|congruence].
    pose proof (Hacc b eq_refl) as Hb.
    split.
    + intros a Ha. specialize (Hle a Ha b eq_refl). lia.
    + intros t l Hin. apply elem_of_cons in Hin as [[= -> ->] | Hin].
      * specialize (Hle0 b eq_refl). lia.
      * eapply Hall; eauto.
  - destruct (IH acc Hlow) as (Hacc & Hall). split; [exact Hacc|].
    intros t l Hin. apply elem_of_cons in Hin as [Heq | Hin]; [discriminate|].
    eapply Hall; eauto.
Qed.

Lemma advanced_refl m low (mt : ManagedTile) : managedBy m mt -> advanced low mt mt.
Proof.
  intros (Hc & _). split; [exact Hc|]. destruct (snd mt); auto.
Qed.

Lemma advanced_managedBy m low (mt mt' : ManagedTile) :
  managedBy m mt -> advanced low mt mt' -> managedBy m mt'.
Proof.
  intros (Hc & Hp) (Hc' & Hrel). split; [exact Hc'|].
  intros l' Hl'. rewrite Hl' in Hrel.
  destruct (snd mt) as [l|]; [|contradiction].
  destruct Hrel as (Hph & _). rewrite Hph. apply Hp. reflexivity.
Qed.

Lemma advanced_all_managedBy m low (tiles tiles' : list ManagedTile) :
  Forall2 (advanced low) tiles tiles' ->
  Forall (managedBy m) tiles -> Forall (managedBy m) tiles'.
Proof.
  induction 1 as [|mt mt' ts ts' H1 Hrest IH]; intros Hm; constructor.
  - inversion Hm; subst. eapply advanced_managedBy; eauto.
  - inversion Hm; subst. apply IH; auto.
Qed.

Lemma updateTilesIfNeededLoop_advanced m mv low n (tiles : list ManagedTile) :
  Forall (managedBy m) tiles ->
  S low <= length (m_loadPhaseDefinitions m) ->
  Forall2 (advanced low) tiles (updateTilesIfNeededLoop m mv (S low) n tiles).
Proof.
  intros Hall Hlow. revert n.
  induction Hall as [|[t [l|]] tiles Hm Hall IH]; intros n; simpl.
  - constructor.
  - assert (Hrest : Forall2 (advanced low) tiles tiles).
    { clear IH. induction Hall; constructor; auto. eapply advanced_refl; eauto. }
    destruct Hm as (Hc & Hp). cbn [fst snd] in *.
    pose proof (updateToPhase_cursor hasGeometry (S low) t l Hc) as Hcur.
    cbn zeta in Hcur.
    destruct (updateToPhase (S low) (t, l)) as [b [t' l']].
    cbn [fst snd] in Hcur.
    assert (Hadv : advanced low (t, Some l) (t', Some l')).
    { destruct Hcur as (Hc' & Hph' & Hcp').
      - unfold numberOfPhases. rewrite (Hp l eq_refl). exact Hlow.
      - split; [exact Hc'|]. cbn [snd]. split; [exact Hph' | exact Hcp']. }
    destruct b.
    + destruct (isDynamicFrame mv && (0 <? m_maximumUpdatesPerFrame m)
                && (m_maximumUpdatesPerFrame m <=? S n)).
      * constructor; [exact Hadv | exact Hrest].
      * constructor; [exact Hadv | apply IH].
    + constructor; [exact Hadv | apply IH].
  - constructor; [|apply IH].
    apply (advanced_refl m). exact Hm.
Qed.

Lemma advanced_withinOne low (tiles tiles' : list ManagedTile) :
  Forall2 (advanced low) tiles tiles' ->
  (forall t l, (t, Some l) ∈ tiles -> low <= currentPhase l) ->
  phasesWithinOne tiles -> phasesWithinOne tiles'.
Proof.
  intros Hadv Hlow Hwithin.
  assert (Hback : forall t' l', (t', Some l') ∈ tiles' ->
            exists t l, (t, Some l) ∈ tiles /\
              (currentPhase l' = currentPhase l \/
               (currentPhase l < S low /\ currentPhase l' = S low))).
  { intros t' l' Hin. apply list_elem_of_lookup in Hin as (i & Hi).
    destruct (Forall2_lookup_r _ _ _ _ _ Hadv Hi) as ([t l] & Hi0 & (_ & Hrel)).
    cbn [snd] in Hrel. destruct l as [l|]; [|contradiction].
    exists t, l. split; [apply list_elem_of_lookup; eauto | tauto]. }
  intros t1 l1 t2 l2 H1 H2.
  destruct (Hback _ _ H1) as (u1 & k1 & Hu1 & Hr1).
  destruct (Hback _ _ H2) as (u2 & k2 & Hu2 & Hr2).
  pose proof (Hwithin _ _ _ _ Hu1 Hu2) as Hw.
  pose proof (Hlow _ _ Hu1) as Hl1. pose proof (Hlow _ _ Hu2) as Hl2.
  lia.
Qed.

Lemma static_frame_keeps m mv (tiles : list ManagedTile) :
  isDynamicFrame mv = false ->
  Forall (managedBy m) tiles -> phasesWithinOne tiles ->
  Forall (managedBy m) (fst (updateTiles m mv tiles)) /\
  phasesWithinOne (fst (updateTiles m mv tiles)).
Proof.
  intros Hstatic Hm Hw.
  assert (Hfst : fst (updateTiles m mv tiles) = updateTilesTogether m mv tiles).
  { unfold PhasedTileGeometryManager.updateTiles. rewrite Hstatic.
    destruct (negb _); reflexivity. }
  rewrite Hfst. unfold PhasedTileGeometryManager.updateTilesTogether.
  destruct (lowestPhaseLoop None tiles) as [low|] eqn:Elow; [|auto].
  destruct (low <? length (m_loadPhaseDefinitions m)) eqn:Elt; [|auto].
  apply Nat.ltb_lt in Elt.
  destruct (lowestPhaseLoop_lower tiles None low Elow) as (_ & Hlow).
  unfold updateTilesIfNeeded.
  pose proof (updateTilesIfNeededLoop_advanced m mv low 0 tiles Hm) as Hadv.
  specialize (Hadv ltac:(lia)).
  split.
  - eapply advanced_all_managedBy; eauto.
  - eapply advanced_withinOne; eauto.
Qed.

Lemma between_frames_keeps m (tiles tiles' : list ManagedTile) :
  Forall2 betweenFrames tiles tiles' ->
  Forall (managedBy m) tiles -> phasesWithinOne tiles ->
  Forall (managedBy m) tiles' /\ phasesWithinOne tiles'.
Proof.
  intros Hbetween Hm Hw. split.
  - clear Hw. revert Hm.
    induction Hbetween as [|mt mt' ts ts' (Hc & Hrel) Hrest IH]; intros Hm; constructor.
    + inversion Hm as [|? ? (Hc0 & Hp0) ?]; subst. split; [congruence|].
      intros l' Hl'. rewrite Hl' in Hrel. destruct (snd mt) as [l|]; [|contradiction].
      destruct Hrel as (-> & _). apply Hp0. reflexivity.
    + inversion Hm; subst. apply IH; auto.
  - assert (Hback : forall t' l', (t', Some l') ∈ tiles' ->
              exists t l, (t, Some l) ∈ tiles /\ currentPhase l' = currentPhase l).
    { intros t' l' Hin. apply list_elem_of_lookup in Hin as (i & Hi).
      destruct (Forall2_lookup_r _ _ _ _ _ Hbetween Hi) as ([t l] & Hi0 & (_ & Hrel)).
      cbn [snd] in Hrel. destruct l as [l|]; [|contradiction].
      exists t, l. split; [apply list_elem_of_lookup; eauto | tauto]. }
    intros t1 l1 t2 l2 H1 H2.
    destruct (Hback _ _ H1) as (u1 & k1 & Hu1 & Hr1).
    destruct (Hback _ _ H2) as (u2 & k2 & Hu2 & Hr2).
    pose proof (Hw _ _ _ _ Hu1 Hu2). lia.
Qed.

(** C1, as amended: in static mode, when the data source of every visible
    tile is cacheable, the loaders work on the manager's phases and their
    cursors start within one phase of each other (as fresh loaders do), then
    after every frame the highest currentPhase of the visible tiles minus the
    lowest is at most 1. *)
Theorem static_frames_keep_phases_within_one (m : Manager)
    (tiles tiles' : list ManagedTile) :
  Forall (managedBy m) tiles -> phasesWithinOne tiles ->
  staticFrames m tiles tiles' -> phasesWithinOne tiles'.
Proof.
  intros Hm Hw Hrun.
  assert (H : Forall (managedBy m) tiles' /\ phasesWithinOne tiles').
  { induction Hrun as [| tiles' mv Hrun IH Hstatic | tiles' tiles'' Hrun IH Hbetween].
    - auto.
    - destruct IH as (Hm' & Hw'). apply static_frame_keeps; auto.
    - destruct IH as (Hm' & Hw'). eapply between_frames_keeps; eauto. }
  apply H.
Qed.

(** Tiles the manager has just initialised start together. *)
Lemma initTile_starts_together m (ts : list (@Tile DecodedTile)) :
  Forall (fun t => cacheable t = true) ts ->
  Forall (managedBy m) (map (initTile m) ts) /\ phasesWithinOne (map (initTile m) ts).
Proof.
  intros Hc. split.
  - induction Hc; simpl; constructor; auto.
    split; [assumption|]. intros l0 [= <-]. reflexivity.
  - intros t1 l1 t2 l2 H1 H2.
    apply list_elem_of_fmap in H1 as (u1 & He1 & _).
    apply list_elem_of_fmap in H2 as (u2 & He2 & _).
    unfold initTile in *. injection He1 as _ ->. injection He2 as _ ->.
    cbn. lia.
Qed.

End ManagerFacts.

End ManagerFacts.

(** ** SimpleTileGeometryLoader *)

Module SimpleFacts.
Import Tiles SimpleTileGeometryLoader.

Section SimpleFacts.

Context {DecodedTile : Type}.

Local Abbreviation World := (@World DecodedTile).

Lemma getters_agree (l : @SimpleLoader DecodedTile) :
  basicGeometryLoaded l = isFinished l /\ allGeometryLoaded l = isFinished l.
Proof. split; reflexivity. Qed.

(** C10: the three getters of a SimpleTileGeometryLoader report the one
    finished flag, and the update() call that observes the tile's
    DecodedTile sets that flag before it returns: nothing has been built by
    then, the deferred build is still pending if the tile is visible and not
    disposed, and was not scheduled otherwise. *)
Theorem simple_update_sets_finished (w : World) (d : DecodedTile) :
  m_decodedTile (loader w) = None -> decodedTile (tile w) = Some d ->
  (forall l : @SimpleLoader DecodedTile,
     basicGeometryLoaded l = isFinished l /\ allGeometryLoaded l = isFinished l) /\
  isFinished (loader (update w)) = true /\
  basicGeometryLoaded (loader (update w)) = true /\
  allGeometryLoaded (loader (update w)) = true /\
  objects (tile (update w)) = objects (tile w) /\
  timers (update w)
    = (if disposed (tile w) || negb (isVisible (tile w)) then timers w
       else timers w ++ [d]).
Proof.
  intros Hl Ht. split; [apply getters_agree|].
  unfold update. rewrite Hl, Ht.
  unfold setDecodedTile, prepareForRender. cbn. rewrite Ht.
  destruct (disposed (tile w) || negb (isVisible (tile w))); cbn; auto.
Qed.

(** Once set, the finished flag stays set. *)
Lemma finished_is_kept (w : World) :
  isFinished (loader w) = true ->
  isFinished (loader (update w)) = true /\
  isFinished (loader (dispose w)) = true /\
  isFinished (loader (setDecodedTile w)) = true /\
  isFinished (loader (runTimer w)) = true.
Proof.
  intros Hf. unfold isFinished in *. repeat split.
  - unfold update. destruct (m_decodedTile (loader w)); [exact Hf|].
    destruct (decodedTile (tile w)); [reflexivity | exact Hf].
  - exact Hf.
  - exact Hf.
  - unfold runTimer. destruct (timers w); [exact Hf|].
    unfold deferredBuild. cbn. destruct (negb (isVisible (tile w))); cbn; auto.
Qed.

(** At build time an invisible tile is evicted and nothing is built. *)
Lemma deferred_build_invisible (d : DecodedTile) (w : World) :
  isVisible (tile w) = false ->
  objects (tile (deferredBuild d w)) = objects (tile w) /\
  disposeTileCalls (deferredBuild d w) = S (disposeTileCalls w) /\
  loader (deferredBuild d w) = loader w.
Proof.
  intros Hv. unfold deferredBuild. rewrite Hv. cbn. auto.
Qed.

(** At build time a visible tile is built, disposed or not. *)
Lemma deferred_build_visible (d : DecodedTile) (w : World) :
  isVisible (tile w) = true ->
  objects (tile (deferredBuild d w)) = objects (tile w) ++ [CreateAllGeometries d].
Proof.
  intros Hv. unfold deferredBuild. rewrite Hv. cbn. reflexivity.
Qed.

(** C9 at a tile that is disposed of between update() and the deferred
    build: update() schedules the build for a visible tile; the tile and the
    loader are then disposed of while the tile stays visible; the deferred
    step still creates all geometries for the disposed tile. *)
Theorem deferred_build_runs_on_disposed_tile (d : DecodedTile) :
  let w0 : World := mkWorld (mkTile (Some d) false true true [])
                            newSimpleTileGeometryLoader [] 0 0 in
  let w1 := update w0 in
  let w2 := dispose (withTile (setDisposed true (tile w1)) w1) in
  let w3 := runTimer w2 in
  timers w1 = [d] /\
  disposed (tile w2) = true /\ isVisible (tile w2) = true /\
  objects (tile w3) = [CreateAllGeometries d] /\
  disposeTileCalls w3 = 0.
Proof. cbn. repeat split. Qed.

End SimpleFacts.

End SimpleFacts.

(** ** The statements at concrete tiles *)

Module TileExamples.
Import Tiles PhasedTileGeometryLoader PhasedTileGeometryManager.
Import PhasedSpec ManagerSpec TileSamples.

(** A tile of a non-cacheable data source next to one of a cacheable data
    source, both fresh from [initTile]: after one frame in static mode the
    first loader is at phase 5 and the second at phase 1. *)
Lemma static_frame_noncacheable_runs_ahead :
  ~ phasesWithinOne (fst (updateTiles hasGeometry manager staticView mixedTiles)).
Proof.
  intros H.
  set (tiles' := fst (updateTiles hasGeometry manager staticView mixedTiles)) in *.
  assert (E0 : (fun mt : @ManagedTile nat => currentPhase <$> snd mt) <$> tiles' !! 0
               = Some (Some 5)) by (vm_compute; reflexivity).
  assert (E1 : (fun mt : @ManagedTile nat => currentPhase <$> snd mt) <$> tiles' !! 1
               = Some (Some 1)) by (vm_compute; reflexivity).
  destruct (tiles' !! 0) as [[t0 [l0|]]|] eqn:L0; try discriminate.
  destruct (tiles' !! 1) as [[t1 [l1|]]|] eqn:L1; try discriminate.
  cbn in E0, E1. injection E0 as E0. injection E1 as E1.
  assert (H0 : (t0, Some l0) ∈ tiles') by (apply list_elem_of_lookup; eauto).
  assert (H1 : (t1, Some l1) ∈ tiles') by (apply list_elem_of_lookup; eauto).
  specialize (H t0 l0 t1 l1 H0 H1). lia.
Qed.

(** A fresh loader of the default plan on a tile of a non-cacheable data
    source: after one update() allGeometryLoaded is true and
    basicGeometryLoaded is false. *)
Lemma noncacheable_all_loaded_without_basic :
  let s := snd (update hasGeometry
                  (nonCacheableTile,
                   newPhasedTileGeometryLoader DefaultPhases DefaultBasicGeometryKinds)) in
  allGeometryLoaded (snd s) = true /\ basicGeometryLoaded (snd s) = false.
Proof. vm_compute. split; reflexivity. Qed.

Lemma update_drives_all_phases_witness :
  let s0 := (cacheableTile,
             newPhasedTileGeometryLoader DefaultPhases DefaultBasicGeometryKinds) in
  (decodedTile cacheableTile = Some 7 /\ cacheable cacheableTile = true) /\
  fst (update hasGeometry (updates hasGeometry 4 s0)) = true /\
  allGeometryLoaded (snd (updates hasGeometry 4 s0)) = false /\
  allGeometryLoaded (snd (updates hasGeometry 5 s0)) = true /\
  fst (update hasGeometry (updates hasGeometry 5 s0)) = false.
Proof.
  intros s0. split; [split; reflexivity|].
  destruct (PhasedFacts.update_drives_all_phases hasGeometry cacheableTile 7
              DefaultPhases DefaultBasicGeometryKinds eq_refl eq_refl) as [Hfirst Hlater].
  destruct (Hfirst 4) as (H1 & _ & _ & H2); [simpl; lia|].
  destruct (Hlater 5) as (H3 & H4 & _); [simpl; lia|].
  repeat split; assumption.
Defined.

(** A fresh loader of the default plan on a tile of a non-cacheable data
    source: after one update() allGeometryLoaded is true, yet the loader does
    not report itself finished and the tile still holds its payload. *)
Lemma noncacheable_update_leaves_unfinished :
  let s := snd (update hasGeometry
                  (nonCacheableTile,
                   newPhasedTileGeometryLoader DefaultPhases DefaultBasicGeometryKinds)) in
  allGeometryLoaded (snd s) = true /\ isFinished (snd s) = false /\
  decodedTile (fst s) = Some 3.
Proof. vm_compute. repeat split; reflexivity. Qed.

Lemma noncacheable_update_skips_all_phases_witness :
  let s := runOps hasGeometry [OpUpdate; TileReceives 9; OpUpdateToPhase 3]
             (nonCacheableTile,
              newPhasedTileGeometryLoader DefaultPhases DefaultBasicGeometryKinds) in
  cacheable nonCacheableTile = false /\
  allGeometryLoaded (snd (snd (update hasGeometry s))) = true /\
  loadedKinds (snd (snd (update hasGeometry s))) = ∅ /\
  isFinished (snd (snd (update hasGeometry s))) = false.
Proof.
  intros s. split; [reflexivity|].
  destruct (ManagerFacts.noncacheable_update_skips_all_phases hasGeometry nonCacheableTile
              DefaultPhases DefaultBasicGeometryKinds
              [OpUpdate; TileReceives 9; OpUpdateToPhase 3] eq_refl)
    as (_ & Hall & Hkinds & _ & _ & Hunfinished & _).
  split; [exact Hall | split; [exact Hkinds | exact Hunfinished]].
Defined.

Lemma all_loaded_implies_basic_loaded_witness :
  let s := runOps hasGeometry [OpDispose; OpUpdate; OpUpdateToPhase 4; OpUpdate]
             (cacheableTile,
              newPhasedTileGeometryLoader DefaultPhases DefaultBasicGeometryKinds) in
  (cacheable cacheableTile = true /\
   phasesCoverBasicKinds DefaultPhases DefaultBasicGeometryKinds = true) /\
  allGeometryLoaded (snd s) = true /\ basicGeometryLoaded (snd s) = true.
Proof.
  intros s.
  assert (Hcover : phasesCoverBasicKinds DefaultPhases DefaultBasicGeometryKinds = true)
    by (vm_compute; reflexivity).
  assert (Hall : allGeometryLoaded (snd s) = true) by (vm_compute; reflexivity).
  split; [split; [reflexivity | exact Hcover]|].
  split; [exact Hall|].
  exact (PhasedFacts.all_loaded_implies_basic_loaded hasGeometry cacheableTile
           DefaultPhases DefaultBasicGeometryKinds
           [OpDispose; OpUpdate; OpUpdateToPhase 4; OpUpdate]
           eq_refl Hcover Hall).
Defined.

Lemma static_frames_keep_phases_within_one_witness :
  Forall (managedBy manager) cacheableTiles /\
  phasesWithinOne cacheableTiles /\
  phasesWithinOne (fst (updateTiles hasGeometry manager staticView
     (fst (updateTiles hasGeometry manager staticView cacheableTiles)))).
Proof.
  assert (Hstart : Forall (managedBy manager) cacheableTiles /\ phasesWithinOne cacheableTiles).
  { apply ManagerFacts.initTile_starts_together. repeat constructor. }
  destruct Hstart as [Hm Hw].
  split; [exact Hm|]. split; [exact Hw|].
  apply (ManagerFacts.static_frames_keep_phases_within_one hasGeometry manager
           cacheableTiles _ Hm Hw).
  apply staticFrames_frame; [|reflexivity].
  apply staticFrames_frame; [|reflexivity].
  apply staticFrames_start.
Defined.

Lemma simple_update_sets_finished_witness :
  let w := SimpleTileGeometryLoader.mkWorld cacheableTile
             SimpleTileGeometryLoader.newSimpleTileGeometryLoader [] 0 0 in
  (SimpleTileGeometryLoader.m_decodedTile (SimpleTileGeometryLoader.loader w) = None /\
   decodedTile (SimpleTileGeometryLoader.tile w) = Some 7) /\
  SimpleTileGeometryLoader.isFinished
    (SimpleTileGeometryLoader.loader (SimpleTileGeometryLoader.update w)) = true /\
  SimpleTileGeometryLoader.timers (SimpleTileGeometryLoader.update w) = [7].
Proof.
  intros w. split; [split; reflexivity|].
  destruct (SimpleFacts.simple_update_sets_finished w 7 eq_refl eq_refl)
    as (_ & Hfin & _ & _ & _ & Htimers).
  split; [exact Hfin | exact Htimers].
Defined.

End TileExamples.

(** ** StyleSetEvaluator: the constructor *)

Module RenderOrderFacts.
Import InterpolatedProperties StyleSetEvaluator StyleSetSpec.

Section RenderOrderFacts.

Context {Expr : Type}.

Local Abbreviation Style := (@Style Expr).
Local Abbreviation StyleData := (@StyleData Expr).

(** Induction over a style tree. *)
Lemma Style_induction (P : Style -> Prop) :
  (forall d, P (mkStyle d None)) ->
  (forall d children, Forall P children -> P (mkStyle d (Some children))) ->
  forall s, P s.
Proof.
  intros Hleaf Hnode.
  fix IH 1. intros [d [children|]].
  - apply Hnode. induction children as [|c children IHc]; constructor; [apply IH | exact IHc].
  - apply Hleaf.
Qed.

(** The loop over the child styles is the loop over a style set. *)
Lemma computeDefaultRenderOrder_node (d : StyleData) children st :
  computeDefaultRenderOrder (mkStyle d (Some children)) st
  = (let '(d, st) := biasGroupRenderOrder d st in
     let '(children, st) := computeDefaultRenderOrders children st in
     (mkStyle d (Some children), st)).
Proof.
  simpl. destruct (biasGroupRenderOrder d st) as [d1 st1].
  assert (Heq : forall cs st0,
    (fix eachStyle (children : list Style) (st : RenderOrderState) {struct children}
        : list Style * RenderOrderState :=
        match children with
        | [] => ([], st)
        | currStyle :: rest =>
          let '(currStyle, st) := computeDefaultRenderOrder currStyle st in
          let '(rest, st) := eachStyle rest st in
          (currStyle :: rest, st)
        end) cs st0 = computeDefaultRenderOrders cs st0).
  { induction cs as [|c cs IHcs]; intros st0; simpl; [reflexivity|].
    destruct (computeDefaultRenderOrder c st0) as [c' st']. rewrite IHcs. reflexivity. }
  rewrite Heq. reflexivity.
Qed.

Lemma computeDefaultRenderOrder_leaf (d : StyleData) st :
  computeDefaultRenderOrder (mkStyle d None) st
  = (let '(d, st) := biasGroupRenderOrder d st in
     let '(d, st) := autoRenderOrder d st in
     (mkStyle d None, st)).
Proof. reflexivity. Qed.





(** The step for a leaf. *)
Lemma autoRenderOrder_spec (d : StyleData) st :
  let r := autoRenderOrder d st in
  renderOrderBiasGroups (snd r) = renderOrderBiasGroups st /\
  renderOrder (fst r) = renderOrder d /\
  renderOrderBiasGroup (fst r) = renderOrderBiasGroup d /\
  renderOrderBiasRange (fst r) = renderOrderBiasRange d /\
  takesAutoOrder (fst r) = takesAutoOrder d /\
  (if takesAutoOrder d
   then renderOrderAuto (fst r) = Some (techniqueRenderOrder st) /\
        techniqueRenderOrder (snd r) = (techniqueRenderOrder st + 1)%Z
   else r = (d, st)).
Proof.
  unfold autoRenderOrder, takesAutoOrder, renderOrderAuto.
  destruct (technique d) as [name|] eqn:Etech; cbn; [|rewrite Etech; auto 10].
  destruct (attr d) as [a|] eqn:Eattr; cbn; [|rewrite Etech, Eattr; auto 10].
  destruct (a !! "renderOrder"%string) as [v|] eqn:Ero; cbn.
  - rewrite Etech, Eattr, Ero. rewrite bool_decide_eq_false_2 by discriminate. auto 10.
  - rewrite Etech. rewrite lookup_insert_ne by discriminate. rewrite Ero.
    rewrite bool_decide_eq_true_2 by reflexivity.
    rewrite lookup_insert_eq. auto 10.
Qed.









(** *** Bias groups in document order *)









(** The constructor leaves every [_index] as it is. *)
Lemma biasGroupRenderOrder_index (d : StyleData) st :
  _index (fst (biasGroupRenderOrder d st)) = _index d.
Proof.
  unfold biasGroupRenderOrder.
  destruct (renderOrderBiasGroup d) as [group|]; [|reflexivity].
  destruct (renderOrderBiasRange d) as [[minRange maxRange]|];
    destruct (if bool_decide (group = ""%string) then None
              else renderOrderBiasGroups st !! group) as [order|];
    try reflexivity; destruct (order =? 0)%Z; reflexivity.
Qed.

Lemma autoRenderOrder_index (d : StyleData) st :
  _index (fst (autoRenderOrder d st)) = _index d.
Proof.
  unfold autoRenderOrder.
  destruct (technique d); [|reflexivity]. destruct (attr d) as [a|]; [|reflexivity].
  destruct (a !! "renderOrder"%string); reflexivity.
Qed.

Lemma computeDefaultRenderOrders_index_each (ss : list Style) :
  Forall (fun s => forall st,
            map _index (allStyles (fst (computeDefaultRenderOrder s st)))
            = map _index (allStyles s)) ss ->
  forall st,
    map _index (flat_map allStyles (fst (computeDefaultRenderOrders ss st)))
    = map _index (flat_map allStyles ss).
Proof.
  induction 1 as [|s ss Hs Hss IH]; intros st; simpl; [reflexivity|].
  specialize (Hs st). destruct (computeDefaultRenderOrder s st) as [s' st1].
  specialize (IH st1). destruct (computeDefaultRenderOrders ss st1) as [ss' st2].
  cbn [fst] in *. cbn [flat_map]. rewrite !map_app. congruence.
Qed.

Lemma computeDefaultRenderOrder_index (s : Style) :
  forall st,
    map _index (allStyles (fst (computeDefaultRenderOrder s st)))
    = map _index (allStyles s).
Proof.
  induction s as [d | d children IH] using Style_induction; intros st.
  - rewrite computeDefaultRenderOrder_leaf.
    pose proof (biasGroupRenderOrder_index d st) as Hb.
    destruct (biasGroupRenderOrder d st) as [d1 st1].
    pose proof (autoRenderOrder_index d1 st1) as Ha.
    destruct (autoRenderOrder d1 st1) as [d2 st2]. cbn in *. congruence.
  - rewrite computeDefaultRenderOrder_node.
    pose proof (biasGroupRenderOrder_index d st) as Hb.
    destruct (biasGroupRenderOrder d st) as [d1 st1].
    pose proof (computeDefaultRenderOrders_index_each children IH st1) as Hc.
    destruct (computeDefaultRenderOrders children st1) as [children' st2].
    cbn in *. congruence.
Qed.

Lemma newStyleSetEvaluator_unindexed (ss : list Style) validate :
  unindexed ss = true ->
  indexesBelow (length (m_techniques (newStyleSetEvaluator ss validate)))
               (styleSet (newStyleSetEvaluator ss validate)).
Proof.
  intros Hun. unfold newStyleSetEvaluator.
  pose proof (computeDefaultRenderOrders_index_each ss
                ltac:(apply Forall_forall; intros s _; apply computeDefaultRenderOrder_index)
                (mkRenderOrderState 0%Z ∅)) as Hidx.
  destruct (computeDefaultRenderOrders ss (mkRenderOrderState 0%Z ∅)) as [ss' st'].
  cbn [fst styleSet m_techniques] in *.
  unfold unindexed in Hun. rewrite forallb_forall in Hun.
  unfold indexesBelow. apply Forall_forall. intros d Hd i Hi.
  assert (Hin : In (_index d) (map _index (flat_map allStyles ss')))
    by (apply in_map, list_elem_of_In; exact Hd).
  rewrite Hidx in Hin. apply in_map_iff in Hin as (d0 & Hd0 & Hin0).
  specialize (Hun d0 Hin0). apply bool_decide_eq_true in Hun. congruence.
Qed.

End RenderOrderFacts.

End RenderOrderFacts.

(** ** Interpolated properties *)

Module InterpolatedFacts.
Import InterpolatedProperties InterpolatedSpec.

(** *** [removeDuplicatePropertyValues] *)

Lemma length_spliceOne {A : Type} (start : Z) (l : list A) :
  (start < Z.of_nat (length l))%Z -> l <> [] ->
  length (spliceOne start l) = length l - 1.
Proof.
  intros Hlt Hne. unfold spliceOne.
  assert (Hpos : 0 < length l) by (destruct l; [congruence | simpl; lia]).
  set (k := Z.to_nat (if (start <? 0)%Z
                      then Z.max (Z.of_nat (length l) + start) 0
                      else Z.min start (Z.of_nat (length l)))).
  assert (Hk : k < length l).
  { unfold k. destruct (start <? 0)%Z eqn:E.
    - apply Z.ltb_lt in E. lia.
    - apply Z.ltb_ge in E. lia. }
  rewrite length_app, length_take, length_drop. lia.
Qed.

Lemma valuesLength_spliceOne (start : Z) (v : PropertyValues) :
  (start < Z.of_nat (valuesLength v))%Z -> 0 < valuesLength v ->
  valuesLength (valuesSpliceOne start v) = valuesLength v - 1.
Proof.
  destruct v as [l | l | l]; simpl; intros Hlt Hpos;
    apply length_spliceOne; try exact Hlt; destruct l; simpl in *; (congruence || lia).
Qed.

Lemma findIndexFrom_undefined from (l : list Z) : findIndexFrom from None l = (-1)%Z.
Proof. revert from. induction l as [|a l IH]; intros from; simpl; auto. Qed.

(** The bound on the iterations is never hit. *)
Lemma removeDuplicatesLoop_total fuel i (p : InterpolatedPropertyDefinition) :
  (-1 <= i)%Z -> (2 * Z.of_nat (valuesLength (values p)) - i < Z.of_nat fuel)%Z ->
  exists r, removeDuplicatesLoop fuel i p = Some r.
Proof.
  revert i p. induction fuel as [|fuel IH]; intros i p Hi Hfuel.
  - simpl. destruct (i <? Z.of_nat (valuesLength (values p)))%Z eqn:E; [|eauto].
    apply Z.ltb_lt in E. lia.
  - simpl. destruct (i <? Z.of_nat (valuesLength (values p)))%Z eqn:E; [|eauto].
    apply Z.ltb_lt in E.
    destruct (findIndex (at_ (zoomLevels p) i) (zoomLevels p) =? i)%Z eqn:Edup.
    + apply IH; lia.
    + assert (Hi0 : (0 <= i)%Z).
      { destruct (Z.eq_dec i (-1)%Z) as [-> | Hne]; [|lia].
        unfold at_, findIndex in Edup. simpl in Edup.
        rewrite findIndexFrom_undefined in Edup. discriminate. }
      apply IH; [lia|]. cbn [values].
      rewrite valuesLength_spliceOne by lia. lia.
Qed.

Lemma removeDuplicates_total (p : InterpolatedPropertyDefinition) :
  exists r, removeDuplicatesLoop (removeDuplicatesFuel p) 0%Z p = Some r.
Proof. apply removeDuplicatesLoop_total; unfold removeDuplicatesFuel; lia. Qed.

(** Without duplicates every zoom level is found at its own position. *)
Lemma findIndexFrom_NoDup from (l : list Z) i v :
  NoDup l -> l !! i = Some v ->
  findIndexFrom from (Some v) l = (from + Z.of_nat i)%Z.
Proof.
  intros Hnd. revert from i. induction Hnd as [|a l Hnotin Hnd IH]; intros from i Hi.
  - discriminate.
  - simpl. destruct i as [|i]; simpl in Hi.
    + injection Hi as ->. rewrite Z.eqb_refl. lia.
    + destruct (a =? v)%Z eqn:E.
      * apply Z.eqb_eq in E. subst a. exfalso. apply Hnotin.
        apply list_elem_of_lookup. eauto.
      * rewrite (IH _ i Hi). lia.
Qed.

Lemma removeDuplicatesLoop_NoDup fuel i (p : InterpolatedPropertyDefinition) :
  NoDup (zoomLevels p) -> length (zoomLevels p) = valuesLength (values p) ->
  i <= valuesLength (values p) -> valuesLength (values p) - i < fuel ->
  removeDuplicatesLoop fuel (Z.of_nat i) p = Some p.
Proof.
  intros Hnd Hlen. revert i. induction fuel as [|fuel IH]; intros i Hi Hfuel; [lia|].
  simpl. destruct (Z.of_nat i <? Z.of_nat (valuesLength (values p)))%Z eqn:E; [|reflexivity].
  apply Z.ltb_lt in E.
  destruct (lookup_lt_is_Some_2 (zoomLevels p) i ltac:(lia)) as [v Hv].
  unfold at_, findIndex.
  replace (Z.of_nat i <? 0)%Z with false by (symmetry; apply Z.ltb_ge; lia).
  rewrite Nat2Z.id, Hv. rewrite (findIndexFrom_NoDup 0 _ i v Hnd Hv).
  rewrite Z.add_0_l, Z.eqb_refl.
  replace (Z.of_nat i + 1)%Z with (Z.of_nat (S i)) by lia.
  apply IH; lia.
Qed.

(** A definition with one value per zoom level and no zoom level twice is
    left as it is. *)
Lemma removeDuplicates_NoDup (p : InterpolatedPropertyDefinition) :
  NoDup (zoomLevels p) -> length (zoomLevels p) = valuesLength (values p) ->
  removeDuplicatePropertyValues p = p.
Proof.
  intros Hnd Hlen. unfold removeDuplicatePropertyValues.
  rewrite (removeDuplicatesLoop_NoDup _ 0 p Hnd Hlen); [reflexivity | lia |].
  unfold removeDuplicatesFuel. lia.
Qed.

(** [findIndex] finds the first occurrence. *)
Lemma findIndexFrom_first from (l : list Z) i v :
  l !! i = Some v ->
  exists f, findIndexFrom from (Some v) l = (from + Z.of_nat f)%Z /\
    f <= i /\ l !! f = Some v /\ v ∉ take f l.
Proof.
  revert from i. induction l as [|a l IH]; intros from i Hi; [discriminate|].
  simpl. destruct (a =? v)%Z eqn:E.
  - apply Z.eqb_eq in E. subst a. exists 0. simpl.
    repeat split; [lia | lia | apply not_elem_of_nil].
  - apply Z.eqb_neq in E. destruct i as [|i]; simpl in Hi; [congruence|].
    destruct (IH (from + 1)%Z i Hi) as (f & Hf & Hle & Hlook & Hnotin).
    exists (S f). simpl. repeat split; [lia | lia | exact Hlook |].
    intros Hin. apply elem_of_cons in Hin as [-> | Hin]; [congruence | contradiction].
Qed.

Lemma spliceOne_at {A : Type} k (l : list A) :
  k < length l -> spliceOne (Z.of_nat k) l = take k l ++ drop (S k) l.
Proof.
  intros Hk. unfold spliceOne.
  replace (Z.of_nat k <? 0)%Z with false by (symmetry; apply Z.ltb_ge; lia).
  rewrite Z.min_l by lia. rewrite Nat2Z.id. reflexivity.
Qed.

(** For a definition with one value per zoom level the loop ends with
    pairwise distinct zoom levels and, still, one value per zoom level. *)
Lemma removeDuplicatesLoop_distinct fuel :
  forall i (p r : InterpolatedPropertyDefinition),
    length (zoomLevels p) = valuesLength (values p) ->
    NoDup (take i (zoomLevels p)) ->
    removeDuplicatesLoop fuel (Z.of_nat i) p = Some r ->
    NoDup (zoomLevels r) /\ length (zoomLevels r) = valuesLength (values r).
Proof.
  induction fuel as [|fuel IH]; intros i p r Hlen Hnd; simpl.
  - destruct (Z.of_nat i <? Z.of_nat (valuesLength (values p)))%Z eqn:E; [discriminate|].
    apply Z.ltb_ge in E. intros [= <-]. split; [|exact Hlen].
    rewrite take_ge in Hnd by lia. exact Hnd.
  - destruct (Z.of_nat i <? Z.of_nat (valuesLength (values p)))%Z eqn:E.
    2:{ apply Z.ltb_ge in E. intros [= <-]. split; [|exact Hlen].
        rewrite take_ge in Hnd by lia. exact Hnd. }
    apply Z.ltb_lt in E.
    destruct (lookup_lt_is_Some_2 (zoomLevels p) i ltac:(lia)) as [v Hv].
    unfold at_, findIndex.
    replace (Z.of_nat i <? 0)%Z with false by (symmetry; apply Z.ltb_ge; lia).
    rewrite Nat2Z.id, Hv.
    destruct (findIndexFrom_first 0 _ i v Hv) as (f & Hf & Hle & Hlook & Hnotin).
    rewrite Hf, Z.add_0_l.
    destruct (Z.of_nat f =? Z.of_nat i)%Z eqn:Edup.
    + apply Z.eqb_eq in Edup. assert (f = i) by lia. subst f.
      replace (Z.of_nat i + 1)%Z with (Z.of_nat (S i)) by lia.
      apply IH; [exact Hlen|].
      rewrite (take_S_r _ _ _ Hv). apply NoDup_app. split; [exact Hnd|].
      split; [|apply NoDup_singleton].
      intros x Hx Hx'. apply list_elem_of_singleton in Hx'. subst x. contradiction.
    + apply Z.eqb_neq in Edup. assert (Hf_lt : f < i) by lia.
      destruct i as [|k]; [lia|].
      replace (Z.of_nat (S k) - 1)%Z with (Z.of_nat k) by lia.
      replace (Z.of_nat k - 1 + 1)%Z with (Z.of_nat k) by lia.
      rewrite spliceOne_at by lia. cbn [zoomLevels values interpolation].
      apply IH; cbn [zoomLevels values].
      * rewrite length_app, length_take, length_drop.
        rewrite valuesLength_spliceOne by lia. lia.
      * rewrite take_app_le by (rewrite length_take; lia).
        rewrite take_take.
        replace (take (k `min` k) (zoomLevels p))
          with (take k (take (S k) (zoomLevels p)))
          by (rewrite take_take; f_equal; lia).
        apply NoDup_ListNoDup. apply NoDup_ListNoDup in Hnd.
        revert Hnd. generalize (take (S k) (zoomLevels p)). clear.
        intros l Hnd. rewrite <- (take_drop k l) in Hnd.
        apply List.NoDup_app_remove_r in Hnd. exact Hnd.
Qed.

Lemma removeDuplicates_distinct (p : InterpolatedPropertyDefinition) :
  length (zoomLevels p) = valuesLength (values p) ->
  NoDup (zoomLevels (removeDuplicatePropertyValues p)) /\
  length (zoomLevels (removeDuplicatePropertyValues p))
  = valuesLength (values (removeDuplicatePropertyValues p)).
Proof.
  intros Hlen. unfold removeDuplicatePropertyValues.
  destruct (removeDuplicates_total p) as [r Hr]. rewrite Hr.
  apply (removeDuplicatesLoop_distinct (removeDuplicatesFuel p) 0 p r Hlen);
    [constructor | exact Hr].
Qed.

(** C7 at zoom levels 1, 2, 2 with the values 10, 20, 30: the duplicate of
    zoom level 2 is found at position 2, but the zoom level at position 1
    and the value at position 0 are removed. Zoom level 1 is left with the
    value 20 and zoom level 2 with the value 30 of its second occurrence;
    the value 10 of the first occurrence of zoom level 1 is lost. *)
Theorem duplicate_removal_drops_wrong_value (numberInt32 : string -> Z) :
  let p := mkDefinition None [1; 2; 2]%Z (NumberValues [10; 20; 30]%Z) in
  removeDuplicatePropertyValues p = mkDefinition None [1; 2]%Z (NumberValues [20; 30]%Z) /\
  zoomLevelKeys (fst (createInterpolatedProperty numberInt32 p)) = [1; 2]%Z /\
  sampledValues (fst (createInterpolatedProperty numberInt32 p))
    = [F32 (inject_Z 20); F32 (inject_Z 30)].
Proof. repeat split. Qed.

(** *** The color loops of [createInterpolatedProperty] *)

Section Colors.

Variable numberInt32 : string -> Z.

Local Abbreviation channels := (channels numberInt32).
Local Abbreviation writeColors := (writeColors numberInt32).

Lemma length_channels color : length (channels color) = 3.
Proof. reflexivity. Qed.

(** What a run of writes leaves at position [p]. *)
Lemma fold_writes_lookup (f : nat -> Float32) base m :
  forall a (pv : list Float32) p,
    fold_left (fun pv j => <[base + j := f j]> pv) (seq a m) pv !! p
    = if bool_decide (base + a <= p < base + a + m /\ p < length pv)
      then Some (f (p - base)) else pv !! p.
Proof.
  induction m as [|m IH]; intros a pv p; simpl.
  - rewrite bool_decide_eq_false_2 by lia. reflexivity.
  - rewrite IH, length_insert.
    destruct (decide (p = base + a)) as [-> | Hne].
    + rewrite bool_decide_eq_false_2 by lia.
      case_bool_decide as Hin.
      * rewrite list_lookup_insert_eq by lia. f_equal. f_equal. lia.
      * rewrite !(lookup_ge_None_2) by (rewrite ?length_insert; lia). reflexivity.
    + rewrite list_lookup_insert_ne by lia.
      case_bool_decide as H1; case_bool_decide as H2; try reflexivity; lia.
Qed.

Lemma length_fold_writes (f : nat -> Float32) base js :
  forall pv : list Float32,
    length (fold_left (fun pv j => <[base + j := f j]> pv) js pv) = length pv.
Proof.
  induction js as [|j js IH]; intros pv; simpl; [reflexivity|].
  rewrite IH. apply length_insert.
Qed.

Lemma length_writeChannels n i cs pv : length (writeChannels n i cs pv) = length pv.
Proof. apply length_fold_writes. Qed.

(** The writes for color [i] put its three channels in place and leave
    what is before them; what they put behind is overwritten later. *)
Lemma writeChannels_take n i (cs pv : list Float32) :
  i < n -> length pv = n * 3 -> length cs = 3 ->
  take (S i * 3) (writeChannels n i cs pv) = take (i * 3) pv ++ cs.
Proof.
  intros Hi Hlen Hcs. apply list_eq. intros p.
  destruct (le_lt_dec (S i * 3) p) as [Hge | Hlt].
  - rewrite lookup_take_ge by exact Hge. symmetry. apply lookup_ge_None_2.
    rewrite length_app, length_take. lia.
  - rewrite lookup_take_lt by exact Hlt.
    unfold writeChannels. rewrite fold_writes_lookup.
    destruct (le_lt_dec (i * 3) p) as [Hmid | Hlow].
    + rewrite bool_decide_eq_true_2 by lia.
      rewrite lookup_app_r by (rewrite length_take; lia).
      rewrite length_take. replace (p - (i * 3) `min` length pv) with (p - i * 3) by lia.
      unfold channelAt.
      destruct (lookup_lt_is_Some_2 cs (p - i * 3) ltac:(lia)) as [c Hc].
      rewrite Hc. reflexivity.
    + rewrite bool_decide_eq_false_2 by lia.
      rewrite lookup_app_l by (rewrite length_take; lia).
      rewrite lookup_take_lt by exact Hlow. reflexivity.
Qed.

Lemma writeColors_spec n colors :
  forall i (pv : list Float32),
    length pv = n * 3 -> i + length colors = n ->
    writeColors n i colors pv = take (i * 3) pv ++ flat_map channels colors.
Proof.
  induction colors as [|color colors IH]; intros i pv Hlen Hn; simpl.
  - rewrite app_nil_r. symmetry. apply take_ge. simpl in Hn. lia.
  - simpl in Hn. rewrite IH by (rewrite ?length_writeChannels; lia).
    rewrite writeChannels_take by (auto; lia).
    rewrite <- app_assoc. reflexivity.
Qed.

Lemma channels_unitInterval color : Forall unitInterval (channels color).
Proof.
  assert (Hbyte : forall x, (0 <= Z.land x 255 <= 255)%Z).
  { intros x. change 255%Z with (Z.ones 8). rewrite Z.land_ones by lia.
    pose proof (Z.mod_pos_bound x (2 ^ 8) ltac:(lia)). change (Z.ones 8) with 255%Z.
    change (2 ^ 8)%Z with 256%Z in *. lia. }
  unfold InterpolatedProperties.channels.
  repeat constructor; unfold Qle; simpl;
    match goal with |- context [Z.land ?x 255] => pose proof (Hbyte x) end; lia.
Qed.

(** Position [3 * i + k] of the sampled colors holds channel [k] of color
    [i]. *)
Lemma flat_map_channels_lookup colors i color k :
  colors !! i = Some color -> k < 3 ->
  flat_map channels colors !! (3 * i + k) = channels color !! k.
Proof.
  revert i. induction colors as [|c colors IH]; intros i Hi Hk; [discriminate|].
  change (flat_map channels (c :: colors)) with (channels c ++ flat_map channels colors).
  destruct i as [|i]; simpl in Hi.
  - injection Hi as ->. rewrite lookup_app_l by (rewrite length_channels; lia).
    reflexivity.
  - rewrite lookup_app_r by (rewrite length_channels; lia).
    rewrite length_channels. replace (3 * S i + k - 3) with (3 * i + k) by lia.
    apply IH; assumption.
Qed.

(** C8, as amended: for a definition with one value per zoom level and no
    zoom level twice, the conversion keeps the zoom levels; a color
    definition with n entries yields exactly 3 n channels, each between 0 and
    1, where the entries 3 i, 3 i + 1 and 3 i + 2 are the red, green and blue
    components of the i-th color divided by 255; a boolean definition yields
    one channel per entry, 1 for true and 0 for false. *)
Theorem sampled_values_of_definition (p : InterpolatedPropertyDefinition) :
  NoDup (zoomLevels p) -> length (zoomLevels p) = valuesLength (values p) ->
  let sampled := fst (createInterpolatedProperty numberInt32 p) in
  zoomLevelKeys sampled = zoomLevels p /\
  (forall colors, values p = StringValues colors ->
     length (sampledValues sampled) = 3 * length colors /\
     Forall unitInterval (sampledValues sampled) /\
     forall i color, colors !! i = Some color ->
       let value := numberInt32 (replaceHash color) in
       sampledValues sampled !! (3 * i) = Some (F32 (Qmake (red value) 255)) /\
       sampledValues sampled !! (3 * i + 1) = Some (F32 (Qmake (green value) 255)) /\
       sampledValues sampled !! (3 * i + 2) = Some (F32 (Qmake (blue value) 255))) /\
  (forall bs, values p = BooleanValues bs ->
     sampledValues sampled = map booleanChannel bs).
Proof.
  intros Hnd Hlen sampled. unfold sampled, createInterpolatedProperty.
  rewrite (removeDuplicates_NoDup p Hnd Hlen). cbn [fst].
  split; [destruct (values p) as [l | [|b l] | [|c l]]; reflexivity|]. split.
  - intros colors Hcolors. rewrite Hcolors.
    assert (Hvalues :
      sampledValues
        (match colors with
         | [] => mkInterpolated (modeOf p) (zoomLevels p) (map (fun n => F32 (inject_Z n)) [])
         | _ :: _ =>
           mkInterpolated (modeOf p) (zoomLevels p)
             (writeColors (length colors) 0 colors
                (repeat (F32 (inject_Z 0)) (length colors * 3)))
         end) = flat_map channels colors).
    { destruct colors as [|c colors]; [reflexivity|]. cbn [sampledValues].
      rewrite writeColors_spec; [reflexivity | apply repeat_length | lia]. }
    rewrite Hvalues. split; [|split].
    + clear. induction colors as [|c colors IH]; [reflexivity|].
      change (flat_map channels (c :: colors))
        with (channels c ++ flat_map channels colors).
      rewrite length_app, IH, length_channels. simpl. lia.
    + clear. induction colors as [|c colors IH]; [constructor|].
      change (flat_map channels (c :: colors))
        with (channels c ++ flat_map channels colors).
      apply Forall_app. split; [apply channels_unitInterval | exact IH].
    + intros i color Hi. cbn zeta.
      replace (3 * i) with (3 * i + 0) at 1 by lia.
      rewrite !(flat_map_channels_lookup colors i color) by (auto; lia).
      repeat split.
  - intros bs Hbs. rewrite Hbs. destruct bs; reflexivity.
Qed.

End Colors.

End InterpolatedFacts.

(** ** StyleSetEvaluator: matching *)

Module MatchingFacts.
Import InterpolatedProperties StyleSetEvaluator StyleSetSpec RenderOrderFacts.

Section MatchingFacts.

Context {Expr MapEnv : Type}.
Variable parse : string -> Expr.
Variable evaluate : Expr -> MapEnv -> bool.
Variable numberInt32 : string -> Z.

Local Abbreviation Style := (@Style Expr).
Local Abbreviation StyleData := (@StyleData Expr).
Local Abbreviation Walk := (@Walk Expr).
Local Abbreviation Evaluator := (@Evaluator Expr).
Local Abbreviation processStyle := (processStyle parse evaluate numberInt32).
Local Abbreviation processStyles := (processStyles parse evaluate numberInt32).
Local Abbreviation processTechnique := (processTechnique numberInt32).
Local Abbreviation addAttributes := (addAttributes numberInt32).
Local Abbreviation addStackAttributes := (addStackAttributes numberInt32).
Local Abbreviation evaluateWhen := (evaluateWhen parse evaluate).
Local Abbreviation matchStyles := (matchStyles parse evaluate numberInt32).
Local Abbreviation getMatchingTechniques := (getMatchingTechniques parse evaluate numberInt32).
Local Abbreviation afterMatching := (afterMatching parse evaluate numberInt32).
Local Abbreviation walkedStyle := (walkedStyle parse evaluate numberInt32).
Local Abbreviation walkedStyles := (walkedStyles parse evaluate numberInt32).

(** *** Styles up to their attributes *)

Lemma sameButAttr_refl (d : StyleData) : sameButAttr d d.
Proof. exists (attr d). destruct d; reflexivity. Qed.

Lemma sameButAttr_trans (d1 d2 d3 : StyleData) :
  sameButAttr d1 d2 -> sameButAttr d2 d3 -> sameButAttr d1 d3.
Proof. intros [a ->] [b ->]. exists b. reflexivity. Qed.

Lemma sameButAttr_all_refl (l : list StyleData) : Forall2 sameButAttr l l.
Proof. induction l; constructor; auto using sameButAttr_refl. Qed.

Lemma sameButAttr_all_trans (l1 l2 l3 : list StyleData) :
  Forall2 sameButAttr l1 l2 -> Forall2 sameButAttr l2 l3 -> Forall2 sameButAttr l1 l3.
Proof.
  intros H12. revert l3. induction H12 as [|d1 d2 l1 l2 Hd H12 IH]; intros l3 H23.
  - inversion H23. constructor.
  - inversion H23; subst. constructor; eauto using sameButAttr_trans.
Qed.

(** *** The [when] expression is evaluated the same way every time *)

Lemma evaluateWhen_again env (d : StyleData) :
  evaluateWhen env (snd (evaluateWhen env d))
  = (fst (evaluateWhen env d), snd (evaluateWhen env d)).
Proof.
  unfold StyleSetEvaluator.evaluateWhen.
  destruct (when d) as [source|] eqn:Ew; cbn; rewrite ?Ew; reflexivity.
Qed.

Lemma evaluateWhen_withAttr env a (d : StyleData) :
  evaluateWhen env (withAttr a d)
  = (fst (evaluateWhen env d), withAttr a (snd (evaluateWhen env d))).
Proof.
  unfold StyleSetEvaluator.evaluateWhen. cbn.
  destruct (when d); reflexivity.
Qed.

Lemma evaluateWhen_withIndex env i (d : StyleData) :
  evaluateWhen env (withIndex i d)
  = (fst (evaluateWhen env d), withIndex i (snd (evaluateWhen env d))).
Proof.
  unfold StyleSetEvaluator.evaluateWhen. cbn.
  destruct (when d); reflexivity.
Qed.

Lemma evaluateWhen_keeps env (d : StyleData) :
  _index (snd (evaluateWhen env d)) = _index d /\
  technique (snd (evaluateWhen env d)) = technique d /\
  final (snd (evaluateWhen env d)) = final d.
Proof.
  unfold StyleSetEvaluator.evaluateWhen. destruct (when d); cbn; auto.
Qed.

(** A style whose [when] has been evaluated to [pass] stays so up to its
    attributes. *)
Lemma evaluateWhen_sameButAttr env pass (d d' : StyleData) :
  evaluateWhen env d = (pass, d) -> sameButAttr d d' ->
  evaluateWhen env d' = (pass, d').
Proof.
  intros He [a ->]. rewrite evaluateWhen_withAttr, He. reflexivity.
Qed.

(** *** Styles at a later time *)

Lemma laterData_refl (d : StyleData) : laterData d d.
Proof. unfold laterData. auto. Qed.

Lemma laterData_trans (d1 d2 d3 : StyleData) :
  laterData d1 d2 -> laterData d2 d3 -> laterData d1 d3.
Proof.
  intros (Hw1 & Ht1 & Hf1 & He1 & Hi1) (Hw2 & Ht2 & Hf2 & He2 & Hi2).
  unfold laterData. split; [congruence|]. split; [congruence|]. split; [congruence|].
  split; auto.
Qed.

Lemma laterData_sameButAttr (d d' : StyleData) : sameButAttr d d' -> laterData d d'.
Proof. intros [a ->]. unfold laterData. cbn. auto. Qed.

Lemma laterData_withIndex i (d : StyleData) : _index d = None -> laterData d (withIndex i d).
Proof.
  intros Hnone. unfold laterData. cbn. split; [reflexivity|]. split; [reflexivity|].
  split; [reflexivity|]. split; [auto|]. intros j Hj. congruence.
Qed.

Lemma evaluateWhen_laterData env (d : StyleData) : laterData d (snd (evaluateWhen env d)).
Proof.
  unfold StyleSetEvaluator.evaluateWhen, laterData.
  destruct (when d) as [source|] eqn:Ew; cbn; [|auto 10].
  rewrite Ew. split; [reflexivity|]. split; [reflexivity|]. split; [reflexivity|].
  split; [|auto]. intros e He. rewrite He. reflexivity.
Qed.

(** A style whose [when] has been evaluated to [pass] is evaluated to [pass]
    at any later time, without being changed. *)
Lemma evaluateWhen_settled env pass (d1 d2 : StyleData) :
  evaluateWhen env d1 = (pass, d1) -> laterData d1 d2 ->
  evaluateWhen env d2 = (pass, d2).
Proof.
  unfold StyleSetEvaluator.evaluateWhen. intros He (Hw & _ & _ & Hexpr & _).
  rewrite Hw. destruct (when d1) as [source|]; [|congruence].
  injection He as Hpass Hd1.
  set (e := match _whenExpr d1 with Some e => e | None => parse source end) in *.
  assert (He1 : _whenExpr d1 = Some e) by (rewrite <- Hd1; reflexivity).
  rewrite (Hexpr e He1). rewrite Hpass. f_equal.
  specialize (Hexpr e He1). destruct d2. cbn in *. subst. reflexivity.
Qed.

Lemma later_refl (s : Style) : later s s.
Proof.
  induction s as [d | d children IH] using Style_induction.
  - apply later_leaf, laterData_refl.
  - apply later_node; [apply laterData_refl|].
    induction IH; constructor; auto.
Qed.

Lemma later_all_refl (ss : list Style) : Forall2 later ss ss.
Proof. induction ss; constructor; auto using later_refl. Qed.

Lemma later_trans (s1 : Style) :
  forall s2 s3, later s1 s2 -> later s2 s3 -> later s1 s3.
Proof.
  induction s1 as [d | d children IH] using Style_induction; intros s2 s3 H12 H23.
  - inversion H12 as [? d2 Hd12|]; subst. inversion H23 as [? d3 Hd23|]; subst.
    apply later_leaf. eapply laterData_trans; eauto.
  - inversion H12 as [|? d2 ? children2 Hd12 Hc12]; subst.
    inversion H23 as [|? d3 ? children3 Hd23 Hc23]; subst.
    apply later_node; [eapply laterData_trans; eauto|].
    clear Hd12 Hd23 H12 H23. revert children3 Hc23.
    induction Hc12 as [|c c2 cs cs2 Hc Hcs IHcs]; intros children3 Hc23.
    + inversion Hc23. constructor.
    + inversion Hc23 as [|? c3 ? cs3 Hc3 Hcs3]; subst.
      apply Forall_cons in IH as (IHc & IHrest).
      constructor; [eapply IHc; eauto | apply IHcs; assumption].
Qed.

Lemma later_all_trans (ss1 ss2 ss3 : list Style) :
  Forall2 later ss1 ss2 -> Forall2 later ss2 ss3 -> Forall2 later ss1 ss3.
Proof.
  intros H12. revert ss3. induction H12 as [|s1 s2 l1 l2 Hs H12 IH]; intros ss3 H23.
  - inversion H23. constructor.
  - inversion H23; subst. constructor; [eapply later_trans; eauto | auto].
Qed.

(** *** Assembling a technique *)

Lemma addAttributes_sameButAttr (d : StyleData) t : sameButAttr d (snd (addAttributes d t)).
Proof.
  unfold StyleSetEvaluator.addAttributes.
  destruct (attr d) as [a|]; cbn; [eexists; reflexivity | apply sameButAttr_refl].
Qed.

Lemma addStackAttributes_sameButAttr (stack : list StyleData) t :
  Forall2 sameButAttr stack (snd (addStackAttributes stack t)).
Proof.
  revert t. induction stack as [|d stack IH]; intros t; simpl; [constructor|].
  pose proof (addAttributes_sameButAttr d t) as Hd.
  destruct (addAttributes d t) as [t1 d1]. specialize (IH t1).
  destruct (addStackAttributes stack t1) as [t2 stack1]. cbn in *.
  constructor; assumption.
Qed.

(** *** The result array *)

Lemma pushResults_nil (w : Walk) : pushResults [] w = w.
Proof. destruct w. unfold pushResults. cbn. rewrite app_nil_r. reflexivity. Qed.

Lemma pushResults_app added1 added2 (w : Walk) :
  pushResults added2 (pushResults added1 w) = pushResults (added1 ++ added2) w.
Proof. unfold pushResults. cbn. rewrite app_assoc. reflexivity. Qed.

(** The loop over the child styles, unfolded. *)
Lemma processStyle_node env (d : StyleData) children (w : Walk) :
  processStyle env (mkStyle d (Some children)) w
  = (let '(pass, d) := evaluateWhen env d in
     if negb pass then (false, (mkStyle d (Some children), w))
     else
       let w := mkWalk (styleStack w ++ [d]) (techniques w) (objects w) (result w) in
       let '(found, (children, w)) := processStyles env children w in
       let d := List.last (styleStack w) d in
       (found, (mkStyle d (Some children),
                mkWalk (List.removelast (styleStack w)) (techniques w) (objects w)
                       (result w)))).
Proof.
  simpl. destruct (evaluateWhen env d) as [pass d1]. destruct (negb pass); [reflexivity|].
  set (w0 := mkWalk (styleStack w ++ [d1]) (techniques w) (objects w) (result w)).
  assert (Heq : forall cs w1,
    (fix eachStyle (children : list Style) (w : Walk) {struct children}
        : bool * (list Style * Walk) :=
        match children with
        | [] => (false, ([], w))
        | currStyle :: rest =>
          let '(found, (currStyle, w)) := processStyle env currStyle w in
          if found then (true, (currStyle :: rest, w))
          else
            let '(found, (rest, w)) := eachStyle rest w in
            (found, (currStyle :: rest, w))
        end) cs w1 = processStyles env cs w1).
  { induction cs as [|c cs IHcs]; intros w1; simpl; [reflexivity|].
    destruct (processStyle env c w1) as [found [c' w']].
    destruct found; [reflexivity|]. rewrite IHcs. reflexivity. }
  rewrite Heq. reflexivity.
Qed.

Lemma processStyle_leaf env (d : StyleData) (w : Walk) :
  processStyle env (mkStyle d None) w
  = (let '(pass, d) := evaluateWhen env d in
     if negb pass then (false, (mkStyle d None, w))
     else
       match technique d with
       | Some name =>
         let '(found, (d, w)) := processTechnique name d w in
         (found, (mkStyle d None, w))
       | None => (false, (mkStyle d None, w))
       end).
Proof. reflexivity. Qed.

(** *** Indexes *)

Lemma indexesBelow_cons n (s : Style) ss :
  indexesBelow n (s :: ss) <-> indexesBelow n [s] /\ indexesBelow n ss.
Proof.
  unfold indexesBelow. cbn. rewrite app_nil_r. apply Forall_app.
Qed.

Lemma indexesBelow_mono n m (ss : list Style) :
  n <= m -> indexesBelow n ss -> indexesBelow m ss.
Proof.
  intros Hle H. eapply Forall_impl; [exact H|]. cbn. intros d Hd i Hi.
  specialize (Hd i Hi). lia.
Qed.

Lemma indexesBelow_node n (d : StyleData) children :
  indexesBelow n [mkStyle d (Some children)]
  <-> (forall i, _index d = Some i -> i < n) /\ indexesBelow n children.
Proof.
  unfold indexesBelow. cbn. rewrite app_nil_r. apply Forall_cons.
Qed.

Lemma indexesBelow_leaf n (d : StyleData) :
  indexesBelow n [mkStyle d None] <-> (forall i, _index d = Some i -> i < n).
Proof.
  unfold indexesBelow. cbn. rewrite Forall_cons. split; [tauto|].
  intros H. split; [exact H | constructor].
Qed.

(** *** One walk, and the walks after it *)

Lemma walkedStyle_leaf env (d : StyleData) (w : Walk) :
  indexesBelow (length (techniques w)) [mkStyle d None] ->
  walkedStyle env (mkStyle d None) w.
Proof.
  intros Hidx0. pose proof (proj1 (indexesBelow_leaf _ _) Hidx0) as Hidx. clear Hidx0.
  unfold StyleSetSpec.walkedStyle. rewrite processStyle_leaf.
  pose proof (evaluateWhen_again env d) as Hagain.
  pose proof (evaluateWhen_keeps env d) as (Hki & Hkt & Hkf).
  pose proof (evaluateWhen_laterData env d) as Hlater.
  destruct (evaluateWhen env d) as [pass d1]. cbn [fst snd] in *.
  assert (Hidle : forall found : bool,
            walkFacts w w [mkStyle d1 None]
              (fun added => forall (s2 : Style) (w2 : Walk) (rest : list TechniqueRef),
                 later (mkStyle d1 None) s2 ->
                 techniques w2 = techniques w ++ rest ->
                 (found, (s2, w2)) = (found, (s2, pushResults added w2)))).
  { intros found. split; [exists []; rewrite app_nil_r; reflexivity|].
    split; [apply sameButAttr_all_refl|]. split.
    - apply indexesBelow_leaf. intros i Hi. apply Hidx. congruence.
    - exists []. split; [rewrite app_nil_r; reflexivity|]. split; [constructor|].
      intros s2 w2 rest _ _. rewrite pushResults_nil. reflexivity. }
  destruct pass; cbn [negb].
  2:{ split; [apply later_leaf; exact Hlater|].
      destruct (Hidle false) as (H1 & H2 & H3 & added & H4 & H5 & H6).
      split; [exact H1|]. split; [exact H2|]. split; [exact H3|].
      exists added. split; [exact H4|]. split; [exact H5|].
      intros s2 w2 rest Hs2 Hw2. inversion Hs2 as [? d2 Hd2|]; subst.
      rewrite processStyle_leaf, (evaluateWhen_settled env false d1 d2 Hagain Hd2).
      cbn [negb]. apply (H6 _ w2 rest Hs2 Hw2). }
  destruct (technique d1) as [name|] eqn:Et.
  2:{ split; [apply later_leaf; exact Hlater|].
      destruct (Hidle false) as (H1 & H2 & H3 & added & H4 & H5 & H6).
      split; [exact H1|]. split; [exact H2|]. split; [exact H3|].
      exists added. split; [exact H4|]. split; [exact H5|].
      intros s2 w2 rest Hs2 Hw2. inversion Hs2 as [? d2 Hd2|]; subst.
      rewrite processStyle_leaf, (evaluateWhen_settled env true d1 d2 Hagain Hd2).
      cbn [negb]. destruct Hd2 as (_ & Ht2 & _). rewrite Ht2, Et.
      apply (H6 _ w2 rest Hs2 Hw2). }
  unfold StyleSetEvaluator.processTechnique.
  destruct (_index d1) as [index|] eqn:Ei.
  - (* assembled before: the technique is read from [m_techniques] *)
    assert (Hlt : index < length (techniques w)) by (apply Hidx; congruence).
    destruct (lookup_lt_is_Some_2 _ _ Hlt) as [ref Href].
    split; [apply later_leaf; exact Hlater|].
    split; [exists []; rewrite app_nil_r; reflexivity|].
    split; [apply sameButAttr_all_refl|]. split.
    + apply indexesBelow_leaf. intros i Hi. cbn. apply Hidx. congruence.
    + exists [Some ref]. cbn [result]. rewrite Href.
      split; [reflexivity|]. split; [repeat constructor; eauto|].
      intros s2 w2 rest Hs2 Hw2. inversion Hs2 as [? d2 Hd2|]; subst.
      rewrite processStyle_leaf, (evaluateWhen_settled env true d1 d2 Hagain Hd2).
      cbn [negb]. destruct Hd2 as (_ & Ht2 & Hf2 & _ & Hi2). rewrite Ht2, Et.
      unfold StyleSetEvaluator.processTechnique. rewrite (Hi2 index Ei), Hf2.
      rewrite Hw2, (lookup_app_l_Some _ _ _ _ Href), <- Hw2. reflexivity.
  - (* assembled now *)
    pose proof (addStackAttributes_sameButAttr (styleStack w)
                  {[ "name"%string := Value (JsString name) ]}) as Hstack.
    destruct (addStackAttributes (styleStack w) _) as [t1 stack1]. cbn [snd] in Hstack.
    pose proof (addAttributes_sameButAttr d1 t1) as [a Ha].
    destruct (addAttributes d1 t1) as [t2 d2]. cbn [snd] in Ha. subst d2.
    cbn [techniques styleStack result].
    assert (Hsettled : evaluateWhen env (withIndex (length (techniques w)) (withAttr a d1))
                       = (true, withIndex (length (techniques w)) (withAttr a d1))).
    { rewrite evaluateWhen_withIndex, evaluateWhen_withAttr, Hagain. reflexivity. }
    split.
    { apply later_leaf. eapply laterData_trans; [exact Hlater|].
      eapply laterData_trans; [apply laterData_sameButAttr; exists a; reflexivity|].
      apply laterData_withIndex. exact Ei. }
    split; [eexists; reflexivity|]. split; [exact Hstack|]. split.
    + apply indexesBelow_leaf. cbn. intros i [= <-]. rewrite length_app. cbn. lia.
    + exists [Some (length (objects w))]. split; [reflexivity|].
      split; [repeat constructor; eauto|].
      intros s2 w2 rest Hs2 Hw2. inversion Hs2 as [? d2 Hd2|]; subst.
      rewrite processStyle_leaf, (evaluateWhen_settled env true _ d2 Hsettled Hd2).
      cbn [negb]. destruct Hd2 as (_ & Ht2 & Hf2 & _ & Hi2).
      cbn [technique final _index withIndex withAttr] in Ht2, Hf2, Hi2.
      rewrite Ht2, Et.
      unfold StyleSetEvaluator.processTechnique.
      rewrite (Hi2 _ eq_refl), Hf2.
      assert (Hlook : techniques w2 !! length (techniques w) = Some (length (objects w)))
        by (rewrite Hw2, <- app_assoc; apply list_lookup_middle; reflexivity).
      rewrite Hlook. reflexivity.
Qed.

Lemma walkedStyles_each env (ss : list Style) :
  Forall (fun s => forall w : Walk,
            indexesBelow (length (techniques w)) [s] -> walkedStyle env s w) ss ->
  forall w : Walk, indexesBelow (length (techniques w)) ss -> walkedStyles env ss w.
Proof.
  induction 1 as [|s ss Hs Hss IH]; intros w Hidx.
  - unfold StyleSetSpec.walkedStyles. cbn.
    split; [constructor|].
    split; [exists []; rewrite app_nil_r; reflexivity|].
    split; [apply sameButAttr_all_refl|]. split; [constructor|].
    exists []. split; [rewrite app_nil_r; reflexivity|]. split; [constructor|].
    intros ss2 w2 rest Hss2 _. inversion Hss2; subst.
    rewrite pushResults_nil. reflexivity.
  - destruct (proj1 (indexesBelow_cons _ _ _) Hidx) as [Hidx1 Hidx2].
    specialize (Hs w Hidx1).
    unfold StyleSetSpec.walkedStyle in Hs. unfold StyleSetSpec.walkedStyles.
    cbn [StyleSetSpec.processStyles].
    destruct (processStyle env s w) as [found [s1 w1]].
    destruct Hs as (Hlater1 & (more1 & Hmore1) & Hstack1 & Hidx1' & added1 & Hres1 & Hsome1
                    & Hreplay1).
    assert (Hle1 : length (techniques w) <= length (techniques w1))
      by (rewrite Hmore1, length_app; lia).
    destruct found.
    + split; [constructor; [exact Hlater1 | apply later_all_refl]|].
      split; [exists more1; exact Hmore1|]. split; [exact Hstack1|]. split.
      * apply indexesBelow_cons. split; [exact Hidx1'|].
        eapply indexesBelow_mono; eauto.
      * exists added1. split; [exact Hres1|]. split; [exact Hsome1|].
        intros ss2 w2 rest Hss2 Hw2.
        inversion Hss2 as [|? s2 ? rest2 Hs2 Hrest2]; subst.
        cbn [StyleSetSpec.processStyles].
        rewrite (Hreplay1 s2 w2 rest Hs2 Hw2). reflexivity.
    + specialize (IH w1 ltac:(eapply indexesBelow_mono; eauto)).
      unfold StyleSetSpec.walkedStyles in IH.
      destruct (processStyles env ss w1) as [found2 [ss1 w2]].
      destruct IH as (Hlater2 & (more2 & Hmore2) & Hstack2 & Hidx2' & added2 & Hres2 & Hsome2
                      & Hreplay2).
      split; [constructor; assumption|].
      split; [exists (more1 ++ more2); rewrite Hmore2, Hmore1, app_assoc; reflexivity|].
      split; [eapply sameButAttr_all_trans; eauto|]. split.
      * apply indexesBelow_cons. split; [|exact Hidx2'].
        eapply indexesBelow_mono; [|exact Hidx1'].
        rewrite Hmore2, length_app. lia.
      * exists (added1 ++ added2).
        split; [rewrite Hres2, Hres1, app_assoc; reflexivity|].
        split; [apply Forall_app; split; assumption|].
        intros ss2 w3 rest Hss2 Hw3.
        inversion Hss2 as [|? s2 ? rest2 Hs2 Hrest2]; subst.
        cbn [StyleSetSpec.processStyles].
        rewrite (Hreplay1 s2 w3 (more2 ++ rest) Hs2)
          by (rewrite Hw3, Hmore2, app_assoc; reflexivity).
        rewrite (Hreplay2 rest2 (pushResults added1 w3) rest Hrest2) by exact Hw3.
        rewrite pushResults_app. reflexivity.
Qed.

Lemma walkedStyle_node env (d : StyleData) children (w : Walk) :
  (forall w' : Walk, indexesBelow (length (techniques w')) children ->
     walkedStyles env children w') ->
  indexesBelow (length (techniques w)) [mkStyle d (Some children)] ->
  walkedStyle env (mkStyle d (Some children)) w.
Proof.
  intros Hchildren Hidx.
  destruct (proj1 (indexesBelow_node _ _ _) Hidx) as [Hidxd Hidxc].
  unfold StyleSetSpec.walkedStyle. rewrite processStyle_node.
  pose proof (evaluateWhen_again env d) as Hagain.
  pose proof (evaluateWhen_keeps env d) as (Hki & Hkt & Hkf).
  pose proof (evaluateWhen_laterData env d) as Hlater.
  destruct (evaluateWhen env d) as [pass d1]. cbn [fst snd] in *.
  destruct pass; cbn [negb].
  2:{ split; [apply later_node; [exact Hlater | apply later_all_refl]|].
      split; [exists []; rewrite app_nil_r; reflexivity|].
      split; [apply sameButAttr_all_refl|]. split.
      - apply indexesBelow_node. split; [|exact Hidxc].
        intros i Hi. apply Hidxd. congruence.
      - exists []. split; [rewrite app_nil_r; reflexivity|]. split; [constructor|].
        intros s2 w2 rest Hs2 _.
        inversion Hs2 as [|? d2 ? children2 Hd2 Hc2]; subst.
        rewrite processStyle_node, (evaluateWhen_settled env false d1 d2 Hagain Hd2).
        cbn [negb]. rewrite pushResults_nil. reflexivity. }
  set (w0 := mkWalk (styleStack w ++ [d1]) (techniques w) (objects w) (result w)).
  specialize (Hchildren w0 Hidxc). unfold StyleSetSpec.walkedStyles in Hchildren.
  destruct (processStyles env children w0) as [found [children1 w1]].
  destruct Hchildren as (Hlaterc & (more & Hmore) & Hstack & Hidx1 & added & Hres & Hsome
                         & Hreplay).
  subst w0. cbn [techniques styleStack result] in *.
  apply Forall2_app_inv_l in Hstack as (stack1 & top & Hstack1 & Htop & Hsplit).
  inversion Htop as [|? d2 ? ? Hd2 Hnil]; subst. inversion Hnil; subst.
  rewrite Hsplit, List.last_last, List.removelast_last.
  assert (Hsettled : evaluateWhen env d2 = (true, d2))
    by (apply (evaluateWhen_sameButAttr env true d1 d2 Hagain Hd2)).
  split.
  { apply later_node; [|exact Hlaterc].
    eapply laterData_trans; [exact Hlater | apply laterData_sameButAttr; exact Hd2]. }
  split; [exists more; exact Hmore|]. split; [exact Hstack1|]. split.
  - apply indexesBelow_node. split; [|exact Hidx1].
    destruct Hd2 as [a ->]. cbn. intros i Hi.
    assert (i < length (techniques w)) by (apply Hidxd; congruence).
    rewrite Hmore, length_app. lia.
  - exists added. split; [exact Hres|]. split; [exact Hsome|].
    intros s2 w2 rest Hs2 Hw2.
    inversion Hs2 as [|? d3 ? children3 Hd3 Hc3]; subst.
    rewrite processStyle_node, (evaluateWhen_settled env true d2 d3 Hsettled Hd3).
    cbn [negb].
    rewrite (Hreplay children3
               (mkWalk (styleStack w2 ++ [d3]) (techniques w2) (objects w2) (result w2))
               rest Hc3 Hw2).
    unfold pushResults. cbn [styleStack techniques objects result].
    rewrite List.last_last, List.removelast_last. reflexivity.
Qed.

Lemma walkedStyle_always env (s : Style) :
  forall w : Walk, indexesBelow (length (techniques w)) [s] -> walkedStyle env s w.
Proof.
  induction s as [d | d children IH] using Style_induction; intros w Hidx.
  - apply walkedStyle_leaf. exact Hidx.
  - apply walkedStyle_node; [|exact Hidx].
    apply walkedStyles_each. exact IH.
Qed.

Lemma walkedStyles_always env (ss : list Style) (w : Walk) :
  indexesBelow (length (techniques w)) ss -> walkedStyles env ss w.
Proof.
  apply walkedStyles_each. apply Forall_forall. intros s _. apply walkedStyle_always.
Qed.

(** *** [getMatchingTechniques] *)

(** The style stack is empty between the styles of the style set: the
    internal error is never thrown. *)
Lemma matchStyles_processStyles env validate (ss : list Style) :
  forall w : Walk,
    styleStack w = [] -> indexesBelow (length (techniques w)) ss ->
    matchStyles env validate ss w = Some (snd (processStyles env ss w)).
Proof.
  induction ss as [|s ss IH]; intros w Hstack Hidx; [reflexivity|].
  destruct (proj1 (indexesBelow_cons _ _ _) Hidx) as [Hidx1 Hidx2].
  cbn [StyleSetEvaluator.matchStyles StyleSetSpec.processStyles].
  rewrite Hstack. rewrite bool_decide_eq_true_2 by reflexivity.
  rewrite andb_false_r.
  pose proof (walkedStyle_always env s w Hidx1) as Hs.
  unfold StyleSetSpec.walkedStyle in Hs.
  destruct (processStyle env s w) as [found [s1 w1]].
  destruct Hs as (_ & (more & Hmore) & Hstack1 & _).
  destruct found; [reflexivity|].
  rewrite Hstack in Hstack1. inversion Hstack1 as [Hnil|]; subst.
  rewrite IH; [| congruence |].
  - destruct (processStyles env ss w1) as [found2 [ss2 w2]]. reflexivity.
  - eapply indexesBelow_mono; [|exact Hidx2]. rewrite Hmore, length_app. lia.
Qed.

(** A call, and every call with the same environment at a later time of the
    evaluator. *)
Lemma getMatchingTechniques_later (ev : Evaluator) env :
  indexed ev ->
  exists r ev1,
    getMatchingTechniques ev env = Some (r, ev1) /\
    indexed ev1 /\
    Forall2 later (styleSet ev) (styleSet ev1) /\
    (exists rest, m_techniques ev1 = m_techniques ev ++ rest) /\
    Forall is_Some r /\
    forall ev2 : Evaluator,
      indexed ev2 -> Forall2 later (styleSet ev1) (styleSet ev2) ->
      (exists rest, m_techniques ev2 = m_techniques ev1 ++ rest) ->
      getMatchingTechniques ev2 env = Some (r, ev2).
Proof.
  intros Hidx. unfold indexed in Hidx.
  unfold StyleSetEvaluator.getMatchingTechniques at 1.
  set (w := mkWalk [] (m_techniques ev) (heap ev) []).
  rewrite (matchStyles_processStyles env (validate ev) (styleSet ev) w eq_refl Hidx).
  pose proof (walkedStyles_always env (styleSet ev) w Hidx) as Hw.
  unfold StyleSetSpec.walkedStyles in Hw.
  destruct (processStyles env (styleSet ev) w) as [found [ss1 w1]].
  destruct Hw as (Hlater & Hmore & Hstack & Hidx1 & added & Hres & Hsome & Hreplay).
  cbn [snd]. eexists _, _. split; [reflexivity|].
  cbn [styleSet validate m_techniques heap].
  split; [exact Hidx1|]. split; [exact Hlater|]. split; [exact Hmore|].
  split; [rewrite Hres; exact Hsome|].
  intros ev2 Hidx2 Hlater2 (rest & Hrest).
  unfold StyleSetEvaluator.getMatchingTechniques.
  set (w' := mkWalk [] (m_techniques ev2) (heap ev2) []).
  rewrite (matchStyles_processStyles env (validate ev2) (styleSet ev2) w' eq_refl Hidx2).
  rewrite (Hreplay (styleSet ev2) w' rest Hlater2 Hrest).
  cbn. rewrite Hres. destruct ev2. reflexivity.
Qed.

Lemma afterMatching_indexed (envs : list MapEnv) :
  forall ev : Evaluator, indexed ev ->
    exists ev', afterMatching ev envs = Some ev' /\ indexed ev' /\
      Forall2 later (styleSet ev) (styleSet ev') /\
      exists rest, m_techniques ev' = m_techniques ev ++ rest.
Proof.
  induction envs as [|env envs IH]; intros ev Hidx; cbn.
  - exists ev. split; [reflexivity|]. split; [exact Hidx|].
    split; [apply later_all_refl|]. exists []. rewrite app_nil_r. reflexivity.
  - destruct (getMatchingTechniques_later ev env Hidx)
      as (r & ev1 & Hcall & Hidx1 & Hlater1 & (rest1 & Hrest1) & _).
    rewrite Hcall.
    destruct (IH ev1 Hidx1) as (ev' & Hev' & Hidx' & Hlater' & rest' & Hrest').
    exists ev'. split; [exact Hev'|]. split; [exact Hidx'|].
    split; [eapply later_all_trans; eauto|].
    exists (rest1 ++ rest'). rewrite Hrest', Hrest1, app_assoc. reflexivity.
Qed.

(** C2, as amended: for an evaluator built over a style set that has not
    been matched against before, any two calls of getMatchingTechniques with
    the same environment return the same array, at any point of the
    evaluator's life and whatever calls with other environments lie between
    them: equal in length, element for element the same technique reference,
    none of them undefined. The later call leaves the evaluator as it found
    it: no technique is assembled again. With no call in between, these are
    two calls in a row. *)
Theorem matching_twice_gives_same_references
    (ss : list Style) (validate : bool) (envs between : list MapEnv) (env : MapEnv) :
  unindexed ss = true ->
  exists ev r ev1 ev2,
    afterMatching (newStyleSetEvaluator ss validate) envs = Some ev /\
    getMatchingTechniques ev env = Some (r, ev1) /\
    afterMatching ev1 between = Some ev2 /\
    getMatchingTechniques ev2 env = Some (r, ev2) /\
    Forall is_Some r.
Proof.
  intros Hun.
  destruct (afterMatching_indexed envs (newStyleSetEvaluator ss validate))
    as (ev & Hev & Hidx & _).
  { apply newStyleSetEvaluator_unindexed. exact Hun. }
  destruct (getMatchingTechniques_later ev env Hidx)
    as (r & ev1 & Hcall & Hidx1 & _ & _ & Hsome & Hagain).
  destruct (afterMatching_indexed between ev1 Hidx1) as (ev2 & Hev2 & Hidx2 & Hlater2 & Hrest2).
  exists ev, r, ev1, ev2.
  split; [exact Hev|]. split; [exact Hcall|]. split; [exact Hev2|].
  split; [apply Hagain; assumption | exact Hsome].
Qed.

End MatchingFacts.

End MatchingFacts.

(** ** The statements at the concrete style set *)

Module StyleExamples.
Import InterpolatedProperties InterpolatedSpec StyleSetEvaluator StyleSetSpec StyleSamples.

(** An evaluator built over styles that another evaluator has matched
    against: the first call returns undefined for the rule that was indexed
    before and a new technique for the other one; the second call returns
    that technique for both rules. *)
Lemma shared_style_set_changes_references :
  match getMatchingTechniques parse evaluate hexInt32
          (newStyleSetEvaluator sharedStyles false) [] with
  | Some (r1, ev1) =>
    match getMatchingTechniques parse evaluate hexInt32 ev1 [] with
    | Some (r2, _) => r1 = [None; Some 0] /\ r2 = [Some 0; Some 0] /\ r1 <> r2
    | None => False
    end
  | None => False
  end.
Proof. vm_compute. repeat split. discriminate. Qed.


(** The first rule of a bias group at the very top of a style set registers
    the order 0 for the group; the second rule of the group is not given it. *)
Lemma group_order_zero_is_not_shared :
  map renderOrder (flat_map allStyles (styleSet (newStyleSetEvaluator groupAtTop false)))
  = [Some 0%Z; None].
Proof. vm_compute. reflexivity. Qed.

(** A rule of a bias group that declares no bias range and comes before the
    rule that registers the group is given no render order; the rule behind
    it is given the order of the group. *)
Lemma group_member_before_range_gets_no_order :
  map renderOrder
      (flat_map allStyles (styleSet (newStyleSetEvaluator groupWithFollowers false)))
  = [None; None; Some 3%Z; Some 3%Z].
Proof. vm_compute. reflexivity. Qed.

(** A bias range with its bounds the wrong way round turns the counter
    back: the automatic order of the rule behind it is below that of the rule
    before it. *)
Lemma inverted_range_turns_orders_back :
  rangesOrdered invertedRange = false /\
  flat_map leafAutoOrders (styleSet (newStyleSetEvaluator invertedRange false))
  = [Some 0%Z; Some (-3)%Z].
Proof. vm_compute. split; reflexivity. Qed.

(** A color definition with two entries at one zoom level is sampled to
    three channels, not six. *)
Lemma duplicated_color_has_three_channels :
  valuesLength (values duplicatedColor) = 2 /\
  length (sampledValues (fst (createInterpolatedProperty hexInt32 duplicatedColor)))
  <> 3 * valuesLength (values duplicatedColor).
Proof. vm_compute. split; [reflexivity | discriminate]. Qed.

(** The hexadecimal reading gives a color its three bytes. *)
Lemma channels_of_orange :
  channels hexInt32 "#ff8000"
  = [F32 (Qmake 255 255); F32 (Qmake 128 255); F32 (Qmake 0 255)].
Proof. vm_compute. reflexivity. Qed.

Lemma sampled_values_of_definition_witness :
  (NoDup (zoomLevels roadColor) /\
   length (zoomLevels roadColor) = valuesLength (values roadColor)) /\
  length (sampledValues (fst (createInterpolatedProperty hexInt32 roadColor))) = 6 /\
  sampledValues (fst (createInterpolatedProperty hexInt32 roadColor)) !! 1
  = Some (F32 (Qmake 128 255)).
Proof.
  assert (Hnd : NoDup (zoomLevels roadColor))
    by (apply (bool_decide_unpack _); vm_compute; reflexivity).
  split; [split; [exact Hnd | reflexivity]|].
  destruct (InterpolatedFacts.sampled_values_of_definition hexInt32 roadColor Hnd eq_refl)
    as (_ & Hcolors & _).
  destruct (Hcolors _ eq_refl) as (Hlen & _ & Hat).
  split; [exact Hlen|].
  destruct (Hat 0 "#ff8000"%string eq_refl) as (_ & Hgreen & _).
  exact Hgreen.
Defined.


Lemma matching_twice_gives_same_references_witness :
  unindexed styles = true /\
  exists ev r ev1 ev2,
    afterMatching parse evaluate hexInt32 (newStyleSetEvaluator styles true)
                  [["water"]; ["road"]]%string = Some ev /\
    getMatchingTechniques parse evaluate hexInt32 ev ["road"; "major"]%string
      = Some (r, ev1) /\
    afterMatching parse evaluate hexInt32 ev1 [["label"]; ["river"; "label"]]%string
      = Some ev2 /\
    getMatchingTechniques parse evaluate hexInt32 ev2 ["road"; "major"]%string
      = Some (r, ev2) /\
    Forall is_Some r.
Proof.
  assert (Hun : unindexed styles = true) by (vm_compute; reflexivity).
  split; [exact Hun|].
  exact (MatchingFacts.matching_twice_gives_same_references parse evaluate hexInt32
           styles true [["water"]; ["road"]]%string [["label"]; ["river"; "label"]]%string
           ["road"; "major"]%string Hun).
Defined.

(** The references the sample returns: the water rule was matched first and
    the plain road line second; the major road is assembled third. *)
Lemma matching_sample_results :
  match afterMatching parse evaluate hexInt32 (newStyleSetEvaluator styles true)
                      [["water"]; ["road"]]%string with
  | Some ev =>
    fst <$> getMatchingTechniques parse evaluate hexInt32 ev ["road"; "major"]%string
  | None => None
  end = Some [Some 2].
Proof. vm_compute. reflexivity. Qed.

End StyleExamples.

(** ** More about the PhasedTileGeometryLoader *)

Module PhasedExtras.
Import Tiles PhasedTileGeometryLoader PhasedSpec PhasedFacts TileExtrasSpec.

Section PhasedExtras.

Context {DecodedTile : Type}.
Variable hasGeometry : list (@BackendCall DecodedTile) -> bool.

Local Abbreviation Phased := (@Phased DecodedTile).
Local Abbreviation update := (update hasGeometry).
Local Abbreviation updateToPhase := (updateToPhase hasGeometry).
Local Abbreviation updateToPhaseLoop := (updateToPhaseLoop hasGeometry).
Local Abbreviation createKind := (createKind hasGeometry).
Local Abbreviation updates := (updates hasGeometry).

Lemma updateToPhaseLoop_exit fuel toPhase :
  forall b (s : Phased) b' s',
    updateToPhaseLoop fuel toPhase b s = Some (b', s') ->
    toPhase <= currentPhase (snd s') \/ b' = false.
Proof.
  induction fuel as [|fuel IH]; intros b s b' s'; simpl.
  - destruct (currentPhase (snd s) <? toPhase) eqn:E; [discriminate|].
    apply Nat.ltb_ge in E. intros [= <- <-]. left. exact E.
  - destruct (currentPhase (snd s) <? toPhase) eqn:E.
    + destruct (update s) as [b1 s1]. destruct b1; simpl.
      * apply IH.
      * intros [= <- <-]. right. reflexivity.
    + apply Nat.ltb_ge in E. intros [= <- <-]. left. exact E.
Qed.

(** X1: the while loop of updateToPhase(toPhase) exits after at most
    numberOfPhases + 2 calls of update(), whatever the state of the loader and
    of its tile and whatever the target; when it exits, the cursor has reached
    the target or the last update() reported no work. *)
Theorem updateToPhase_loop_exits (toPhase : nat) (s : Phased) :
  exists didUpdate s',
    updateToPhaseLoop (numberOfPhases (snd s) + 2) toPhase false s = Some (didUpdate, s') /\
    updateToPhase toPhase s = (didUpdate, s') /\
    (toPhase <= currentPhase (snd s') \/ didUpdate = false).
Proof.
  destruct (updateToPhase_total hasGeometry toPhase s) as [[b' s'] Hloop].
  unfold updateToPhaseFuel in Hloop.
  exists b', s'. split; [exact Hloop|]. split.
  - unfold PhasedTileGeometryLoader.updateToPhase, updateToPhaseFuel. rewrite Hloop. reflexivity.
  - eapply updateToPhaseLoop_exit; eauto.
Qed.

(** X2: on a tile of a cacheable data source and for a target within the
    plan, updateToPhase(toPhase) leaves the cursor where it is or takes it
    exactly to the target: it never overshoots, and it never moves a cursor
    that is at or past the target. *)
Theorem updateToPhase_stops_at_target (toPhase : nat) (t : @Tile DecodedTile)
    (l : PhasedLoader) :
  cacheable t = true -> toPhase <= numberOfPhases l ->
  let s' := snd (updateToPhase toPhase (t, l)) in
  (currentPhase (snd s') = currentPhase l \/
   (currentPhase l < toPhase /\ currentPhase (snd s') = toPhase)) /\
  (toPhase <= currentPhase l -> s' = (t, l)).
Proof.
  intros Hc Hle s'.
  destruct (updateToPhase_cursor hasGeometry toPhase t l Hc Hle) as (_ & _ & Hcur).
  split; [exact Hcur|].
  intros Hge. unfold s', PhasedTileGeometryLoader.updateToPhase, updateToPhaseFuel. cbn [snd].
  replace (numberOfPhases l + 2) with (S (numberOfPhases l + 1)) by lia. simpl.
  replace (currentPhase l <? toPhase) with false by (symmetry; apply Nat.ltb_ge; exact Hge).
  reflexivity.
Qed.

(** From a loader that holds a payload, or has finished, a target past the
    plan is never reached. *)
Lemma updateToPhaseLoop_past_plan fuel toPhase :
  forall b (s : Phased),
    cacheable (fst s) = true ->
    currentPhase (snd s) <= numberOfPhases (snd s) ->
    (m_decodedTile (snd s) <> None \/
     (currentPhase (snd s) = numberOfPhases (snd s) /\ decodedTile (fst s) = None)) ->
    numberOfPhases (snd s) < toPhase ->
    numberOfPhases (snd s) - currentPhase (snd s) < fuel ->
    exists s', updateToPhaseLoop fuel toPhase b s = Some (false, s') /\
      currentPhase (snd s') = numberOfPhases (snd s) /\
      numberOfPhases (snd s') = numberOfPhases (snd s).
Proof.
  induction fuel as [|fuel IH]; intros b [t l] Hc Hle Hst Hpast Hfuel; [lia|].
  cbn [fst snd] in *. simpl.
  replace (currentPhase l <? toPhase) with true by (symmetry; apply Nat.ltb_lt; lia).
  destruct (m_decodedTile l) as [d|] eqn:Ed.
  - destruct (le_lt_dec (numberOfPhases l) (currentPhase l)) as [Hge | Hlt].
    + rewrite (update_idle hasGeometry t l Hc) by (right; split; [congruence | exact Hge]).
      simpl. exists (t, l). cbn [snd]. repeat split; lia.
    + destruct (update_builds hasGeometry t l d Hc Ed Hlt)
        as (s1 & Hu & Hc1 & Hph1 & _ & Hcp1 & _ & Hfin).
      rewrite Hu. simpl.
      assert (HN1 : numberOfPhases (snd s1) = numberOfPhases l)
        by (unfold numberOfPhases; rewrite Hph1; reflexivity).
      destruct (IH true s1) as (s' & Hloop & Hcp' & HN'); try (rewrite ?HN1, ?Hcp1; lia).
      * exact Hc1.
      * rewrite HN1, Hcp1.
        destruct (S (currentPhase l) <? numberOfPhases l) eqn:E.
        -- left. destruct Hfin as (-> & _). discriminate.
        -- apply Nat.ltb_ge in E. right. split; [lia | tauto].
      * exists s'. rewrite <- HN1. repeat split; [exact Hloop | exact Hcp' | congruence].
  - destruct Hst as [Hst | (Hcp & Ht)]; [congruence|].
    rewrite (update_idle hasGeometry t l Hc) by (left; auto).
    simpl. exists (t, l). cbn [snd]. repeat split; lia.
Qed.

(** X3: updateToPhase with a target past the last phase, on a fresh loader
    whose cacheable tile holds a payload, builds every phase and still
    returns false: the returned flag is the result of the last update()
    only, which found nothing left to do. *)
Theorem updateToPhase_past_plan_reports_nothing (t : @Tile DecodedTile) (d : DecodedTile)
    (phases : list PhaseList) (basic : gset TileGeometryKind) (toPhase : nat) :
  decodedTile t = Some d -> cacheable t = true -> length phases < toPhase ->
  let r := updateToPhase toPhase (t, newPhasedTileGeometryLoader phases basic) in
  fst r = false /\
  currentPhase (snd (snd r)) = length phases /\
  allGeometryLoaded (snd (snd r)) = true.
Proof.
  intros Ht Hc Hpast r.
  unfold r, PhasedTileGeometryLoader.updateToPhase, updateToPhaseFuel. cbn [snd].
  rewrite (updateToPhaseLoop_captures hasGeometry _ toPhase false t
             (newPhasedTileGeometryLoader phases basic) d eq_refl Ht)
    by (unfold currentPhase; simpl; lia).
  set (l0 := withKinds ∅ (withPhase 0 (withDecoded (Some d)
               (newPhasedTileGeometryLoader phases basic)))).
  destruct (updateToPhaseLoop_past_plan (length phases + 2)
              toPhase false (t, l0)) as (s' & Hloop & Hcp & HN).
  - exact Hc.
  - unfold currentPhase. simpl. lia.
  - left. discriminate.
  - exact Hpast.
  - unfold numberOfPhases, currentPhase. simpl. lia.
  - change (numberOfPhases (newPhasedTileGeometryLoader phases basic)) with (length phases).
    rewrite Hloop. cbn [fst snd]. split; [reflexivity|]. split; [exact Hcp|].
    unfold allGeometryLoaded. rewrite HN, Hcp. apply Nat.leb_refl.
Qed.

(** X4: dispose() followed by update(), while the tile still holds its
    payload, starts the loader over: whatever the cursor and the loaded kinds
    were, the payload is captured again, the kinds of the first phase alone
    are loaded and the cursor is at 1. *)
Theorem update_after_dispose_starts_over (t : @Tile DecodedTile) (l : PhasedLoader)
    (d : DecodedTile) :
  cacheable t = true -> decodedTile t = Some d -> 0 < numberOfPhases l ->
  let r := update (dispose (t, l)) in
  fst r = true /\
  currentPhase (snd (snd r)) = 1 /\
  loadedKinds (snd (snd r))
    = list_to_set (default [] (m_loadPhaseDefinitions l !! 0)).
Proof.
  intros Hc Ht HN r. unfold r, dispose.
  rewrite (update_captures hasGeometry t (withDecoded None l) d eq_refl Ht).
  set (l0 := withKinds ∅ (withPhase 0 (withDecoded (Some d) (withDecoded None l)))).
  destruct (update_builds hasGeometry t l0 d Hc eq_refl)
    as (s' & Hu & _ & _ & _ & Hcp & Hk & _).
  { exact HN. }
  rewrite Hu. cbn [fst snd]. split; [reflexivity|]. split; [exact Hcp|].
  unfold loadedKinds. rewrite Hk. cbn. set_solver.
Qed.

Lemma createKinds_objects def (s : Phased) :
  exists calls, objects (fst (fold_left createKind def s)) = objects (fst s) ++ calls.
Proof.
  revert s. induction def as [|k def IH]; intros s; simpl.
  - exists []. by rewrite app_nil_r.
  - destruct (IH (createKind s k)) as (calls2 & H2).
    destruct (createKind_objects hasGeometry s k) as (calls1 & H1).
    exists (calls1 ++ calls2). rewrite H2, H1, app_assoc. reflexivity.
Qed.

(** [update()] from a state with no payload waiting to be captured. *)
Lemma update_steady (t : @Tile DecodedTile) (l : PhasedLoader) :
  m_decodedTile l <> None \/ decodedTile t = None ->
  update (t, l)
  = if negb (cacheable t) then (false, (t, withPhase (numberOfPhases l) l))
    else match m_decodedTile l with
         | None => (false, (t, l))
         | Some _ =>
           if numberOfPhases l <=? currentPhase l then (false, (t, l))
           else
             let '(t, l) := fold_left createKind
                 (default [] (m_loadPhaseDefinitions l !! currentPhase l)) (t, l) in
             let '(next, l) := nextPhase l in
             match next with
             | None => (true, finish (t, l))
             | Some _ => (true, (t, l))
             end
         end.
Proof.
  intros Hst. unfold PhasedTileGeometryLoader.update. cbn [fst snd].
  destruct (m_decodedTile l) eqn:Ed; [rewrite ?Ed; reflexivity|].
  destruct Hst as [Hst | ->]; [congruence|]. rewrite ?Ed. reflexivity.
Qed.

Lemma update_keeps_tile_steady (t : @Tile DecodedTile) (l : PhasedLoader) :
  m_decodedTile l <> None \/ decodedTile t = None ->
  let s' := snd (update (t, l)) in
  (exists calls, objects (fst s') = objects t ++ calls) /\
  disposed (fst s') = disposed t /\
  isVisible (fst s') = isVisible t /\
  cacheable (fst s') = cacheable t /\
  m_loadPhaseDefinitions (snd s') = m_loadPhaseDefinitions l /\
  m_basicGeometryKinds (snd s') = m_basicGeometryKinds l /\
  (decodedTile (fst s') = decodedTile t \/ decodedTile (fst s') = None).
Proof.
  intros Hst.
  assert (Hnone : exists calls : list (@BackendCall DecodedTile), objects t = objects t ++ calls)
    by (exists []; by rewrite app_nil_r).
  rewrite (update_steady t l Hst). clear Hst.
  destruct (negb (cacheable t)); [cbn; auto 10|].
  destruct (m_decodedTile l) as [d|]; [|cbn; auto 10].
  destruct (numberOfPhases l <=? currentPhase l); [cbn; auto 10|].
  set (def := default [] (m_loadPhaseDefinitions l !! currentPhase l)).
  pose proof (createKinds_builds_only hasGeometry def (t, l)) as Hb.
  pose proof (createKinds_objects def (t, l)) as Ho.
  destruct (fold_left createKind def (t, l)) as [t' l'].
  unfold builds_only in Hb. cbn [fst snd] in *.
  unfold nextPhase.
  destruct (m_currentPhaseIndex l' <? numberOfPhases l');
    match goal with
    | |- context [if ?c then Some _ else None] => destruct c
    end; cbn; intuition (auto; congruence).
Qed.

(** What [update()] leaves alone, in any state. *)
Lemma update_keeps_tile (s : Phased) :
  let s' := snd (update s) in
  (exists calls, objects (fst s') = objects (fst s) ++ calls) /\
  disposed (fst s') = disposed (fst s) /\
  isVisible (fst s') = isVisible (fst s) /\
  cacheable (fst s') = cacheable (fst s) /\
  m_loadPhaseDefinitions (snd s') = m_loadPhaseDefinitions (snd s) /\
  m_basicGeometryKinds (snd s') = m_basicGeometryKinds (snd s) /\
  (decodedTile (fst s') = decodedTile (fst s) \/ decodedTile (fst s') = None).
Proof.
  cbn zeta. rewrite update_effective.
  assert (He : fst (effective s) = fst s /\
               m_loadPhaseDefinitions (snd (effective s)) = m_loadPhaseDefinitions (snd s) /\
               m_basicGeometryKinds (snd (effective s)) = m_basicGeometryKinds (snd s)).
  { destruct s as [t l]. unfold effective. cbn [fst snd].
    destruct (m_decodedTile l); [auto|]. destruct (decodedTile t); cbn; auto. }
  destruct He as (Het & Hep & Heb). rewrite <- Het, <- Hep, <- Heb.
  pose proof (effective_steady s) as Hst.
  destruct (effective s) as [t l]. cbn [fst snd] in *.
  apply update_keeps_tile_steady. exact Hst.
Qed.

(** X5: what update() never does, in any state: it never removes or
    reorders what has been created for the tile (calls are only appended), it
    never changes the tile's disposed, isVisible or cacheable, the loader's
    phase list or its basic kinds, and the tile's payload is either kept or
    dropped. *)
Theorem update_only_appends (s : Phased) :
  let s' := snd (update s) in
  (exists calls, objects (fst s') = objects (fst s) ++ calls) /\
  disposed (fst s') = disposed (fst s) /\
  isVisible (fst s') = isVisible (fst s) /\
  cacheable (fst s') = cacheable (fst s) /\
  m_loadPhaseDefinitions (snd s') = m_loadPhaseDefinitions (snd s) /\
  m_basicGeometryKinds (snd s') = m_basicGeometryKinds (snd s) /\
  (decodedTile (fst s') = decodedTile (fst s) \/ decodedTile (fst s') = None).
Proof. apply update_keeps_tile. Qed.

Lemma kindsOfFirst_S k (phases : list PhaseList) :
  kindsOfFirst (S k) phases
  = list_to_set (default [] (phases !! k)) ∪ kindsOfFirst k phases.
Proof.
  unfold kindsOfFirst. destruct (phases !! k) as [phase|] eqn:E.
  - rewrite (take_S_r _ _ _ E), concat_app, list_to_set_app_L. simpl.
    rewrite app_nil_r. set_solver.
  - apply lookup_ge_None in E. rewrite !take_ge by lia. simpl. set_solver.
Qed.

Lemma basicGeometryLoaded_subseteq (l : @PhasedLoader DecodedTile) :
  basicGeometryLoaded l = bool_decide (m_basicGeometryKinds l ⊆ m_geometryKindsLoaded l).
Proof.
  unfold basicGeometryLoaded.
  destruct (forallb _ _) eqn:E.
  - symmetry. apply bool_decide_eq_true. intros k Hk.
    rewrite forallb_forall in E.
    assert (Hin : In k (elements (m_basicGeometryKinds l)))
      by (apply list_elem_of_In, elem_of_elements; exact Hk).
    exact (proj1 (bool_decide_eq_true _) (E k Hin)).
  - symmetry. apply bool_decide_eq_false. intros Hsub.
    assert (Ht : forallb (fun k => bool_decide (k ∈ m_geometryKindsLoaded l))
                   (elements (m_basicGeometryKinds l)) = true).
    { apply forallb_forall. intros k Hk.
      apply (proj2 (bool_decide_eq_true _)), Hsub.
      apply elem_of_elements, list_elem_of_In. exact Hk. }
    congruence.
Qed.

Lemma afterUpdates_kinds (phases : list PhaseList) (basic : gset TileGeometryKind) k
    (s : Phased) :
  afterUpdates (length phases) k s ->
  m_loadPhaseDefinitions (snd s) = phases ->
  m_basicGeometryKinds (snd s) = basic ->
  m_geometryKindsLoaded (snd s) = kindsOfFirst k phases ->
  m_loadPhaseDefinitions (snd (snd (update s))) = phases /\
  m_basicGeometryKinds (snd (snd (update s))) = basic /\
  m_geometryKindsLoaded (snd (snd (update s))) = kindsOfFirst (S k) phases.
Proof.
  intros Hafter Hp Hb Hk.
  destruct (update_keeps_tile s) as (_ & _ & _ & _ & Hp' & Hb' & _).
  cbn zeta in Hp', Hb'. rewrite Hp', Hb'. split; [exact Hp|]. split; [exact Hb|].
  destruct (le_lt_dec (length phases) k) as [Hge | Hlt].
  - destruct (afterUpdates_step hasGeometry _ _ _ Hafter) as (_ & _ & Hno).
    destruct (Hno Hge) as (_ & Hsame & _). unfold loadedKinds in Hsame.
    rewrite Hsame, Hk. unfold kindsOfFirst. rewrite !take_ge by lia. reflexivity.
  - rewrite kindsOfFirst_S.
    destruct s as [t l]. cbn [fst snd] in *.
    destruct Hafter as (Hc & HN & Hcp & Hcase). rewrite Nat.min_l in Hcp by lia.
    cbn [fst snd] in *.
    destruct Hcase as [(Hk0 & Hd & Ht & Hks) | [(Hd & _) | (_ & _ & Hcontra & _)]]; [| |lia].
    + destruct (decodedTile t) as [d|] eqn:Et; [|congruence].
      rewrite (update_captures hasGeometry t l d Hd Et).
      destruct (update_builds hasGeometry t
                  (withKinds ∅ (withPhase 0 (withDecoded (Some d) l))) d Hc eq_refl)
        as (s' & Hu & _ & _ & _ & _ & Hks' & _).
      { unfold currentPhase, numberOfPhases, withKinds, withPhase, withDecoded in *.
        cbn [PhasedTileGeometryLoader.m_loadPhaseDefinitions m_currentPhaseIndex] in *. lia. }
      rewrite Hu. cbn [snd]. rewrite Hks', Hk0.
      unfold withKinds, withPhase, withDecoded, currentPhase.
      cbn [PhasedTileGeometryLoader.m_loadPhaseDefinitions m_currentPhaseIndex
           m_geometryKindsLoaded].
      rewrite Hp. unfold kindsOfFirst. rewrite take_0. reflexivity.
    + destruct (m_decodedTile l) as [d|] eqn:Ed; [|congruence].
      destruct (update_builds hasGeometry t l d Hc Ed) as (s' & Hu & _ & _ & _ & _ & Hks' & _).
      { lia. }
      rewrite Hu. cbn [snd]. rewrite Hks', Hcp, Hp, Hk. reflexivity.
Qed.

(** X6: which kinds are loaded after k calls of update(), for a fresh loader
    on a cacheable tile that holds a payload: exactly the kinds listed in the
    first k phases (all of them once k reaches the number of phases), and
    basicGeometryLoaded is true exactly when these include every basic
    kind. *)
Theorem update_loads_kinds_of_passed_phases (t : @Tile DecodedTile) (d : DecodedTile)
    (phases : list PhaseList) (basic : gset TileGeometryKind) (k : nat) :
  decodedTile t = Some d -> cacheable t = true ->
  let l := snd (updates k (t, newPhasedTileGeometryLoader phases basic)) in
  loadedKinds l = kindsOfFirst k phases /\
  basicGeometryLoaded l = bool_decide (basic ⊆ kindsOfFirst k phases).
Proof.
  intros Ht Hc. cbn zeta.
  set (s0 := (t, newPhasedTileGeometryLoader phases basic)).
  assert (H0 : afterUpdates (length phases) 0 s0)
    by (apply afterUpdates_fresh; [congruence | exact Hc]).
  assert (Hinv : m_loadPhaseDefinitions (snd (updates k s0)) = phases /\
                 m_basicGeometryKinds (snd (updates k s0)) = basic /\
                 m_geometryKindsLoaded (snd (updates k s0)) = kindsOfFirst k phases).
  { induction k as [|k IH].
    - unfold kindsOfFirst. rewrite take_0. auto.
    - destruct IH as (Hp & Hb & Hk).
      change (updates (S k) s0) with (snd (update (updates k s0))).
      apply afterUpdates_kinds; auto.
      apply afterUpdates_updates. exact H0. }
  destruct Hinv as (Hp & Hb & Hk). split; [exact Hk|].
  rewrite basicGeometryLoaded_subseteq, Hb, Hk. reflexivity.
Qed.

(** *** Every kind is built once *)

Lemma kindCall_inj (d : DecodedTile) k1 k2 c :
  kindCall d k1 = Some c -> kindCall d k2 = Some c -> k1 = k2.
Proof. destruct k1, k2; cbn; intros H1 H2; congruence. Qed.

Lemma kindCall_not_background (d : DecodedTile) k c :
  kindCall d k = Some c -> isBackground c = false.
Proof. destruct k; cbn; intros [= <-]; reflexivity. Qed.

Lemma kindCalls_app (l1 l2 : list (@BackendCall DecodedTile)) :
  kindCalls (l1 ++ l2) = kindCalls l1 ++ kindCalls l2.
Proof. apply List.filter_app. Qed.

(** What [createKind] appends for a kind that is not loaded yet. *)
Lemma createKind_calls (t : @Tile DecodedTile) (l : PhasedLoader) d kind :
  m_decodedTile l = Some d -> kind ∉ m_geometryKindsLoaded l ->
  exists calls,
    objects (fst (createKind (t, l) kind)) = objects t ++ calls /\
    kindCalls calls = match kindCall d kind with Some c => [c] | None => [] end.
Proof.
  intros Hd Hnew. unfold PhasedTileGeometryLoader.createKind.
  rewrite bool_decide_eq_false_2 by exact Hnew.
  destruct kind; cbn [withKinds PhasedTileGeometryLoader.m_decodedTile]; rewrite ?Hd;
    try destruct (hasGeometry (objects t)); cbn [negb];
    first
      [ exists []; split; [cbn; rewrite app_nil_r; reflexivity | reflexivity]
      | eexists [_]; split; [cbn; reflexivity | reflexivity]
      | eexists [_; _]; split; [cbn; rewrite <- app_assoc; reflexivity | reflexivity] ].
Qed.

Lemma createKind_builtOnce d base calls (s : Phased) kind :
  m_decodedTile (snd s) = Some d ->
  objects (fst s) = base ++ calls ->
  builtOnce d (m_geometryKindsLoaded (snd s)) calls ->
  exists calls',
    objects (fst (createKind s kind)) = base ++ calls' /\
    builtOnce d (m_geometryKindsLoaded (snd (createKind s kind))) calls'.
Proof.
  destruct s as [t l]. cbn [fst snd]. intros Hd Hobj (Hnd & Hfrom).
  rewrite createKind_kinds.
  destruct (decide (kind ∈ m_geometryKindsLoaded l)) as [Hin | Hnew].
  - exists calls. unfold PhasedTileGeometryLoader.createKind.
    rewrite bool_decide_eq_true_2 by exact Hin. cbn [fst snd].
    split; [exact Hobj|]. split; [exact Hnd|].
    intros c Hc. destruct (Hfrom c Hc) as (k & Hk & Hcall). exists k. split; [set_solver | exact Hcall].
  - destruct (createKind_calls t l d kind Hd Hnew) as (more & Hmore & Hkind).
    exists (calls ++ more). split; [rewrite Hmore, Hobj, app_assoc; reflexivity|].
    unfold builtOnce. rewrite kindCalls_app, Hkind. split.
    + destruct (kindCall d kind) as [c|] eqn:Ec; [|rewrite app_nil_r; exact Hnd].
      apply NoDup_app. split; [exact Hnd|]. split; [|apply NoDup_singleton].
      intros c' Hc' Hin. apply list_elem_of_singleton in Hin. subst c'.
      destruct (Hfrom c Hc') as (k & Hk & Hcall).
      rewrite (kindCall_inj d kind k c Ec Hcall) in Hnew. contradiction.
    + intros c Hc. apply elem_of_app in Hc as [Hc | Hc].
      * destruct (Hfrom c Hc) as (k & Hk & Hcall). exists k. split; [set_solver | exact Hcall].
      * destruct (kindCall d kind) as [c0|] eqn:Ec; [|inversion Hc].
        apply list_elem_of_singleton in Hc. subst c. exists kind. split; [set_solver | exact Ec].
Qed.

Lemma createKinds_builtOnce d base def :
  forall calls (s : Phased),
    m_decodedTile (snd s) = Some d ->
    objects (fst s) = base ++ calls ->
    builtOnce d (m_geometryKindsLoaded (snd s)) calls ->
    exists calls',
      objects (fst (fold_left createKind def s)) = base ++ calls' /\
      builtOnce d (m_geometryKindsLoaded (snd (fold_left createKind def s))) calls'.
Proof.
  induction def as [|kind def IH]; intros calls s Hd Hobj Hb; cbn [fold_left].
  - exists calls. auto.
  - destruct (createKind_builtOnce d base calls s kind Hd Hobj Hb) as (calls1 & Hobj1 & Hb1).
    apply (IH calls1); [|exact Hobj1 | exact Hb1].
    destruct (createKind_builds_only hasGeometry s kind) as (_ & _ & _ & _ & Hsame & _).
    rewrite Hsame. exact Hd.
Qed.

Lemma update_atWork d base calls (s : Phased) :
  atWork d base calls s -> exists calls', atWork d base calls' (snd (update s)).
Proof.
  destruct s as [t l]. intros (Hc & Hobj & Hcase). cbn [fst snd] in *.
  assert (Harmed : forall l0 calls0, m_decodedTile l0 = Some d ->
            objects t = base ++ calls0 ->
            builtOnce d (m_geometryKindsLoaded l0) calls0 ->
            exists calls', atWork d base calls' (snd (update (t, l0)))).
  { clear l calls Hobj Hcase. intros l calls Hd Hobj Hb.
    rewrite (update_steady t l) by (left; congruence). rewrite Hc, Hd. cbn [negb].
    destruct (numberOfPhases l <=? currentPhase l).
    { exists calls. cbn [snd]. split; [exact Hc|]. split; [exact Hobj|]. right. auto. }
    set (def := default [] (m_loadPhaseDefinitions l !! currentPhase l)).
    destruct (createKinds_builtOnce d base def calls (t, l) Hd Hobj Hb) as (calls' & Hobj' & Hb').
    pose proof (createKinds_builds_only hasGeometry def (t, l)) as Hsame.
    destruct (fold_left createKind def (t, l)) as [t' l'].
    destruct Hsame as (_ & _ & _ & Hc' & Hd' & _). cbn [fst snd] in *.
    exists calls'.
    assert (Hnext : PhasedTileGeometryLoader.m_decodedTile (snd (nextPhase l'))
                    = PhasedTileGeometryLoader.m_decodedTile l' /\
                    m_geometryKindsLoaded (snd (nextPhase l')) = m_geometryKindsLoaded l').
    { unfold nextPhase. cbn [snd]. destruct (m_currentPhaseIndex l' <? numberOfPhases l');
        split; reflexivity. }
    destruct (nextPhase l') as [next l'']. cbn [snd] in Hnext. destruct Hnext as (Hd'' & Hk'').
    unfold atWork.
    destruct next; cbn [snd fst finish removeDecodedTile withFinished withDecoded
                        cacheable objects decodedTile PhasedTileGeometryLoader.m_decodedTile
                        m_geometryKindsLoaded]; rewrite ?Hk''.
    + split; [congruence|]. split; [exact Hobj'|]. right. split; [left; congruence | exact Hb'].
    + split; [congruence|]. split; [exact Hobj'|]. right. split; [right; auto | exact Hb']. }
  destruct Hcase as [(Hd & Ht & ->) | ([Hd | (Hd & Ht)] & Hb)].
  - rewrite (update_captures hasGeometry t l d Hd Ht).
    apply (Harmed _ []); [reflexivity | exact Hobj|].
    split; [constructor|]. intros c Hc0. inversion Hc0.
  - apply (Harmed l calls); assumption.
  - rewrite (update_idle hasGeometry t l Hc) by (left; auto).
    exists calls. cbn [snd]. split; [exact Hc|]. split; [exact Hobj|]. right. auto.
Qed.

(** X25: no geometry is created twice for a payload: for a fresh loader on
    a cacheable tile that holds a payload, after any number of calls of
    update() each creator call other than the one for the background has
    been made at most once, also when a kind is listed in several phases,
    and each one is the call, on that payload, of a kind recorded as
    loaded. *)
Theorem update_builds_each_kind_once (t : @Tile DecodedTile) (d : DecodedTile)
    (phases : list PhaseList) (basic : gset TileGeometryKind) (k : nat) :
  decodedTile t = Some d -> cacheable t = true ->
  let s := updates k (t, newPhasedTileGeometryLoader phases basic) in
  exists calls,
    objects (fst s) = objects t ++ calls /\
    NoDup (kindCalls calls) /\
    forall c, c ∈ kindCalls calls ->
      exists kind, kind ∈ loadedKinds (snd s) /\ kindCall d kind = Some c.
Proof.
  intros Ht Hc. cbn zeta.
  assert (Hinv : exists calls,
            atWork d (objects t) calls (updates k (t, newPhasedTileGeometryLoader phases basic))).
  { induction k as [|k (calls & IH)].
    - exists []. split; [exact Hc|]. split; [cbn; rewrite app_nil_r; reflexivity|].
      left. cbn. auto.
    - change (updates (S k) ?s) with (snd (update (updates k s))).
      eapply update_atWork. exact IH. }
  destruct Hinv as (calls & _ & Hobj & Hcase).
  exists calls. split; [exact Hobj|].
  destruct Hcase as [(_ & _ & ->) | (_ & Hnd & Hfrom)].
  - split; [constructor|]. intros c Hc0. inversion Hc0.
  - split; [exact Hnd | exact Hfrom].
Qed.

End PhasedExtras.

End PhasedExtras.

(** ** More about the PhasedTileGeometryManager *)

Module ManagerExtras.
Import Tiles PhasedTileGeometryLoader PhasedTileGeometryManager PhasedSpec ManagerSpec
       PhasedFacts TileExtrasSpec.

Section ManagerExtras.

Context {DecodedTile : Type}.
Variable hasGeometry : list (@BackendCall DecodedTile) -> bool.

Local Abbreviation Phased := (@Phased DecodedTile).
Local Abbreviation ManagedTile := (@ManagedTile DecodedTile).
Local Abbreviation update := (update hasGeometry).
Local Abbreviation updateToPhase := (updateToPhase hasGeometry).
Local Abbreviation updateAllTilesLoop := (updateAllTilesLoop hasGeometry).
Local Abbreviation updateAllTiles := (updateAllTiles hasGeometry).
Local Abbreviation updateTilesIfNeededLoop := (updateTilesIfNeededLoop hasGeometry).
Local Abbreviation updateTilesIfNeeded := (updateTilesIfNeeded hasGeometry).
Local Abbreviation updateTilesTogether := (updateTilesTogether hasGeometry).
Local Abbreviation updateTiles := (updateTiles hasGeometry).
Local Abbreviation updated := (updated hasGeometry).
Local Abbreviation updatedToPhase := (updatedToPhase hasGeometry).
Local Abbreviation reportsUpdate := (reportsUpdate hasGeometry).
Local Abbreviation updatesReported := (updatesReported hasGeometry).
Local Abbreviation frames := (frames hasGeometry).

(** *** The budget of updates per frame *)

Lemma updateTilesIfNeededLoop_unbounded m mv toPhase n (tiles : list ManagedTile) :
  isDynamicFrame mv = false \/ m_maximumUpdatesPerFrame m = 0 ->
  updateTilesIfNeededLoop m mv toPhase n tiles = map (updatedToPhase toPhase) tiles.
Proof.
  intros Hun. revert n. induction tiles as [|[t [l|]] tiles IH]; intros n; simpl.
  - reflexivity.
  - unfold TileExtrasSpec.updatedToPhase at 1. cbn [fst snd].
    destruct (updateToPhase toPhase (t, l)) as [b [t' l']]. cbn [fst snd].
    assert (Hno : isDynamicFrame mv && (0 <? m_maximumUpdatesPerFrame m)
                  && (m_maximumUpdatesPerFrame m <=? S n) = false).
    { destruct Hun as [-> | ->]; [reflexivity|]. destruct (isDynamicFrame mv); reflexivity. }
    rewrite Hno. destruct b; rewrite IH; reflexivity.
  - rewrite IH. reflexivity.
Qed.

Lemma updateAllTilesLoop_unbounded m mv n (tiles : list ManagedTile) :
  isDynamicFrame mv = false \/ m_maximumUpdatesPerFrame m = 0 ->
  updateAllTilesLoop m mv n tiles = map updated tiles.
Proof.
  intros Hun. revert n. induction tiles as [|[t [l|]] tiles IH]; intros n; simpl.
  - reflexivity.
  - unfold TileExtrasSpec.updated at 1. cbn [fst snd].
    destruct (update (t, l)) as [b [t' l']]. cbn [fst snd].
    assert (Hno : (0 <? m_maximumUpdatesPerFrame m)
                  && (m_maximumUpdatesPerFrame m <=? S n) && isDynamicFrame mv = false).
    { destruct Hun as [-> | ->]; [apply andb_false_r | reflexivity]. }
    rewrite Hno. destruct b; rewrite IH; reflexivity.
  - rewrite IH. reflexivity.
Qed.

(** X7: the budget m_maximumUpdatesPerFrame applies to dynamic frames only:
    in a static frame, and with a budget of 0, updateTilesIfNeeded calls
    updateToPhase on every tile that has a loader and updateAllTiles calls
    update() on every one, however many of them report work. *)
Theorem budget_applies_to_dynamic_frames_only m mv (tiles : list ManagedTile)
    (toPhase : nat) :
  isDynamicFrame mv = false \/ m_maximumUpdatesPerFrame m = 0 ->
  updateTilesIfNeeded m mv tiles toPhase = map (updatedToPhase toPhase) tiles /\
  updateAllTiles m mv tiles = map updated tiles.
Proof.
  intros Hun. split.
  - apply updateTilesIfNeededLoop_unbounded. exact Hun.
  - apply updateAllTilesLoop_unbounded. exact Hun.
Qed.

Lemma updateAllTilesLoop_budget m mv (tiles : list ManagedTile) :
  isDynamicFrame mv = true ->
  forall n, n < m_maximumUpdatesPerFrame m ->
  exists k,
    updateAllTilesLoop m mv n tiles = map updated (take k tiles) ++ drop k tiles /\
    n + updatesReported (take k tiles) <= m_maximumUpdatesPerFrame m /\
    (k < length tiles -> n + updatesReported (take k tiles) = m_maximumUpdatesPerFrame m).
Proof.
  intros Hdyn. induction tiles as [|[t [l|]] tiles IH]; intros n Hn.
  - exists 0. simpl. unfold TileExtrasSpec.updatesReported. simpl. split; [reflexivity|]. lia.
  - simpl.
    assert (Hupd : updated (t, Some l)
                   = (fst (snd (update (t, l))), Some (snd (snd (update (t, l))))))
      by reflexivity.
    assert (Hrep : reportsUpdate (t, Some l) = fst (update (t, l))) by reflexivity.
    destruct (update (t, l)) as [b [t' l']] eqn:Eu. cbn [fst snd] in Hupd, Hrep.
    destruct b.
    + rewrite Hdyn, andb_true_r.
      assert (H0 : (0 <? m_maximumUpdatesPerFrame m) = true) by (apply Nat.ltb_lt; lia).
      rewrite H0. cbn [andb].
      destruct (m_maximumUpdatesPerFrame m <=? S n) eqn:E.
      * apply Nat.leb_le in E. exists 1. cbn [take drop map app].
        rewrite Hupd. split; [reflexivity|].
        unfold TileExtrasSpec.updatesReported. cbn [List.filter].
        rewrite Hrep, take_0. simpl. lia.
      * apply Nat.leb_gt in E. destruct (IH (S n) E) as (k & Hk & Hle & Hlt).
        exists (S k). cbn [take drop map app]. rewrite Hupd, Hk.
        split; [reflexivity|].
        unfold TileExtrasSpec.updatesReported in *. cbn [List.filter].
        rewrite Hrep. cbn [length]. split; [lia|]. intros Hkl. simpl in Hkl.
        assert (k < length tiles) by lia. specialize (Hlt ltac:(assumption)). lia.
    + destruct (IH n Hn) as (k & Hk & Hle & Hlt).
      exists (S k). cbn [take drop map app]. rewrite Hupd, Hk.
      split; [reflexivity|].
      unfold TileExtrasSpec.updatesReported in *. cbn [List.filter].
      rewrite Hrep. split; [exact Hle|]. intros Hkl. simpl in Hkl.
      apply Hlt. lia.
  - simpl. destruct (IH n Hn) as (k & Hk & Hle & Hlt).
    exists (S k). cbn [take drop map app]. rewrite Hk.
    split; [reflexivity|].
    unfold TileExtrasSpec.updatesReported in *. cbn [List.filter].
    change (TileExtrasSpec.reportsUpdate hasGeometry (t, None)) with false. cbn iota.
    split; [exact Hle|]. intros Hkl. simpl in Hkl. apply Hlt. lia.
Qed.

(** X8: the budget of a dynamic frame: with m_maximumUpdatesPerFrame
    positive, updateAllTiles calls update() on the tiles of a leading part of
    the list and leaves the others untouched; within that part at most
    m_maximumUpdatesPerFrame tiles report work, and exactly that many when
    tiles are left out. *)
Theorem dynamic_frame_respects_budget m mv (tiles : list ManagedTile) :
  isDynamicFrame mv = true -> 0 < m_maximumUpdatesPerFrame m ->
  exists k,
    updateAllTiles m mv tiles = map updated (take k tiles) ++ drop k tiles /\
    updatesReported (take k tiles) <= m_maximumUpdatesPerFrame m /\
    (k < length tiles -> updatesReported (take k tiles) = m_maximumUpdatesPerFrame m).
Proof.
  intros Hdyn Hmax.
  destruct (updateAllTilesLoop_budget m mv tiles Hdyn 0 Hmax) as (k & Hk & Hle & Hlt).
  exists k. split; [exact Hk|]. split; [exact Hle | exact Hlt].
Qed.

(** *** Static frames on tiles that all hold a payload *)

Lemma updateToPhase_one_step (t : @Tile DecodedTile) (l : PhasedLoader) :
  cacheable t = true -> currentPhase l < numberOfPhases l -> supplied (t, l) ->
  updateToPhase (S (currentPhase l)) (t, l) = update (t, l) /\
  fst (update (t, l)) = true /\
  cacheable (fst (snd (update (t, l)))) = true /\
  numberOfPhases (snd (snd (update (t, l)))) = numberOfPhases l /\
  currentPhase (snd (snd (update (t, l)))) = S (currentPhase l) /\
  (S (currentPhase l) < numberOfPhases l -> m_decodedTile (snd (snd (update (t, l)))) <> None).
Proof.
  intros Hc Hlt Hsup.
  assert (Hu : exists s1, update (t, l) = (true, s1) /\
                 cacheable (fst s1) = true /\
                 numberOfPhases (snd s1) = numberOfPhases l /\
                 currentPhase (snd s1) = S (currentPhase l) /\
                 (S (currentPhase l) < numberOfPhases l -> m_decodedTile (snd s1) <> None)).
  { destruct Hsup as [Hd | (Hcp & Hd & Ht)]; cbn [fst snd] in *.
    - destruct (m_decodedTile l) as [d|] eqn:Ed; [|congruence].
      destruct (update_builds hasGeometry t l d Hc Ed Hlt)
        as (s1 & Hu & Hc1 & Hp1 & _ & Hcp1 & _ & Hfin).
      exists s1. split; [exact Hu|]. split; [exact Hc1|].
      split; [unfold numberOfPhases; rewrite Hp1; reflexivity|].
      split; [exact Hcp1|]. intros Hlt1.
      apply Nat.ltb_lt in Hlt1. rewrite Hlt1 in Hfin.
      destruct Hfin as (-> & _). discriminate.
    - destruct (decodedTile t) as [d|] eqn:Et; [|congruence].
      rewrite (update_captures hasGeometry t l d Hd Et).
      destruct (update_builds hasGeometry t
                  (withKinds ∅ (withPhase 0 (withDecoded (Some d) l))) d Hc eq_refl)
        as (s1 & Hu & Hc1 & Hp1 & _ & Hcp1 & _ & Hfin).
      { unfold currentPhase, numberOfPhases in *. cbn. lia. }
      exists s1. split; [exact Hu|]. split; [exact Hc1|].
      split; [unfold numberOfPhases; rewrite Hp1; reflexivity|].
      rewrite Hcp. split; [exact Hcp1|]. intros Hlt1.
      change (currentPhase (withKinds ∅ (withPhase 0 (withDecoded (Some d) l)))) with 0 in Hfin.
      change (numberOfPhases (withKinds ∅ (withPhase 0 (withDecoded (Some d) l))))
        with (numberOfPhases l) in Hfin.
      apply Nat.ltb_lt in Hlt1. rewrite Hlt1 in Hfin.
      destruct Hfin as (-> & _). discriminate. }
  destruct Hu as (s1 & Hu & Hc1 & HN1 & Hcp1 & Hd1).
  rewrite Hu. cbn [fst snd]. split; [|auto].
  unfold PhasedTileGeometryLoader.updateToPhase, updateToPhaseFuel. cbn [snd].
  replace (numberOfPhases l + 2) with (S (numberOfPhases l + 1)) by lia.
  cbn [PhasedTileGeometryLoader.updateToPhaseLoop snd].
  replace (currentPhase l <? S (currentPhase l)) with true
    by (symmetry; apply Nat.ltb_lt; lia).
  rewrite Hu. cbn [negb].
  replace (numberOfPhases l + 1) with (S (numberOfPhases l)) by lia.
  cbn [PhasedTileGeometryLoader.updateToPhaseLoop].
  rewrite Hcp1, Nat.ltb_irrefl. reflexivity.
Qed.

Lemma inStep_next N n (mt : ManagedTile) :
  inStep N n mt -> n < N -> inStep N (S n) (updatedToPhase (S n) mt).
Proof.
  destruct mt as [t lo]. intros (l & Hl & Hc & HN & Hcp & Hsup) Hlt.
  cbn [fst snd] in *. subst lo. rewrite Nat.min_l in Hcp by lia.
  unfold TileExtrasSpec.updatedToPhase. cbn [fst snd].
  destruct (updateToPhase_one_step t l Hc) as (Hsame & _ & Hc1 & HN1 & Hcp1 & Hd1);
    [lia | apply Hsup; lia |].
  rewrite <- Hcp, Hsame.
  eexists. split; [reflexivity|]. cbn [fst snd].
  split; [exact Hc1|]. split; [lia|].
  split; [rewrite Hcp1, Hcp; lia|].
  intros Hlt1. left. cbn [snd]. apply Hd1. lia.
Qed.

Lemma inStep_done N n (mt : ManagedTile) : inStep N n mt -> N <= n -> inStep N (S n) mt.
Proof.
  intros (l & Hl & Hc & HN & Hcp & Hsup) Hge.
  exists l. split; [exact Hl|]. split; [exact Hc|]. split; [exact HN|].
  split; [lia|]. intros; lia.
Qed.

Lemma lowestPhaseLoop_inStep N n (tiles : list ManagedTile) :
  Forall (inStep N n) tiles ->
  lowestPhaseLoop (Some (Nat.min n N)) tiles = Some (Nat.min n N) /\
  (tiles <> [] -> lowestPhaseLoop None tiles = Some (Nat.min n N)).
Proof.
  intros Hall.
  assert (Hacc : lowestPhaseLoop (Some (Nat.min n N)) tiles = Some (Nat.min n N)).
  { induction Hall as [|[t lo] tiles (l & Hl & _ & _ & Hcp & _) Hall IH]; [reflexivity|].
    cbn [snd] in Hl. subst lo. simpl. rewrite Hcp, Nat.ltb_irrefl. exact IH. }
  split; [exact Hacc|]. intros Hne.
  destruct Hall as [|[t lo] tiles (l & Hl & _ & _ & Hcp & _) Hall]; [congruence|].
  cbn [snd] in Hl. subst lo. simpl. rewrite Hcp. clear Hacc Hne.
  induction Hall as [|[t' lo'] tiles' (l' & Hl' & _ & _ & Hcp' & _) Hall IH]; [reflexivity|].
  cbn [snd] in Hl'. subst lo'. simpl. rewrite Hcp', Nat.ltb_irrefl. exact IH.
Qed.

Lemma checkTilesFinished_inStep N n (tiles : list ManagedTile) :
  Forall (inStep N n) tiles ->
  checkTilesFinished tiles = bool_decide (tiles = [] \/ N <= n).
Proof.
  intros Hall.
  induction Hall as [|[t lo] tiles (l & Hl & _ & HN & Hcp & _) Hall IH].
  - rewrite bool_decide_eq_true_2; [reflexivity | left; reflexivity].
  - cbn [snd] in Hl. subst lo. simpl. unfold allGeometryLoaded. rewrite HN, Hcp.
    destruct (le_lt_dec N n) as [Hge | Hlt].
    + replace (N <=? Nat.min n N) with true by (symmetry; apply Nat.leb_le; lia).
      cbn [negb]. rewrite IH.
      rewrite !bool_decide_eq_true_2 by (right; exact Hge). reflexivity.
    + replace (N <=? Nat.min n N) with false by (symmetry; apply Nat.leb_gt; lia).
      cbn [negb]. symmetry. apply bool_decide_eq_false. intros [Hnil | Hle]; [discriminate | lia].
Qed.

Lemma static_frame_inStep m mv n (tiles : list ManagedTile) :
  isDynamicFrame mv = false ->
  Forall (inStep (length (m_loadPhaseDefinitions m)) n) tiles ->
  Forall (inStep (length (m_loadPhaseDefinitions m)) (S n)) (fst (updateTiles m mv tiles)).
Proof.
  intros Hstatic Hall.
  assert (Hfst : fst (updateTiles m mv tiles) = updateTilesTogether m mv tiles).
  { unfold PhasedTileGeometryManager.updateTiles. rewrite Hstatic.
    destruct (negb _); reflexivity. }
  rewrite Hfst. unfold PhasedTileGeometryManager.updateTilesTogether.
  destruct tiles as [|mt tiles].
  { simpl. constructor. }
  destruct (lowestPhaseLoop_inStep _ _ _ Hall) as (_ & Hlow).
  rewrite Hlow by discriminate.
  destruct (Nat.min n (length (m_loadPhaseDefinitions m)) <? length (m_loadPhaseDefinitions m))
    eqn:E.
  - apply Nat.ltb_lt in E.
    assert (Hlt : n < length (m_loadPhaseDefinitions m)) by lia.
    rewrite Nat.min_l by lia.
    unfold PhasedTileGeometryManager.updateTilesIfNeeded.
    rewrite updateTilesIfNeededLoop_unbounded by (left; exact Hstatic).
    apply Forall_fmap. eapply Forall_impl; [exact Hall|].
    intros mt' Hmt. apply inStep_next; assumption.
  - apply Nat.ltb_ge in E.
    eapply Forall_impl; [exact Hall|]. intros mt' Hmt. apply inStep_done; [exact Hmt | lia].
Qed.

Lemma static_frame_length m mv (tiles : list ManagedTile) :
  isDynamicFrame mv = false -> length (fst (updateTiles m mv tiles)) = length tiles.
Proof.
  intros Hstatic.
  assert (Hfst : fst (updateTiles m mv tiles) = updateTilesTogether m mv tiles).
  { unfold PhasedTileGeometryManager.updateTiles. rewrite Hstatic.
    destruct (negb _); reflexivity. }
  rewrite Hfst. unfold PhasedTileGeometryManager.updateTilesTogether.
  destruct (lowestPhaseLoop None tiles) as [low|]; [|reflexivity].
  destruct (low <? _); [|reflexivity].
  unfold PhasedTileGeometryManager.updateTilesIfNeeded.
  rewrite updateTilesIfNeededLoop_unbounded by (left; exact Hstatic).
  apply length_map.
Qed.

Lemma frames_inStep m mv n (ts : list (@Tile DecodedTile)) :
  isDynamicFrame mv = false ->
  Forall (fun t => cacheable t = true /\ decodedTile t <> None) ts ->
  Forall (inStep (length (m_loadPhaseDefinitions m)) n) (frames m mv n (map (initTile m) ts)).
Proof.
  intros Hstatic Hts. induction n as [|n IH].
  - simpl. apply Forall_fmap. eapply Forall_impl; [exact Hts|].
    intros t (Hc & Hd). eexists. split; [reflexivity|]. cbn [fst snd].
    split; [exact Hc|]. split; [reflexivity|]. split; [reflexivity|].
    intros _. right. cbn. auto.
  - change (frames m mv (S n) (map (initTile m) ts))
      with (fst (updateTiles m mv (frames m mv n (map (initTile m) ts)))).
    apply static_frame_inStep; assumption.
Qed.

(** X9: static frames take tiles with payloads through the phases
    together: for tiles of cacheable data sources that hold a payload when
    the manager initialises them, after n static frames the cursor of every
    tile is at min(n, N) for the N phases of the manager; a frame asks the map
    view for another one while it leaves phases to do, and the frame that
    completes the last phase, like every frame after it, asks for none. *)
Theorem static_frames_advance_together m mv (ts : list (@Tile DecodedTile)) (n : nat) :
  isDynamicFrame mv = false ->
  Forall (fun t => cacheable t = true /\ decodedTile t <> None) ts ->
  let N := length (m_loadPhaseDefinitions m) in
  let tiles := frames m mv n (map (initTile m) ts) in
  Forall (fun mt => exists l, snd mt = Some l /\ currentPhase l = Nat.min n N) tiles /\
  (S n < N -> ts <> [] ->
   snd (updateTiles m mv tiles) = mkMapView false (S (updateCalls mv))) /\
  (N <= S n -> snd (updateTiles m mv tiles) = mv).
Proof.
  intros Hstatic Hts N tiles.
  pose proof (frames_inStep m mv n ts Hstatic Hts) as Hall. fold N tiles in Hall.
  pose proof (static_frame_inStep m mv n tiles Hstatic Hall) as Hnext. fold N in Hnext.
  split.
  { eapply Forall_impl; [exact Hall|].
    intros mt (l & Hl & _ & _ & Hcp & _). exists l. split; assumption. }
  assert (Hsnd : snd (updateTiles m mv tiles)
                 = if negb (checkTilesFinished (fst (updateTiles m mv tiles)))
                   then mkMapView (isDynamicFrame mv) (S (updateCalls mv)) else mv).
  { unfold PhasedTileGeometryManager.updateTiles.
    destruct (negb (checkTilesFinished _)) eqn:E; cbn [fst snd]; rewrite E; reflexivity. }
  rewrite Hsnd, (checkTilesFinished_inStep _ _ _ Hnext), Hstatic.
  assert (Hlen : length (fst (updateTiles m mv tiles)) = length ts).
  { rewrite static_frame_length by exact Hstatic. unfold tiles. clear -Hstatic.
    induction n as [|n IH]; [apply length_map|].
    change (frames m mv (S n) (map (initTile m) ts))
      with (fst (updateTiles m mv (frames m mv n (map (initTile m) ts)))).
    rewrite static_frame_length by exact Hstatic. exact IH. }
  split.
  - intros Hlt Hne. rewrite bool_decide_eq_false_2; [reflexivity|].
    intros [Hnil | Hle]; [|lia]. rewrite Hnil in Hlen. destruct ts; [congruence | discriminate].
  - intros Hge. rewrite bool_decide_eq_true_2; [reflexivity | right; exact Hge].
Qed.

(** *** Dynamic frames on tiles that all hold a payload *)

Lemma update_loading (t : @Tile DecodedTile) (l : PhasedLoader) :
  cacheable t = true -> currentPhase l < numberOfPhases l -> supplied (t, l) ->
  exists s1, update (t, l) = (true, s1) /\
    cacheable (fst s1) = true /\
    numberOfPhases (snd s1) = numberOfPhases l /\
    currentPhase (snd s1) = S (currentPhase l) /\
    (S (currentPhase l) < numberOfPhases l -> m_decodedTile (snd s1) <> None) /\
    (S (currentPhase l) = numberOfPhases l ->
     m_decodedTile (snd s1) = None /\ decodedTile (fst s1) = None).
Proof.
  intros Hc Hlt Hsup.
  assert (Hbuilds : forall l0 d, m_decodedTile l0 = Some d ->
            numberOfPhases l0 = numberOfPhases l -> currentPhase l0 = currentPhase l ->
            exists s1, update (t, l0) = (true, s1) /\
              cacheable (fst s1) = true /\
              numberOfPhases (snd s1) = numberOfPhases l /\
              currentPhase (snd s1) = S (currentPhase l) /\
              (S (currentPhase l) < numberOfPhases l -> m_decodedTile (snd s1) <> None) /\
              (S (currentPhase l) = numberOfPhases l ->
               m_decodedTile (snd s1) = None /\ decodedTile (fst s1) = None)).
  { intros l0 d Hd HN0 Hcp0.
    destruct (update_builds hasGeometry t l0 d Hc Hd ltac:(lia))
      as (s1 & Hu & Hc1 & Hp1 & _ & Hcp1 & _ & Hfin).
    rewrite Hcp0, HN0 in *.
    exists s1. split; [exact Hu|]. split; [exact Hc1|].
    split; [unfold numberOfPhases in *; rewrite Hp1; exact HN0|].
    split; [exact Hcp1|]. split.
    - intros Hlt1. apply Nat.ltb_lt in Hlt1. rewrite Hlt1 in Hfin.
      destruct Hfin as (-> & _). discriminate.
    - intros Heq. replace (S (currentPhase l) <? numberOfPhases l) with false in Hfin
        by (symmetry; apply Nat.ltb_ge; lia).
      tauto. }
  destruct Hsup as [Hd | (Hcp & Hd & Ht)]; cbn [fst snd] in *.
  - destruct (m_decodedTile l) as [d|] eqn:Ed; [|congruence].
    apply (Hbuilds l d); auto.
  - destruct (decodedTile t) as [d|] eqn:Et; [|congruence].
    rewrite (update_captures hasGeometry t l d Hd Et).
    apply (Hbuilds _ d); [reflexivity | reflexivity | symmetry; exact Hcp].
Qed.

Lemma loading_updated N (mt : ManagedTile) :
  loading N mt ->
  loading N (updated mt) /\
  reportsUpdate mt = negb (remaining N mt =? 0) /\
  remaining N (updated mt) + (if reportsUpdate mt then 1 else 0) = remaining N mt.
Proof.
  destruct mt as [t lo]. intros (l & Hl & Hc & HN & Hle & Hsup & Hdone).
  cbn [fst snd] in *. subst lo.
  unfold TileExtrasSpec.updated, TileExtrasSpec.reportsUpdate, TileExtrasSpec.remaining.
  cbn [fst snd].
  destruct (le_lt_dec N (currentPhase l)) as [Hge | Hlt].
  - assert (Heq : currentPhase l = N) by lia.
    destruct (Hdone Heq) as (Hd & Ht).
    rewrite (update_idle hasGeometry t l Hc) by (left; auto). cbn [fst snd].
    replace (N - currentPhase l) with 0 by lia.
    split; [|split; [reflexivity | reflexivity]].
    exists l. cbn [fst snd]. auto 10.
  - destruct (update_loading t l Hc ltac:(lia) (Hsup Hlt))
      as (s1 & Hu & Hc1 & HN1 & Hcp1 & Hd1 & Hfin1).
    rewrite Hu. cbn [fst snd]. rewrite Hcp1.
    split; [|split].
    + exists (snd s1). cbn [fst snd]. split; [reflexivity|]. split; [exact Hc1|].
      split; [lia|]. split; [lia|]. split.
      * intros Hlt1. left. cbn [snd]. apply Hd1. lia.
      * intros Heq. apply Hfin1. lia.
    + symmetry. apply negb_true_iff, Nat.eqb_neq. lia.
    + lia.
Qed.

Lemma remainingPhases_updated N (tiles : list ManagedTile) :
  Forall (loading N) tiles ->
  Forall (loading N) (map updated tiles) /\
  remainingPhases N (map updated tiles) + updatesReported tiles = remainingPhases N tiles /\
  (0 < remainingPhases N tiles -> 0 < updatesReported tiles).
Proof.
  unfold TileExtrasSpec.remainingPhases, TileExtrasSpec.updatesReported.
  induction 1 as [|mt tiles Hmt Hall (IH1 & IH2 & IH3)]; cbn [map foldr List.filter length].
  - split; [constructor|]. split; [reflexivity | cbn; lia].
  - destruct (loading_updated N mt Hmt) as (Hl & Hrep & Hrem).
    split; [constructor; assumption|].
    destruct (reportsUpdate mt) eqn:E; cbn [length].
    + split; lia.
    + symmetry in Hrep. apply negb_false_iff, Nat.eqb_eq in Hrep.
      split; [lia|]. intros Hpos. apply IH3. lia.
Qed.

Lemma remainingPhases_app N (l1 l2 : list ManagedTile) :
  remainingPhases N (l1 ++ l2) = remainingPhases N l1 + remainingPhases N l2.
Proof.
  unfold TileExtrasSpec.remainingPhases.
  induction l1 as [|x xs IH]; cbn [app foldr]; [reflexivity | rewrite IH; lia].
Qed.

Lemma dynamic_frame_progress m mv (tiles : list ManagedTile) :
  isDynamicFrame mv = true -> 0 < m_maximumUpdatesPerFrame m ->
  Forall (loading (length (m_loadPhaseDefinitions m))) tiles ->
  let N := length (m_loadPhaseDefinitions m) in
  let tiles' := fst (updateTiles m mv tiles) in
  Forall (loading N) tiles' /\
  length tiles' = length tiles /\
  remainingPhases N tiles' <= remainingPhases N tiles - 1.
Proof.
  intros Hdyn Hmax Hall N tiles'.
  assert (Hfst : tiles' = updateAllTiles m mv tiles).
  { unfold tiles', PhasedTileGeometryManager.updateTiles. rewrite Hdyn.
    destruct (negb _); reflexivity. }
  rewrite Hfst. clear Hfst tiles'.
  destruct (updateAllTilesLoop_budget m mv tiles Hdyn 0 Hmax) as (k & Hk & Hle & Hlt).
  cbn [Nat.add] in *. change (updateAllTilesLoop m mv 0 tiles) with (updateAllTiles m mv tiles) in Hk.
  rewrite Hk.
  assert (Htake : Forall (loading N) (take k tiles)) by (apply Forall_take; exact Hall).
  assert (Hdrop : Forall (loading N) (drop k tiles)) by (apply Forall_drop; exact Hall).
  destruct (remainingPhases_updated N (take k tiles) Htake) as (Hl & Hsum & Hpos).
  split; [apply Forall_app; split; assumption|].
  split; [rewrite length_app, length_map, <- length_app, take_drop; reflexivity|].
  rewrite remainingPhases_app.
  assert (Hsplit : remainingPhases N tiles
                   = remainingPhases N (take k tiles) + remainingPhases N (drop k tiles))
    by (rewrite <- remainingPhases_app, take_drop; reflexivity).
  destruct (le_lt_dec (length tiles) k) as [Hge | Hless].
  - rewrite drop_ge in * by lia. rewrite take_ge in * by lia.
    unfold TileExtrasSpec.remainingPhases at 2 in Hsplit. cbn in Hsplit.
    unfold TileExtrasSpec.remainingPhases at 2. cbn.
    destruct (Nat.eq_dec (remainingPhases N tiles) 0) as [Hz | Hnz]; [lia|].
    specialize (Hpos ltac:(lia)). lia.
  - specialize (Hlt Hless). lia.
Qed.

Lemma checkTilesFinished_loading N (tiles : list ManagedTile) :
  Forall (loading N) tiles -> remainingPhases N tiles = 0 -> checkTilesFinished tiles = true.
Proof.
  unfold TileExtrasSpec.remainingPhases.
  induction 1 as [|[t lo] tiles (l & Hl & _ & HN & Hle & _) Hall IH]; [reflexivity|].
  cbn [snd] in Hl. subst lo. cbn [foldr]. unfold TileExtrasSpec.remaining at 1.
  cbn [snd]. intros Hsum.
  cbn [checkTilesFinished]. unfold allGeometryLoaded.
  replace (numberOfPhases l <=? currentPhase l) with true by (symmetry; apply Nat.leb_le; lia).
  cbn [negb]. apply IH. lia.
Qed.

(** X24: dynamic frames finish every tile despite the budget: for tiles of
    cacheable data sources that hold a payload when the manager initialises
    them, and a positive m_maximumUpdatesPerFrame, every dynamic frame that
    finds phases left to do completes at least one of them, so that after
    N times T frames, for N phases and T tiles, every tile has all its
    geometry loaded and a further frame asks the map view for no update. *)
Theorem dynamic_frames_finish_all_tiles m mv (ts : list (@Tile DecodedTile)) (n : nat) :
  isDynamicFrame mv = true -> 0 < m_maximumUpdatesPerFrame m ->
  0 < length (m_loadPhaseDefinitions m) ->
  Forall (fun t => cacheable t = true /\ decodedTile t <> None) ts ->
  let N := length (m_loadPhaseDefinitions m) in
  let tiles := frames m mv n (map (initTile m) ts) in
  remainingPhases N tiles <= N * length ts - n /\
  (N * length ts <= n ->
   checkTilesFinished tiles = true /\ snd (updateTiles m mv tiles) = mv).
Proof.
  intros Hdyn Hmax HN Hts N tiles.
  assert (Hinv : forall n,
            Forall (loading N) (frames m mv n (map (initTile m) ts)) /\
            length (frames m mv n (map (initTile m) ts)) = length ts /\
            remainingPhases N (frames m mv n (map (initTile m) ts)) <= N * length ts - n).
  { clear n tiles. induction n as [|n (IH1 & IH2 & IH3)].
    - change (frames m mv 0 (map (initTile m) ts)) with (map (initTile m) ts).
      split; [|split; [apply length_map|]].
      + apply Forall_fmap. eapply Forall_impl; [exact Hts|].
        intros t (Hc & Hd). eexists. split; [reflexivity|]. cbn [fst snd].
        split; [exact Hc|]. split; [reflexivity|].
        change (currentPhase (newPhasedTileGeometryLoader _ _)) with 0.
        split; [lia|]. split; [intros _; right; cbn; auto | fold N; lia].
      + rewrite Nat.sub_0_r. clear -Hts.
        unfold TileExtrasSpec.remainingPhases.
        induction ts as [|t ts IH]; cbn [map foldr length]; [lia|].
        apply Forall_cons in Hts as (_ & Hts). specialize (IH Hts).
        unfold TileExtrasSpec.remaining at 1. cbn [snd initTile].
        change (currentPhase (newPhasedTileGeometryLoader _ _)) with 0. lia.
    - change (frames m mv (S n) (map (initTile m) ts))
        with (fst (updateTiles m mv (frames m mv n (map (initTile m) ts)))).
      destruct (dynamic_frame_progress m mv _ Hdyn Hmax IH1) as (H1 & H2 & H3).
      fold N in H1, H3. split; [exact H1|]. split; [lia | lia]. }
  destruct (Hinv n) as (Hall & _ & Hrem). fold tiles in Hall, Hrem.
  split; [exact Hrem|]. intros Hdone.
  split; [apply (checkTilesFinished_loading N); [exact Hall | lia]|].
  destruct (Hinv (S n)) as (Hall' & _ & Hrem').
  change (frames m mv (S n) (map (initTile m) ts))
    with (fst (updateTiles m mv tiles)) in Hall', Hrem'.
  assert (Hfin : checkTilesFinished (fst (updateTiles m mv tiles)) = true)
    by (apply (checkTilesFinished_loading N); [exact Hall' | lia]).
  revert Hfin. unfold PhasedTileGeometryManager.updateTiles.
  destruct (negb (checkTilesFinished _)) eqn:E; cbn [fst snd]; [|reflexivity].
  intros Hfin. rewrite Hfin in E. discriminate.
Qed.

End ManagerExtras.

End ManagerExtras.

(** ** More about the SimpleTileGeometryLoader *)

Module SimpleExtras.
Import Tiles SimpleTileGeometryLoader.

Section SimpleExtras.

Context {DecodedTile : Type}.

Local Abbreviation World := (@World DecodedTile).

(** X10: update() of the SimpleTileGeometryLoader consumes the payload at
    once: a second update() in a row changes nothing, and update() itself
    never builds, never evicts the tile and never asks the data source for an
    update; it schedules at most one deferred build. *)
Theorem simple_update_twice_is_once (w : World) :
  update (update w) = update w /\
  objects (tile (update w)) = objects (tile w) /\
  disposeTileCalls (update w) = disposeTileCalls w /\
  requestUpdateCalls (update w) = requestUpdateCalls w /\
  (timers (update w) = timers w \/ exists d, timers (update w) = timers w ++ [d]).
Proof.
  unfold update.
  destruct (m_decodedTile (loader w)) as [d0|] eqn:El.
  { rewrite El. auto 10. }
  destruct (decodedTile (tile w)) as [d|] eqn:Et.
  2:{ rewrite El, Et. auto 10. }
  unfold setDecodedTile, prepareForRender. cbn. rewrite Et.
  destruct (disposed (tile w) || negb (isVisible (tile w))); cbn; eauto 10.
Qed.

(** X11: what the deferred build does is decided by the visibility of the
    tile when the callback runs. For a visible, undisposed tile with no other
    callback pending, update() schedules the build; if the tile is still
    visible when the callback runs, all geometries are created once and the
    data source is asked for an update; if it has become invisible, nothing is
    built and the tile is evicted from the visible set, yet the loader stays
    finished and the payload is gone. Either way no callback is left and a
    further update() does nothing. *)
Theorem deferred_build_depends_on_visibility (w : World) (d : DecodedTile)
    (visibleLater : bool) :
  m_decodedTile (loader w) = None -> decodedTile (tile w) = Some d ->
  disposed (tile w) = false -> isVisible (tile w) = true -> timers w = [] ->
  let w1 := update w in
  let w2 := withTile (setVisible visibleLater (tile w1)) w1 in
  let w3 := runTimer w2 in
  objects (tile w3)
    = (if visibleLater then objects (tile w) ++ [CreateAllGeometries d] else objects (tile w)) /\
  requestUpdateCalls w3
    = (if visibleLater then S (requestUpdateCalls w) else requestUpdateCalls w) /\
  disposeTileCalls w3
    = (if visibleLater then disposeTileCalls w else S (disposeTileCalls w)) /\
  isFinished (loader w3) = true /\
  decodedTile (tile w3) = None /\
  timers w3 = [] /\
  update w3 = w3 /\ runTimer w3 = w3.
Proof.
  intros Hl Ht Hd Hv Htm. cbn zeta.
  assert (Hu : update w = mkWorld (removeDecodedTile (tile w)) (mkSimple None true) [d]
                            (disposeTileCalls w) (requestUpdateCalls w)).
  { unfold update. rewrite Hl, Ht.
    unfold setDecodedTile, prepareForRender. cbn. rewrite Ht, Hd, Hv, Htm. reflexivity. }
  rewrite Hu. clear Hu.
  unfold runTimer, deferredBuild, update, finish. destruct visibleLater; cbn; auto 10.
Qed.

End SimpleExtras.

End SimpleExtras.

(** ** getTextElementPriorities *)

Module TextPriorityFacts.
Import Tiles PhasedTileGeometryLoader PhasedSpec PhasedFacts TextElementPriorities.

#[local] Instance descending_total : Total descending.
Proof. intros a b. unfold descending. lia. Qed.

#[local] Instance descending_trans : Transitive descending.
Proof. intros a b c. unfold descending. lia. Qed.

Lemma setAdd_NoDup (s : list Z) x : NoDup s -> NoDup (setAdd s x).
Proof.
  intros Hs. unfold setAdd. case_bool_decide; [exact Hs|].
  apply NoDup_app. split; [exact Hs|]. split.
  - intros y Hy Hin. apply list_elem_of_singleton in Hin. subst y. contradiction.
  - apply NoDup_singleton.
Qed.

Lemma setAdd_elem_of (s : list Z) x y : y ∈ setAdd s x <-> y ∈ s \/ y = x.
Proof.
  unfold setAdd. case_bool_decide.
  - split; [auto|]. intros [Hy | ->]; assumption.
  - rewrite elem_of_app, list_elem_of_singleton. reflexivity.
Qed.

Lemma descending_strict (l : list Z) :
  StronglySorted descending l -> NoDup l -> StronglySorted (fun a b => (b < a)%Z) l.
Proof.
  induction 1 as [|x l Hs IH Hx]; intros Hnd; constructor.
  - apply IH. apply NoDup_cons_1_2 in Hnd. exact Hnd.
  - apply NoDup_cons in Hnd as (Hnin & _).
    rewrite Forall_forall in Hx. apply Forall_forall. intros y Hy.
    specialize (Hx y Hy). unfold descending in Hx.
    assert (y <> x) by (intros ->; contradiction). lia.
Qed.

Section TextPriorityFacts.

Context {DecodedTile : Type}.
Variable hasGeometry : list (@BackendCall DecodedTile) -> bool.
Variable techniques : DecodedTile -> list TechniqueEntry.

Local Abbreviation getTextElementPriorities := (getTextElementPriorities techniques).
Local Abbreviation updates := (updates hasGeometry).

Lemma collected_priorities (entries : list TechniqueEntry) :
  forall acc, NoDup acc ->
    let priorities :=
      fold_left (fun priorities technique =>
                   if bool_decide (name technique <> "text"%string) then priorities
                   else setAdd priorities (default 0%Z (priority technique)))
                entries acc in
    NoDup priorities /\
    forall p, p ∈ priorities <->
      p ∈ acc \/ exists e, e ∈ entries /\ name e = "text"%string /\
                           default 0%Z (priority e) = p.
Proof.
  induction entries as [|e entries IH]; intros acc Hacc; cbn zeta; simpl.
  - split; [exact Hacc|]. intros p. split; [auto|].
    intros [Hp | (e & He & _)]; [exact Hp | inversion He].
  - case_bool_decide as Hname.
    + destruct (IH acc Hacc) as (Hnd & Hmem). split; [exact Hnd|].
      intros p. rewrite Hmem. split.
      * intros [Hp | (e' & He' & Hn & Hpr)]; [auto|].
        right. exists e'. split; [right; exact He' | auto].
      * intros [Hp | (e' & He' & Hn & Hpr)]; [auto|].
        apply elem_of_cons in He' as [-> | He']; [contradiction|].
        right. exists e'. auto.
    + assert (Hn : name e = "text"%string) by (destruct (decide (name e = "text"%string)); tauto).
      destruct (IH (setAdd acc (default 0%Z (priority e))) (setAdd_NoDup _ _ Hacc))
        as (Hnd & Hmem).
      split; [exact Hnd|].
      intros p. rewrite Hmem, setAdd_elem_of. split.
      * intros [[Hp | ->] | (e' & He' & Hn' & Hpr)]; [auto | |].
        -- right. exists e. split; [left | auto].
        -- right. exists e'. split; [right; exact He' | auto].
      * intros [Hp | (e' & He' & Hn' & Hpr)]; [auto|].
        apply elem_of_cons in He' as [-> | He']; [auto|].
        right. exists e'. auto.
Qed.

(** X12: getTextElementPriorities() of a loader that holds a payload
    returns the priorities of the payload's techniques named text, 0 standing
    for an undefined priority, each one once and in strictly descending
    order; priorities of other techniques do not occur. *)
Theorem text_priorities_distinct_descending (l : @PhasedLoader DecodedTile)
    (d : DecodedTile) :
  m_decodedTile l = Some d ->
  exists priorities,
    getTextElementPriorities l = Some priorities /\
    StronglySorted (fun a b => (b < a)%Z) priorities /\
    forall p, p ∈ priorities <->
      exists e, e ∈ techniques d /\ name e = "text"%string /\ default 0%Z (priority e) = p.
Proof.
  intros Hd. unfold TextElementPriorities.getTextElementPriorities. rewrite Hd.
  destruct (collected_priorities (techniques d) [] (NoDup_nil_2)) as (Hnd & Hmem).
  cbn zeta in Hnd, Hmem.
  eexists. split; [reflexivity|]. split.
  - apply descending_strict.
    + apply StronglySorted_merge_sort; apply _.
    + rewrite merge_sort_Permutation. exact Hnd.
  - intros p. rewrite merge_sort_Permutation, Hmem. split.
    + intros [Hp | He]; [inversion Hp | exact He].
    + auto.
Qed.

(** X13: the text priorities can be asked for only while the loader is at
    work: for a fresh loader on a cacheable tile that holds a payload,
    getTextElementPriorities() is undefined before the first update(), defined
    after each update() that leaves phases to do, and undefined again once
    the last phase is done, because finish() has dropped the payload. *)
Theorem text_priorities_only_while_loading (t : @Tile DecodedTile) (d : DecodedTile)
    (phases : list PhaseList) (basic : gset TileGeometryKind) (k : nat) :
  decodedTile t = Some d -> cacheable t = true -> 0 < length phases ->
  let l := snd (updates k (t, newPhasedTileGeometryLoader phases basic)) in
  (getTextElementPriorities l <> None <-> 0 < k < length phases).
Proof.
  intros Ht Hc HN. cbn zeta.
  unfold TextElementPriorities.getTextElementPriorities.
  destruct k as [|k].
  { cbn. split; [congruence | lia]. }
  assert (H0 : afterUpdates (length phases) 0 (t, newPhasedTileGeometryLoader phases basic))
    by (apply afterUpdates_fresh; [congruence | exact Hc]).
  pose proof (afterUpdates_updates hasGeometry _ _ H0 (S k)) as (_ & _ & _ & Hcase).
  destruct Hcase as [(Hk & _) | [(Hd & Hk) | (Hd & _ & Hk & _)]]; [discriminate | |].
  - destruct (m_decodedTile _); [|congruence]. split; [lia | discriminate].
  - rewrite Hd. split; [congruence | lia].
Qed.

End TextPriorityFacts.

End TextPriorityFacts.

(** ** TileGeometryCreator.initDecodedTile *)

Module CreatorFacts.
Import TileGeometryCreator.

Section CreatorFacts.

Variable hasOrIntersects : gset string -> TechniqueKind -> bool.

Local Abbreviation initTechnique := (initTechnique hasOrIntersects).
Local Abbreviation initDecodedTile := (initDecodedTile hasOrIntersects).

Lemma initTechnique_enabled e1 d1 (technique : Technique) :
  enabled (initTechnique e1 d1 technique) <> None.
Proof.
  unfold TileGeometryCreator.initTechnique.
  destruct (enabled technique) eqn:E; [congruence|].
  destruct (kind technique) as [[k|ks|ks|]|]; cbn; try discriminate.
  destruct (bool_decide _); discriminate.
Qed.

(** X14: the first call of initDecodedTile decides which techniques are
    enabled: it leaves every technique with enabled defined, so a later call
    on the decoded tile, also one with other enabledKinds and disabledKinds and
    whatever has been recorded in the groups in between, leaves the techniques
    as they are. The createdOffsets of the groups are not kept: every call
    empties them again, in every group of every geometry. *)
Theorem initDecodedTile_first_call_decides (decodedTile later : DecodedTile)
    (e1 d1 e2 d2 : option (gset string)) :
  techniques later = techniques (initDecodedTile decodedTile e1 d1) ->
  Forall (fun technique => enabled technique <> None) (techniques later) /\
  techniques (initDecodedTile later e2 d2) = techniques later /\
  map (fun srcGeometry => length (groups srcGeometry))
      (geometries (initDecodedTile later e2 d2))
    = map (fun srcGeometry => length (groups srcGeometry)) (geometries later) /\
  Forall (fun srcGeometry =>
            Forall (fun group => createdOffsets group = Some []) (groups srcGeometry))
         (geometries (initDecodedTile later e2 d2)).
Proof.
  intros Hlater.
  assert (Hen : Forall (fun technique => enabled technique <> None) (techniques later)).
  { rewrite Hlater. unfold TileGeometryCreator.initDecodedTile. cbn [techniques].
    apply Forall_fmap, Forall_forall. intros technique _. apply initTechnique_enabled. }
  split; [exact Hen|].
  unfold TileGeometryCreator.initDecodedTile. cbn [techniques geometries].
  split; [|split].
  - clear Hlater. induction Hen as [|technique rest Hx Hrest IH]; cbn [map]; [reflexivity|].
    rewrite IH. f_equal. unfold TileGeometryCreator.initTechnique.
    destruct (enabled technique); [reflexivity | congruence].
  - rewrite map_map. apply map_ext. intros srcGeometry. cbn [groups]. apply length_map.
  - apply Forall_fmap, Forall_forall. intros srcGeometry _. cbn [groups].
    apply Forall_fmap, Forall_forall. intros group _. reflexivity.
Qed.

End CreatorFacts.

End CreatorFacts.

(** ** More about the StyleSetEvaluator *)

Module MatchingExtras.
Import InterpolatedProperties StyleSetEvaluator StyleSetSpec StyleExtrasSpec
       RenderOrderFacts MatchingFacts.

Section MatchingExtras.

Context {Expr MapEnv : Type}.
Variable parse : string -> Expr.
Variable evaluate : Expr -> MapEnv -> bool.
Variable numberInt32 : string -> Z.

Local Abbreviation Style := (@Style Expr).
Local Abbreviation StyleData := (@StyleData Expr).
Local Abbreviation Walk := (@Walk Expr).
Local Abbreviation Evaluator := (@Evaluator Expr).
Local Abbreviation processStyle := (processStyle parse evaluate numberInt32).
Local Abbreviation processStyles := (processStyles parse evaluate numberInt32).
Local Abbreviation processTechnique := (processTechnique numberInt32).
Local Abbreviation addAttributes := (addAttributes numberInt32).
Local Abbreviation addStackAttributes := (addStackAttributes numberInt32).
Local Abbreviation evaluateWhen := (evaluateWhen parse evaluate).
Local Abbreviation matchStyles := (matchStyles parse evaluate numberInt32).
Local Abbreviation getMatchingTechniques := (getMatchingTechniques parse evaluate numberInt32).
Local Abbreviation afterMatching := (afterMatching parse evaluate numberInt32).
Local Abbreviation ownValue := (ownValue numberInt32).
Local Abbreviation nearestValue := (nearestValue numberInt32).

(** *** What every walk keeps *)

Lemma registered_refl (w : Walk) : registered w w.
Proof.
  exists []. rewrite !app_nil_r. split; [reflexivity|]. split; [reflexivity|].
  intros j t Hj. inversion Hj.
Qed.

Lemma registered_trans (w1 w2 w3 : Walk) :
  registered w1 w2 -> registered w2 w3 -> registered w1 w3.
Proof.
  intros (ts1 & Ho1 & Ht1 & Hi1) (ts2 & Ho2 & Ht2 & Hi2).
  exists (ts1 ++ ts2). split; [rewrite Ho2, Ho1, app_assoc; reflexivity|]. split.
  - rewrite Ht2, Ht1, Ho1, !length_app, seq_app, app_assoc. reflexivity.
  - intros j t Hj. apply lookup_app_Some in Hj as [Hj | (Hge & Hj)].
    + apply Hi1. exact Hj.
    + rewrite (Hi2 _ _ Hj), Ht1, length_app, length_seq. do 3 f_equal. lia.
Qed.

Lemma walkKeeps_refl (w : Walk) : walkKeeps w w.
Proof.
  split; [apply sameButAttr_all_refl|]. split; [apply registered_refl|].
  exists []. rewrite app_nil_r. split; [reflexivity | constructor].
Qed.

Lemma walkKeeps_trans (w1 w2 w3 : Walk) : walkKeeps w1 w2 -> walkKeeps w2 w3 -> walkKeeps w1 w3.
Proof.
  intros (Hs1 & Hr1 & added1 & Ha1 & Hin1) (Hs2 & Hr2 & added2 & Ha2 & Hin2).
  split; [eapply sameButAttr_all_trans; eauto|].
  split; [eapply registered_trans; eauto|].
  exists (added1 ++ added2). split; [rewrite Ha2, Ha1, app_assoc; reflexivity|].
  apply Forall_app. split; [|exact Hin2].
  destruct Hr2 as (ts & _ & Ht & _).
  eapply Forall_impl; [exact Hin1|]. intros o Ho ref Href.
  rewrite Ht. apply elem_of_app. left. apply Ho. exact Href.
Qed.

Lemma processTechnique_keeps name (d : StyleData) (w : Walk) :
  walkKeeps w (snd (snd (processTechnique name d w))).
Proof.
  unfold StyleSetEvaluator.processTechnique.
  destruct (_index d) as [index|] eqn:Ei.
  - cbn [snd]. split; [apply sameButAttr_all_refl|]. split.
    + exists []. cbn. rewrite !app_nil_r. split; [reflexivity|]. split; [reflexivity|].
      intros j t Hj. inversion Hj.
    + exists [techniques w !! index]. cbn. split; [reflexivity|].
      constructor; [|constructor]. intros ref Href.
      apply list_elem_of_lookup. exists index. exact Href.
  - pose proof (addStackAttributes_sameButAttr numberInt32 (styleStack w)
                  {[ "name"%string := Value (JsString name) ]}) as Hstack.
    destruct (addStackAttributes (styleStack w) _) as [t1 stack1]. cbn [snd] in Hstack.
    destruct (addAttributes d t1) as [t2 d2]. cbn [snd].
    split; [exact Hstack|]. split.
    + eexists [_]. cbn [objects techniques length seq]. split; [reflexivity|].
      split; [reflexivity|].
      intros j t Hj. destruct j as [|j]; [|inversion Hj].
      injection Hj as <-. rewrite Nat.add_0_r. apply lookup_insert_eq.
    + exists [Some (length (objects w))]. cbn. split; [reflexivity|].
      constructor; [|constructor]. intros ref [= <-].
      apply elem_of_app. right. apply list_elem_of_singleton. reflexivity.
Qed.

Lemma processStyles_keeps_each env (ss : list Style) :
  Forall (fun s => forall w : Walk, walkKeeps w (snd (snd (processStyle env s w)))) ss ->
  forall w : Walk, walkKeeps w (snd (snd (processStyles env ss w))).
Proof.
  induction 1 as [|s ss Hs Hss IH]; intros w; cbn [StyleSetSpec.processStyles].
  - apply walkKeeps_refl.
  - specialize (Hs w). destruct (processStyle env s w) as [found [s1 w1]]. cbn [snd] in Hs.
    destruct found; [exact Hs|].
    specialize (IH w1). destruct (processStyles env ss w1) as [found2 [ss2 w2]].
    cbn [snd] in *. eapply walkKeeps_trans; eauto.
Qed.

Lemma processStyle_keeps env (s : Style) :
  forall w : Walk, walkKeeps w (snd (snd (processStyle env s w))).
Proof.
  induction s as [d | d children IH] using Style_induction; intros w.
  - rewrite processStyle_leaf.
    destruct (evaluateWhen env d) as [pass d1].
    destruct pass; cbn [negb]; [|apply walkKeeps_refl].
    destruct (technique d1) as [name|]; [|apply walkKeeps_refl].
    pose proof (processTechnique_keeps name d1 w) as Hk.
    destruct (processTechnique name d1 w) as [found [d2 w2]]. exact Hk.
  - rewrite processStyle_node.
    destruct (evaluateWhen env d) as [pass d1].
    destruct pass; cbn [negb]; [|apply walkKeeps_refl].
    pose proof (processStyles_keeps_each env children IH
                  (mkWalk (styleStack w ++ [d1]) (techniques w) (objects w) (result w)))
      as Hk.
    destruct (processStyles env children _) as [found [children1 w1]].
    cbn [snd] in *.
    destruct Hk as (Hstack & Hreg & Hadded). cbn [styleStack techniques objects result] in *.
    apply Forall2_app_inv_l in Hstack as (stack1 & top & Hstack1 & Htop & Hsplit).
    inversion Htop as [|? d2 ? ? Hd2 Hnil]; subst. inversion Hnil; subst.
    rewrite Hsplit, List.removelast_last.
    split; [exact Hstack1|]. split; [exact Hreg | exact Hadded].
Qed.

Lemma processStyles_keeps env (ss : list Style) (w : Walk) :
  walkKeeps w (snd (snd (processStyles env ss w))).
Proof.
  apply processStyles_keeps_each. apply Forall_forall. intros s _. apply processStyle_keeps.
Qed.

(** The style stack is empty again after every style of the style set. *)
Lemma matchStyles_balanced env validate (ss : list Style) :
  forall w : Walk, styleStack w = [] ->
    matchStyles env validate ss w = Some (snd (processStyles env ss w)).
Proof.
  induction ss as [|s ss IH]; intros w Hstack; [reflexivity|].
  cbn [StyleSetEvaluator.matchStyles StyleSetSpec.processStyles].
  rewrite Hstack. rewrite bool_decide_eq_true_2 by reflexivity.
  rewrite andb_false_r.
  pose proof (processStyle_keeps env s w) as (Hs & _).
  destruct (processStyle env s w) as [found [s1 w1]]. cbn [snd] in Hs.
  destruct found; [reflexivity|].
  rewrite Hstack in Hs. inversion Hs as [Hnil|]; subst.
  rewrite IH by congruence.
  destruct (processStyles env ss w1) as [found2 [ss2 w2]]. reflexivity.
Qed.

Lemma getMatchingTechniques_returns (ev : Evaluator) env :
  exists r ev1,
    getMatchingTechniques ev env = Some (r, ev1) /\
    validate ev1 = validate ev /\
    (tableInStep (m_techniques ev) (heap ev) ->
     tableInStep (m_techniques ev1) (heap ev1) /\
     forall ref, Some ref ∈ r -> ref < length (heap ev1)).
Proof.
  unfold StyleSetEvaluator.getMatchingTechniques.
  set (w := mkWalk [] (m_techniques ev) (heap ev) []).
  rewrite (matchStyles_balanced env (validate ev) (styleSet ev) w eq_refl).
  pose proof (processStyles_keeps env (styleSet ev) w) as Hk.
  destruct (processStyles env (styleSet ev) w) as [found [ss1 w1]]. cbn [snd] in *.
  eexists _, _. split; [reflexivity|]. split; [reflexivity|].
  cbn [m_techniques heap].
  destruct Hk as (_ & (ts & Ho & Ht & Hi) & added & Hres & Hin).
  subst w. cbn [techniques objects result] in *.
  intros (Htable & Hindex).
  assert (Hstep : tableInStep (techniques w1) (objects w1)).
  { split.
    - rewrite Ht, Ho, Htable, length_app, seq_app. reflexivity.
    - intros i t Hit. rewrite Ho in Hit.
      apply lookup_app_Some in Hit as [Hit | (Hge & Hit)]; [apply Hindex; exact Hit|].
      rewrite (Hi _ _ Hit), Htable, length_seq. do 3 f_equal. lia. }
  split; [exact Hstep|].
  intros ref Href. rewrite Hres in Href. cbn in Href.
  rewrite Forall_forall in Hin. specialize (Hin _ Href ref eq_refl).
  destruct Hstep as (Hseq & _). rewrite Hseq in Hin.
  apply elem_of_seq in Hin. lia.
Qed.

(** X15: getMatchingTechniques never throws its internal error, whatever
    the evaluator, the style set (matched against before or not), the
    validate flag and the environment: the style stack is empty again after
    every style of the style set. *)
Theorem matching_never_throws (ev : Evaluator) (envs : list MapEnv) :
  (forall env, getMatchingTechniques ev env <> None) /\
  afterMatching ev envs <> None.
Proof.
  split.
  - intros env. destruct (getMatchingTechniques_returns ev env) as (r & ev1 & Hcall & _).
    congruence.
  - revert ev. induction envs as [|env envs IH]; intros ev; cbn; [discriminate|].
    destruct (getMatchingTechniques_returns ev env) as (r & ev1 & Hcall & _).
    rewrite Hcall. apply IH.
Qed.

Lemma afterMatching_tableInStep (envs : list MapEnv) :
  forall ev : Evaluator, tableInStep (m_techniques ev) (heap ev) ->
    exists ev', afterMatching ev envs = Some ev' /\
                tableInStep (m_techniques ev') (heap ev').
Proof.
  induction envs as [|env envs IH]; intros ev Hstep; cbn; [eauto|].
  destruct (getMatchingTechniques_returns ev env) as (r & ev1 & Hcall & _ & Hnext).
  rewrite Hcall. apply IH. apply Hnext. exact Hstep.
Qed.

(** X16: evaluator.techniques is a table of the techniques by their _index:
    for the evaluator of any style set, after any sequence of calls, the
    i-th entry of techniques is the i-th technique assembled and its _index
    is i; every technique that getMatchingTechniques returns is found in the
    table at its own _index. *)
Theorem techniques_table_is_indexed_by_index
    (ss : list Style) (validate : bool) (envs : list MapEnv) (env : MapEnv) :
  exists ev r ev1,
    afterMatching (newStyleSetEvaluator ss validate) envs = Some ev /\
    getMatchingTechniques ev env = Some (r, ev1) /\
    (forall i, i < length (m_techniques ev1) ->
       exists t, m_techniques ev1 !! i = Some i /\ heap ev1 !! i = Some t /\
                 t !! "_index"%string = Some (Value (JsNumber (Z.of_nat i)))) /\
    (forall ref, Some ref ∈ r -> ref < length (m_techniques ev1)).
Proof.
  destruct (afterMatching_tableInStep envs (newStyleSetEvaluator ss validate))
    as (ev & Hev & Hstep).
  { unfold newStyleSetEvaluator.
    destruct (computeDefaultRenderOrders ss _) as [ss' st']. cbn.
    split; [reflexivity|]. intros i t Hit. inversion Hit. }
  destruct (getMatchingTechniques_returns ev env) as (r & ev1 & Hcall & _ & Hnext).
  destruct (Hnext Hstep) as ((Hseq & Hindex) & Hres).
  exists ev, r, ev1. split; [exact Hev|]. split; [exact Hcall|].
  assert (Hlen : length (m_techniques ev1) = length (heap ev1))
    by (rewrite Hseq, length_seq; reflexivity).
  split.
  - intros i Hi. rewrite Hlen in Hi.
    destruct (lookup_lt_is_Some_2 _ _ Hi) as [t Ht].
    exists t. split; [|split; [exact Ht | apply Hindex; exact Ht]].
    rewrite Hseq. apply lookup_seq. split; [reflexivity | exact Hi].
  - intros ref Href. rewrite Hlen. apply Hres. exact Href.
Qed.

(** X23: what getMatchingTechniques never does, whatever the evaluator:
    it never changes or drops a technique object assembled before, and never
    reorders the techniques table: new technique objects are appended to
    both, in the same order; validate and the registered bias groups stay as
    the constructor left them. *)
Theorem matching_only_appends_techniques (ev : Evaluator) (env : MapEnv) :
  exists r ev1 more,
    getMatchingTechniques ev env = Some (r, ev1) /\
    heap ev1 = heap ev ++ more /\
    m_techniques ev1 = m_techniques ev ++ seq (length (heap ev)) (length more) /\
    validate ev1 = validate ev /\
    m_renderOrderBiasGroups ev1 = m_renderOrderBiasGroups ev.
Proof.
  unfold StyleSetEvaluator.getMatchingTechniques.
  set (w := mkWalk [] (m_techniques ev) (heap ev) []).
  rewrite (matchStyles_balanced env (validate ev) (styleSet ev) w eq_refl).
  pose proof (processStyles_keeps env (styleSet ev) w) as Hk.
  destruct (processStyles env (styleSet ev) w) as [found [ss1 w1]]. cbn [snd] in *.
  destruct Hk as (_ & (ts & Ho & Ht & _) & _).
  subst w. cbn [techniques objects] in *.
  eexists _, _, ts. split; [reflexivity|].
  cbn [heap m_techniques validate m_renderOrderBiasGroups]. auto.
Qed.

(** *** Which style decides a property of a technique *)

Lemma lookup_setIf {A : Type} key (f : A -> JsValue) (field : option A) (t : Technique) k :
  setIf key f field t !! k
  = match (if bool_decide (k = key) then (fun x => Value (f x)) <$> field else None) with
    | Some v => Some v
    | None => t !! k
    end.
Proof.
  unfold setIf. destruct field as [x|]; case_bool_decide; subst; cbn;
    rewrite ?lookup_insert_eq, ?lookup_insert_ne by congruence; reflexivity.
Qed.

Lemma addAttributes_lookup (d : StyleData) (t : Technique) k :
  fst (addAttributes d t) !! k
  = match ownValue d k with Some v => Some v | None => t !! k end.
Proof.
  assert (Hfields :
    setIf "renderOrderBiasGroup" JsString (renderOrderBiasGroup d)
      (setIf "renderOrderBiasRange" (fun r : Z * Z => JsNumbers [fst r; snd r])
         (renderOrderBiasRange d)
         (setIf "label" JsString (labelProperty d)
            (setIf "renderOrderBiasProperty" JsString (renderOrderBiasProperty d)
               (setIf "transient" JsBoolean (transient d)
                  (setIf "renderOrder" JsNumber (renderOrder d) t))))) !! k
    = match fieldValue d k with Some v => Some v | None => t !! k end).
  { rewrite !lookup_setIf. unfold fieldValue.
    repeat case_bool_decide; subst; try discriminate;
      repeat match goal with
             | |- context [_ <$> ?o] => destruct o; cbn
             end; reflexivity. }
  unfold StyleSetEvaluator.addAttributes, StyleExtrasSpec.ownValue.
  destruct (attr d) as [a|]; cbn [fst]; [|exact Hfields].
  rewrite lookup_union, lookup_fmap, Hfields.
  destruct (a !! k) as [v|]; cbn.
  - destruct (match fieldValue d k with Some v0 => Some v0 | None => t !! k end); reflexivity.
  - destruct (match fieldValue d k with Some v0 => Some v0 | None => t !! k end); reflexivity.
Qed.

Lemma nearestValue_app k (c1 c2 : list StyleData) fallback :
  nearestValue k (c1 ++ c2) fallback = nearestValue k c1 (nearestValue k c2 fallback).
Proof.
  induction c1 as [|d c1 IH]; cbn; [reflexivity|].
  destruct (ownValue d k); [reflexivity | exact IH].
Qed.

Lemma addStackAttributes_lookup (stack : list StyleData) k :
  forall t : Technique,
    fst (addStackAttributes stack t) !! k = nearestValue k (reverse stack) (t !! k).
Proof.
  induction stack as [|p stack IH]; intros t;
    cbn [StyleSetEvaluator.addStackAttributes]; [reflexivity|].
  pose proof (addAttributes_lookup p t k) as Hp.
  destruct (addAttributes p t) as [t1 p1]. cbn [fst] in Hp.
  specialize (IH t1). destruct (addStackAttributes stack t1) as [t2 stack2]. cbn [fst] in *.
  rewrite IH, Hp, reverse_cons, nearestValue_app. reflexivity.
Qed.

(** X17: how a technique is assembled from the style hierarchy: for a leaf
    style that has no technique yet, processStyle registers one new technique
    object, and each property of it other than _index has the value written
    by the nearest style that writes it: the leaf itself if it has an
    attribute or a field of that name, else the innermost enclosing style
    that has one; name falls back to the leaf's technique name. *)
Theorem technique_takes_nearest_value (name : string) (d : StyleData) (w : Walk)
    (k : string) :
  _index d = None -> k <> "_index"%string ->
  exists t,
    objects (snd (snd (processTechnique name d w))) = objects w ++ [t] /\
    t !! k = nearestValue k (d :: reverse (styleStack w))
               (if bool_decide (k = "name"%string) then Some (Value (JsString name))
                else None).
Proof.
  intros Hi Hk. unfold StyleSetEvaluator.processTechnique. rewrite Hi.
  pose proof (addStackAttributes_lookup (styleStack w) k
                {[ "name"%string := Value (JsString name) ]}) as Hstack.
  destruct (addStackAttributes (styleStack w) _) as [t1 stack1]. cbn [fst] in Hstack.
  pose proof (addAttributes_lookup d t1 k) as Hleaf.
  destruct (addAttributes d t1) as [t2 d2]. cbn [fst snd objects] in *.
  eexists. split; [reflexivity|].
  rewrite lookup_insert_ne by congruence.
  rewrite Hleaf, Hstack. cbn [StyleExtrasSpec.nearestValue].
  assert (Hname : ({[ "name"%string := Value (JsString name) ]} : Technique) !! k
                  = if bool_decide (k = "name"%string) then Some (Value (JsString name))
                    else None).
  { case_bool_decide; subst.
    - apply lookup_singleton_eq.
    - apply lookup_singleton_ne. congruence. }
  rewrite Hname. reflexivity.
Qed.

End MatchingExtras.

End MatchingExtras.

(** ** More about the constructor of the StyleSetEvaluator *)

Module RenderOrderExtras.
Import InterpolatedProperties StyleSetEvaluator StyleSetSpec StyleExtrasSpec RenderOrderFacts.

Section RenderOrderExtras.

Context {Expr : Type}.

Local Abbreviation Style := (@Style Expr).
Local Abbreviation StyleData := (@StyleData Expr).

Lemma consecutiveOrders_app from n1 n2 :
  consecutiveOrders from (n1 + n2)
  = consecutiveOrders from n1 ++ consecutiveOrders (from + Z.of_nat n1) n2.
Proof.
  unfold consecutiveOrders. rewrite seq_app, map_app. f_equal.
  cbn [Nat.add]. replace n1 with (n1 + 0) at 1 by lia.
  rewrite <- (fmap_add_seq n1 0 n2).
  change (map ?f (?g <$> ?l)) with (f <$> (g <$> l)).
  rewrite <- list_fmap_compose. apply list_fmap_ext. intros _ i _. cbn.
  f_equal. lia.
Qed.

Lemma noBiasGroups_cons (s : Style) ss :
  noBiasGroups (s :: ss) = noBiasGroups [s] && noBiasGroups ss.
Proof.
  unfold noBiasGroups. cbn [flat_map]. rewrite app_nil_r, forallb_app. reflexivity.
Qed.

Lemma autoOrderCount_cons (s : Style) ss :
  autoOrderCount (s :: ss) = autoOrderCount [s] + autoOrderCount ss.
Proof.
  unfold autoOrderCount. cbn [flat_map]. rewrite app_nil_r, List.filter_app, length_app.
  reflexivity.
Qed.

Lemma ordersInSequence_each (ss : list Style) :
  Forall ordersInSequence ss ->
  forall st, noBiasGroups ss = true ->
    let r := computeDefaultRenderOrders ss st in
    renderOrderBiasGroups (snd r) = renderOrderBiasGroups st /\
    techniqueRenderOrder (snd r)
      = (techniqueRenderOrder st + Z.of_nat (autoOrderCount ss))%Z /\
    flat_map leafAutoOrders (fst r)
      = consecutiveOrders (techniqueRenderOrder st) (autoOrderCount ss).
Proof.
  induction 1 as [|s ss Hs Hss IH]; intros st Hno; cbn zeta.
  - cbn. split; [reflexivity|]. split; [lia | reflexivity].
  - rewrite noBiasGroups_cons in Hno. apply andb_true_iff in Hno as [Hno1 Hno2].
    cbn [computeDefaultRenderOrders].
    specialize (Hs st Hno1). cbn zeta in Hs.
    destruct (computeDefaultRenderOrder s st) as [s1 st1]. cbn [fst snd] in Hs.
    destruct Hs as (Hg1 & Ht1 & Ho1).
    specialize (IH st1 Hno2). cbn zeta in IH.
    destruct (computeDefaultRenderOrders ss st1) as [ss2 st2]. cbn [fst snd] in *.
    destruct IH as (Hg2 & Ht2 & Ho2).
    rewrite autoOrderCount_cons, consecutiveOrders_app.
    split; [congruence|]. split; [lia|].
    cbn [flat_map]. rewrite Ho1, Ho2, Ht1. reflexivity.
Qed.

Lemma ordersInSequence_always (s : Style) : ordersInSequence s.
Proof.
  induction s as [d | d children IH] using Style_induction; intros st Hno; cbn zeta.
  - rewrite computeDefaultRenderOrder_leaf.
    assert (Hg : renderOrderBiasGroup d = None).
    { unfold noBiasGroups in Hno. cbn in Hno. rewrite andb_true_r in Hno.
      apply bool_decide_eq_true in Hno. exact Hno. }
    unfold biasGroupRenderOrder. rewrite Hg.
    pose proof (autoRenderOrder_spec d st) as (Hgs & _ & _ & _ & Htakes & Hauto).
    unfold autoOrderCount. cbn [flat_map leaves app List.filter].
    destruct (autoRenderOrder d st) as [d1 st1]. cbn [fst snd leafAutoOrders] in *.
    rewrite Htakes. destruct (takesAutoOrder d).
    + destruct Hauto as (Ha & Ht). rewrite Ha, Ht.
      split; [exact Hgs|]. split; [cbn; lia|].
      unfold consecutiveOrders. cbn. rewrite Z.add_0_r. reflexivity.
    + injection Hauto as -> ->. split; [reflexivity|]. split; [cbn; lia | reflexivity].
  - rewrite computeDefaultRenderOrder_node.
    assert (Hg : renderOrderBiasGroup d = None /\ noBiasGroups children = true).
    { unfold noBiasGroups in *. cbn in Hno. rewrite app_nil_r in Hno.
      apply andb_true_iff in Hno as [Hd Hc]. apply bool_decide_eq_true in Hd. auto. }
    destruct Hg as (Hg & Hnoc).
    unfold biasGroupRenderOrder. rewrite Hg.
    pose proof (ordersInSequence_each children IH st Hnoc) as Hc. cbn zeta in Hc.
    destruct (computeDefaultRenderOrders children st) as [children1 st1]. cbn [fst snd] in *.
    assert (Hcount : autoOrderCount [mkStyle d (Some children)] = autoOrderCount children).
    { unfold autoOrderCount. cbn [flat_map leaves]. rewrite app_nil_r. reflexivity. }
    rewrite Hcount. exact Hc.
Qed.

(** X18: in a style set that names no renderOrderBiasGroup the constructor
    numbers the techniques in document order: the leaves that take an
    automatic render order get 0, 1, 2, ... without gaps, and no bias group
    is registered. *)
Theorem auto_orders_count_up_without_groups (ss : list Style) (validate : bool) :
  noBiasGroups ss = true ->
  let ev := newStyleSetEvaluator ss validate in
  flat_map leafAutoOrders (styleSet ev) = consecutiveOrders 0 (autoOrderCount ss) /\
  m_renderOrderBiasGroups ev = ∅.
Proof.
  intros Hno. cbn zeta. unfold newStyleSetEvaluator.
  pose proof (ordersInSequence_each ss
                ltac:(apply Forall_forall; intros s _; apply ordersInSequence_always)
                (mkRenderOrderState 0%Z ∅) Hno) as H.
  cbn zeta in H.
  destruct (computeDefaultRenderOrders ss (mkRenderOrderState 0%Z ∅)) as [ss' st'].
  cbn [fst snd styleSet m_renderOrderBiasGroups renderOrderBiasGroups techniqueRenderOrder] in *.
  destruct H as (Hg & _ & Ho). split; [exact Ho | exact Hg].
Qed.

End RenderOrderExtras.

End RenderOrderExtras.

(** ** More about the interpolated properties *)

Module InterpolatedExtras.
Import InterpolatedProperties InterpolatedSpec InterpolatedExtrasSpec InterpolatedFacts.

Lemma length_spliceOne_le {A : Type} (start : Z) (l : list A) :
  length (spliceOne start l) <= length l.
Proof. unfold spliceOne. rewrite length_app, length_take, length_drop. lia. Qed.

Lemma valuesLength_spliceOne_le (start : Z) (v : PropertyValues) :
  valuesLength (valuesSpliceOne start v) <= valuesLength v.
Proof. destruct v; simpl; apply length_spliceOne_le. Qed.

Lemma removeDuplicatesLoop_shrinks fuel :
  forall i (p r : InterpolatedPropertyDefinition),
    removeDuplicatesLoop fuel i p = Some r ->
    valuesLength (values r) <= valuesLength (values p) /\
    length (zoomLevels r) <= length (zoomLevels p) /\
    interpolation r = interpolation p.
Proof.
  induction fuel as [|fuel IH]; intros i p r; simpl.
  - destruct (i <? Z.of_nat (valuesLength (values p)))%Z; [discriminate|].
    intros [= <-]. auto.
  - destruct (i <? Z.of_nat (valuesLength (values p)))%Z; [|intros [= <-]; auto].
    destruct (findIndex (at_ (zoomLevels p) i) (zoomLevels p) =? i)%Z.
    + apply IH.
    + intros Hr. apply IH in Hr. cbn in Hr.
      destruct Hr as (Hv & Hz & Hi).
      pose proof (valuesLength_spliceOne_le (i - 1 - 1) (values p)).
      pose proof (length_spliceOne_le (i - 1) (zoomLevels p)).
      split; [lia|]. split; [lia | exact Hi].
Qed.

(** X19: the loop of removeDuplicatePropertyValues, which steps its index
    back after each removal, exits for every definition, also one whose
    zoomLevels and values differ in length, within 2 n + 2 iterations for n
    values; it never adds an entry and leaves the interpolation mode
    alone. *)
Theorem duplicate_removal_terminates (p : InterpolatedPropertyDefinition) :
  exists r,
    removeDuplicatesLoop (2 * valuesLength (values p) + 2) 0%Z p = Some r /\
    removeDuplicatePropertyValues p = r /\
    valuesLength (values r) <= valuesLength (values p) /\
    length (zoomLevels r) <= length (zoomLevels p) /\
    interpolation r = interpolation p.
Proof.
  destruct (removeDuplicates_total p) as [r Hr]. unfold removeDuplicatesFuel in Hr.
  exists r. split; [exact Hr|]. split.
  - unfold removeDuplicatePropertyValues, removeDuplicatesFuel. rewrite Hr. reflexivity.
  - eapply removeDuplicatesLoop_shrinks. exact Hr.
Qed.

(** X20: on a definition with one value per zoom level,
    removeDuplicatePropertyValues yields a definition without repeated zoom
    levels that still has one value per zoom level; a definition that had no
    repeated zoom level is left as it is; removing duplicates once more
    changes nothing. *)
Theorem duplicate_removal_normalises (p : InterpolatedPropertyDefinition) :
  length (zoomLevels p) = valuesLength (values p) ->
  let p' := removeDuplicatePropertyValues p in
  NoDup (zoomLevels p') /\
  length (zoomLevels p') = valuesLength (values p') /\
  (NoDup (zoomLevels p) -> p' = p) /\
  removeDuplicatePropertyValues p' = p'.
Proof.
  intros Hlen. cbn zeta.
  destruct (removeDuplicates_distinct p Hlen) as (Hnd & Hlen').
  split; [exact Hnd|]. split; [exact Hlen'|]. split.
  - intros Hnd0. apply removeDuplicates_NoDup; assumption.
  - apply removeDuplicates_NoDup; assumption.
Qed.

Section Conversion.

Variable numberInt32 : string -> Z.

Local Abbreviation createInterpolatedProperty := (createInterpolatedProperty numberInt32).
Local Abbreviation writeColors := (writeColors numberInt32).

Lemma length_writeColors n colors :
  forall i (pv : list Float32), length (writeColors n i colors pv) = length pv.
Proof.
  induction colors as [|color colors IH]; intros i pv; simpl; [reflexivity|].
  rewrite IH. apply length_writeChannels.
Qed.

(** X21: the sampled structure of a definition with one value per zoom
    level holds, for every zoom level it keeps, as many channels as the kind
    of the values asks for: three for colors, one for numbers and booleans,
    so that the number of values is a multiple of the number of zoom levels,
    also when duplicates were removed; its zoom levels are those of the
    definition after the call. *)
Theorem sampled_values_match_zoom_levels (p : InterpolatedPropertyDefinition) :
  length (zoomLevels p) = valuesLength (values p) ->
  let sampled := fst (createInterpolatedProperty p) in
  let p' := snd (createInterpolatedProperty p) in
  zoomLevelKeys sampled = zoomLevels p' /\
  length (sampledValues sampled) = channelCount p' * length (zoomLevelKeys sampled).
Proof.
  intros Hlen. cbn zeta.
  destruct (removeDuplicates_distinct p Hlen) as (_ & Hlen').
  unfold InterpolatedProperties.createInterpolatedProperty. cbn [fst snd].
  unfold channelCount. unfold valuesLength in Hlen'.
  destruct (values (removeDuplicatePropertyValues p)) as [l | [|b l] | [|c l]];
    cbn [zoomLevelKeys sampledValues]; (split; [reflexivity|]);
    rewrite ?length_writeColors, ?length_map, ?repeat_length, Hlen'; cbn [length]; lia.
Qed.

(** X22: converting a definition a second time, after the first conversion
    has rewritten it in place, yields the same sampled structure and leaves
    the definition as the first conversion left it. *)
Theorem conversion_is_repeatable (p : InterpolatedPropertyDefinition) :
  length (zoomLevels p) = valuesLength (values p) ->
  createInterpolatedProperty (snd (createInterpolatedProperty p))
  = createInterpolatedProperty p.
Proof.
  intros Hlen.
  destruct (removeDuplicates_distinct p Hlen) as (Hnd & Hlen').
  unfold InterpolatedProperties.createInterpolatedProperty at 2. cbn [snd].
  unfold InterpolatedProperties.createInterpolatedProperty.
  rewrite (removeDuplicates_NoDup _ Hnd Hlen'). reflexivity.
Qed.

End Conversion.

End InterpolatedExtras.

(** ** The further statements at concrete inputs *)

Module ExtraExamples.
Import Tiles PhasedTileGeometryLoader PhasedTileGeometryManager TextElementPriorities.
Import PhasedSpec TileExtrasSpec TileSamples ExtraSamples.

Local Abbreviation freshLoader :=
  (newPhasedTileGeometryLoader (DecodedTile := nat) DefaultPhases DefaultBasicGeometryKinds).

Lemma updateToPhase_stops_at_target_witness :
  (cacheable cacheableTile = true /\ 2 <= numberOfPhases freshLoader) /\
  currentPhase (snd (snd (updateToPhase hasGeometry 2 (cacheableTile, freshLoader)))) = 2.
Proof.
  split; [split; [reflexivity | vm_compute; lia]|].
  destruct (PhasedExtras.updateToPhase_stops_at_target hasGeometry 2 cacheableTile freshLoader
              eq_refl ltac:(vm_compute; lia)) as ([Hsame | (_ & Hto)] & _).
  - vm_compute. reflexivity.
  - exact Hto.
Defined.

Lemma updateToPhase_past_plan_reports_nothing_witness :
  (decodedTile cacheableTile = Some 7 /\ cacheable cacheableTile = true /\
   length DefaultPhases < 9) /\
  fst (updateToPhase hasGeometry 9 (cacheableTile, freshLoader)) = false /\
  currentPhase (snd (snd (updateToPhase hasGeometry 9 (cacheableTile, freshLoader)))) = 5.
Proof.
  split; [split; [reflexivity | split; [reflexivity | vm_compute; lia]]|].
  destruct (PhasedExtras.updateToPhase_past_plan_reports_nothing hasGeometry cacheableTile 7
              DefaultPhases DefaultBasicGeometryKinds 9 eq_refl eq_refl ltac:(vm_compute; lia))
    as (Hfalse & Hcursor & _).
  split; [exact Hfalse | exact Hcursor].
Defined.

Lemma update_after_dispose_starts_over_witness :
  let s := updates hasGeometry 3 (cacheableTile, freshLoader) in
  (cacheable (fst s) = true /\ decodedTile (fst s) = Some 7 /\ 0 < numberOfPhases (snd s) /\
   currentPhase (snd s) = 3) /\
  currentPhase (snd (snd (update hasGeometry (dispose s)))) = 1.
Proof.
  intros s.
  assert (Hc : cacheable (fst s) = true) by (vm_compute; reflexivity).
  assert (Hd : decodedTile (fst s) = Some 7) by (vm_compute; reflexivity).
  assert (HN : 0 < numberOfPhases (snd s)) by (vm_compute; lia).
  split; [split; [exact Hc | split; [exact Hd | split; [exact HN | vm_compute; reflexivity]]]|].
  destruct (PhasedExtras.update_after_dispose_starts_over hasGeometry (fst s) (snd s) 7
              Hc Hd HN) as (_ & Hcursor & _).
  destruct s as [t l]. exact Hcursor.
Defined.

Lemma update_loads_kinds_of_passed_phases_witness :
  (decodedTile cacheableTile = Some 7 /\ cacheable cacheableTile = true) /\
  loadedKinds (snd (updates hasGeometry 2 (cacheableTile, freshLoader)))
  = kindsOfFirst 2 DefaultPhases.
Proof.
  split; [split; reflexivity|].
  destruct (PhasedExtras.update_loads_kinds_of_passed_phases hasGeometry cacheableTile 7
              DefaultPhases DefaultBasicGeometryKinds 2 eq_refl eq_refl) as (Hkinds & _).
  exact Hkinds.
Defined.

Lemma budget_applies_to_dynamic_frames_only_witness :
  (isDynamicFrame staticView = false \/ m_maximumUpdatesPerFrame manager = 0) /\
  updateAllTiles hasGeometry manager staticView cacheableTiles
  = map (updated hasGeometry) cacheableTiles.
Proof.
  split; [left; reflexivity|].
  destruct (ManagerExtras.budget_applies_to_dynamic_frames_only hasGeometry manager staticView
              cacheableTiles 1 (or_introl eq_refl)) as (_ & Hall).
  exact Hall.
Defined.

Lemma dynamic_frame_respects_budget_witness :
  (isDynamicFrame dynamicView = true /\ 0 < m_maximumUpdatesPerFrame manager) /\
  exists k,
    updateAllTiles hasGeometry manager dynamicView cacheableTiles
    = map (updated hasGeometry) (take k cacheableTiles) ++ drop k cacheableTiles /\
    updatesReported hasGeometry (take k cacheableTiles) <= 5.
Proof.
  split; [split; [reflexivity | vm_compute; lia]|].
  destruct (ManagerExtras.dynamic_frame_respects_budget hasGeometry manager dynamicView
              cacheableTiles eq_refl ltac:(vm_compute; lia)) as (k & Hk & Hle & _).
  exists k. split; [exact Hk | exact Hle].
Defined.

Lemma static_frames_advance_together_witness :
  (isDynamicFrame staticView = false /\
   Forall (fun t : @Tile nat => cacheable t = true /\ decodedTile t <> None)
          [cacheableTile; cacheableTile]) /\
  Forall (fun mt => exists l, snd mt = Some l /\ currentPhase l = 2)
         (frames hasGeometry manager staticView 2
                 (map (initTile manager) [cacheableTile; cacheableTile])).
Proof.
  assert (Hts : Forall (fun t : @Tile nat => cacheable t = true /\ decodedTile t <> None)
                       [cacheableTile; cacheableTile])
    by (repeat constructor; discriminate).
  split; [split; [reflexivity | exact Hts]|].
  destruct (ManagerExtras.static_frames_advance_together hasGeometry manager staticView
              [cacheableTile; cacheableTile] 2 eq_refl Hts) as (Hcursors & _).
  exact Hcursors.
Defined.

Lemma deferred_build_depends_on_visibility_witness :
  let w := SimpleTileGeometryLoader.mkWorld cacheableTile
             SimpleTileGeometryLoader.newSimpleTileGeometryLoader [] 0 0 in
  let w1 := SimpleTileGeometryLoader.update w in
  let w3 := SimpleTileGeometryLoader.runTimer
              (SimpleTileGeometryLoader.withTile
                 (setVisible false (SimpleTileGeometryLoader.tile w1)) w1) in
  (SimpleTileGeometryLoader.m_decodedTile (SimpleTileGeometryLoader.loader w) = None /\
   decodedTile (SimpleTileGeometryLoader.tile w) = Some 7 /\
   disposed (SimpleTileGeometryLoader.tile w) = false /\
   isVisible (SimpleTileGeometryLoader.tile w) = true /\
   SimpleTileGeometryLoader.timers w = []) /\
  objects (SimpleTileGeometryLoader.tile w3) = [] /\
  SimpleTileGeometryLoader.disposeTileCalls w3 = 1 /\
  SimpleTileGeometryLoader.isFinished (SimpleTileGeometryLoader.loader w3) = true.
Proof.
  intros w w1 w3. split; [repeat split; reflexivity|].
  destruct (SimpleExtras.deferred_build_depends_on_visibility w 7 false
              eq_refl eq_refl eq_refl eq_refl eq_refl)
    as (Hobjects & _ & Hevicted & Hfinished & _).
  split; [exact Hobjects | split; [exact Hevicted | exact Hfinished]].
Defined.

Lemma text_priorities_distinct_descending_witness :
  m_decodedTile loaderAtWork = Some 7 /\
  exists priorities,
    getTextElementPriorities textTechniques loaderAtWork = Some priorities /\
    StronglySorted (fun a b => (b < a)%Z) priorities /\
    (3%Z ∈ priorities /\ 0%Z ∈ priorities).
Proof.
  split; [reflexivity|].
  destruct (TextPriorityFacts.text_priorities_distinct_descending textTechniques
              loaderAtWork 7 eq_refl) as (priorities & Hcall & Hsorted & Hmem).
  exists priorities. split; [exact Hcall|]. split; [exact Hsorted|]. split.
  - apply Hmem. exists (mkTechniqueEntry "text" (Some 3%Z)).
    split; [left | split; reflexivity].
  - apply Hmem. exists (mkTechniqueEntry "text" None).
    split; [right; right; left | split; reflexivity].
Defined.

Lemma text_priorities_only_while_loading_witness :
  (decodedTile cacheableTile = Some 7 /\ cacheable cacheableTile = true /\
   0 < length DefaultPhases) /\
  getTextElementPriorities textTechniques
    (snd (updates hasGeometry 1 (cacheableTile, freshLoader))) <> None /\
  getTextElementPriorities textTechniques
    (snd (updates hasGeometry 5 (cacheableTile, freshLoader))) = None.
Proof.
  split; [split; [reflexivity | split; [reflexivity | vm_compute; lia]]|].
  split.
  - apply (TextPriorityFacts.text_priorities_only_while_loading hasGeometry textTechniques
             cacheableTile 7 DefaultPhases DefaultBasicGeometryKinds 1
             eq_refl eq_refl ltac:(vm_compute; lia)).
    simpl. lia.
  - vm_compute. reflexivity.
Defined.

Lemma dynamic_frames_finish_all_tiles_witness :
  (isDynamicFrame dynamicView = true /\ 0 < m_maximumUpdatesPerFrame manager /\
   0 < length (m_loadPhaseDefinitions manager) /\
   Forall (fun t : @Tile nat => cacheable t = true /\ decodedTile t <> None)
          [cacheableTile; cacheableTile]) /\
  checkTilesFinished
    (frames hasGeometry manager dynamicView 10
            (map (initTile manager) [cacheableTile; cacheableTile])) = true.
Proof.
  assert (Hts : Forall (fun t : @Tile nat => cacheable t = true /\ decodedTile t <> None)
                       [cacheableTile; cacheableTile])
    by (repeat constructor; discriminate).
  assert (Hmax : 0 < m_maximumUpdatesPerFrame manager) by (vm_compute; lia).
  assert (HN : 0 < length (m_loadPhaseDefinitions manager)) by (vm_compute; lia).
  split; [split; [reflexivity | split; [exact Hmax | split; [exact HN | exact Hts]]]|].
  destruct (ManagerExtras.dynamic_frames_finish_all_tiles hasGeometry manager dynamicView
              [cacheableTile; cacheableTile] 10 eq_refl Hmax HN Hts) as (_ & Hdone).
  destruct Hdone as (Hfinished & _); [vm_compute; lia | exact Hfinished].
Defined.

Lemma update_builds_each_kind_once_witness :
  (decodedTile cacheableTile = Some 7 /\ cacheable cacheableTile = true) /\
  exists calls,
    objects (fst (updates hasGeometry 5 (cacheableTile, freshLoader)))
    = objects cacheableTile ++ calls /\
    NoDup (kindCalls calls).
Proof.
  split; [split; reflexivity|].
  destruct (PhasedExtras.update_builds_each_kind_once hasGeometry cacheableTile 7
              DefaultPhases DefaultBasicGeometryKinds 5 eq_refl eq_refl)
    as (calls & Hobjects & Honce & _).
  exists calls. split; [exact Hobjects | exact Honce].
Defined.

Lemma initDecodedTile_first_call_decides_witness :
  TileGeometryCreator.techniques roadTileInUse
  = TileGeometryCreator.techniques
      (TileGeometryCreator.initDecodedTile hasOrIntersects roadTile None
         (Some {[ "road"%string ]})) /\
  TileGeometryCreator.techniques
    (TileGeometryCreator.initDecodedTile hasOrIntersects roadTileInUse
       (Some {[ "road"%string ]}) None)
  = TileGeometryCreator.techniques roadTileInUse /\
  TileGeometryCreator.enabled <$> TileGeometryCreator.techniques roadTileInUse
  = [Some false; Some true].
Proof.
  split; [reflexivity|].
  destruct (CreatorFacts.initDecodedTile_first_call_decides hasOrIntersects roadTile
              roadTileInUse None (Some {[ "road"%string ]}) (Some {[ "road"%string ]}) None
              eq_refl) as (_ & Hsame & _).
  split; [exact Hsame | vm_compute; reflexivity].
Defined.

End ExtraExamples.

Module ExtraStyleExamples.
Import InterpolatedProperties InterpolatedSpec InterpolatedExtrasSpec.
Import StyleSetEvaluator StyleSetSpec StyleExtrasSpec StyleSamples ExtraSamples.

Lemma technique_takes_nearest_value_witness :
  (_index lineRule = None /\ "color"%string <> "_index"%string) /\
  exists t,
    objects (snd (snd (processTechnique hexInt32 "line" lineRule
                         (mkWalk [roadGroup] [] [] []))))
    = [t] /\
    t !! "color"%string = Some (Value (JsString "#ffffff")).
Proof.
  split; [split; [reflexivity | discriminate]|].
  destruct (MatchingExtras.technique_takes_nearest_value hexInt32 "line" lineRule
              (mkWalk [roadGroup] [] [] []) "color" eq_refl ltac:(discriminate))
    as (t & Hobjects & Hvalue).
  exists t. split; [exact Hobjects|].
  rewrite Hvalue. vm_compute. reflexivity.
Defined.

Lemma auto_orders_count_up_without_groups_witness :
  noBiasGroups roadStyles = true /\
  flat_map leafAutoOrders (styleSet (newStyleSetEvaluator roadStyles false))
  = consecutiveOrders 0 2.
Proof.
  assert (Hno : noBiasGroups roadStyles = true) by (vm_compute; reflexivity).
  split; [exact Hno|].
  destruct (RenderOrderExtras.auto_orders_count_up_without_groups roadStyles false Hno)
    as (Horders & _).
  exact Horders.
Defined.

Lemma duplicate_removal_normalises_witness :
  length (zoomLevels lineWidth) = valuesLength (values lineWidth) /\
  NoDup (zoomLevels (removeDuplicatePropertyValues lineWidth)) /\
  removeDuplicatePropertyValues (removeDuplicatePropertyValues lineWidth)
  = removeDuplicatePropertyValues lineWidth.
Proof.
  split; [reflexivity|].
  destruct (InterpolatedExtras.duplicate_removal_normalises lineWidth eq_refl)
    as (Hnd & _ & _ & Hfix).
  split; [exact Hnd | exact Hfix].
Defined.

Lemma sampled_values_match_zoom_levels_witness :
  length (zoomLevels duplicatedColor) = valuesLength (values duplicatedColor) /\
  length (sampledValues (fst (createInterpolatedProperty hexInt32 duplicatedColor)))
  = channelCount (snd (createInterpolatedProperty hexInt32 duplicatedColor))
    * length (zoomLevelKeys (fst (createInterpolatedProperty hexInt32 duplicatedColor))).
Proof.
  split; [reflexivity|].
  destruct (InterpolatedExtras.sampled_values_match_zoom_levels hexInt32 duplicatedColor
              eq_refl) as (_ & Hlen).
  exact Hlen.
Defined.

Lemma conversion_is_repeatable_witness :
  length (zoomLevels lineWidth) = valuesLength (values lineWidth) /\
  createInterpolatedProperty hexInt32 (snd (createInterpolatedProperty hexInt32 lineWidth))
  = createInterpolatedProperty hexInt32 lineWidth.
Proof.
  split; [reflexivity|].
  exact (InterpolatedExtras.conversion_is_repeatable hexInt32 lineWidth eq_refl).
Defined.

End ExtraStyleExamples.
